(** * The games-wiki validator ([_validation/app.js]) as a shallow embedding

    The validator walks the game folders of the wiki, checks every game's
    images, its TOML metadata and its save bundles, collects the failures in
    one process-wide list and reports them at the end.  This file embeds the
    program as Rocq functions over an explicit state (the error list, the
    current game and the console) with exceptions, and proves the properties
    of the specification about it.

    Conventions.
    - A JavaScript string is a [string]; every [ascii] stands for one code
      unit, so the model covers the strings whose code units are below 256.
    - A value of a parsed TOML document is a [value].  Own data properties
      are read with [get]; no field name the validator reads is a member of
      a built-in prototype, and tables whose own keys shadow the members the
      engine calls implicitly ([toString], [valueOf]) are not modelled.
    - An error message is the string the program builds, character for
      character; an exception is kept by its kind, not by the text of the
      engine.
    - The file system, the configuration and the third-party decoders
      (image sniffing, image size, TOML parser) are the fields of [World];
      nothing is assumed of them.

    The definitions come first, in the order of the source; the properties
    follow, grouped by the statement of the specification they settle. *)

From Stdlib Require Import ZArith QArith Qround Ascii String List Permutation.
From Stdlib.Strings Require Import Byte.
From stdpp Require Import base decidable option list gmap strings pretty.

#[local] Set Warnings "-register-all".
#[local] Open Scope Z_scope.

(** ** Characters and strings *)

Module Str.

(** The code unit of a character. *)
Definition code (c : ascii) : Z := Z.of_N (N_of_ascii c).

(** [c] lies in the range [lo-hi] of a character class. *)
Definition in_range (lo hi c : ascii) : bool :=
  (code lo <=? code c) && (code c <=? code hi).

(** [s.length] *)
Definition length (s : string) : Z := Z.of_nat (String.length s).

(** The suffixes of [s], longest first: the positions a search starts at. *)
Fixpoint suffixes (s : string) : list string :=
  match s with
  | EmptyString => [EmptyString]
  | String _ t => s :: suffixes t
  end.

(** [s.lastIndexOf(c)], [-1] when [c] does not occur. *)
Fixpoint lastIndexOf (c : ascii) (s : string) : Z :=
  match s with
  | EmptyString => -1
  | String a t =>
      let r := lastIndexOf c t in
      if 0 <=? r then 1 + r
      else if Ascii.eqb a c then 0 else -1
  end.

(** The first [n] characters of [s]. *)
Fixpoint take (n : nat) (s : string) : string :=
  match n, s with
  | S k, String a t => String a (take k t)
  | _, _ => EmptyString
  end.

(** [s.substr(0, len)]: a negative length counts as zero. *)
Definition substr0 (len : Z) (s : string) : string := take (Z.to_nat len) s.

(** [s.startsWith(p)] *)
Definition startsWith (p s : string) : bool := String.prefix p s.

(** The one-character strings of [s], as [s[0]], [s[1]], ... *)
Fixpoint chars (s : string) : list string :=
  match s with
  | EmptyString => []
  | String a t => String a EmptyString :: chars t
  end.

(** [parts.join(sep)] *)
Fixpoint join (sep : string) (parts : list string) : string :=
  match parts with
  | [] => EmptyString
  | [p] => p
  | p :: rest => p +:+ sep +:+ join sep rest
  end.

(** The double quote character, as a string. *)
Definition quote : string := String "034"%char EmptyString.

End Str.

(** ** Regular expressions

    The two patterns of the validator are built from literal characters,
    character classes, concatenation, alternation and bounded repetition.
    Capture groups do not change which strings match and are not kept. *)

Module Regex.

Inductive regex : Type :=
| Chr (c : ascii)                        (* a literal character *)
| Cls (ranges : list (ascii * ascii))    (* [a-zA-Z0-9] *)
| Seq (r1 r2 : regex)                    (* r1 r2 *)
| Alt (r1 r2 : regex)                    (* r1|r2 *)
| Rep (n : nat) (r : regex).             (* r{n} *)

Definition in_class (ranges : list (ascii * ascii)) (c : ascii) : bool :=
  existsb (fun '(lo, hi) => Str.in_range lo hi c) ranges.

(** [run r s]: what is left of [s] after each way [r] matches a prefix. *)
Fixpoint run (r : regex) (s : string) : list string :=
  match r with
  | Chr c =>
      match s with
      | String a t => if Ascii.eqb a c then [t] else []
      | EmptyString => []
      end
  | Cls ranges =>
      match s with
      | String a t => if in_class ranges a then [t] else []
      | EmptyString => []
      end
  | Seq r1 r2 => run r1 s ≫= run r2
  | Alt r1 r2 => run r1 s ++ run r2 s
  | Rep n r => Nat.iter n (fun rests => rests ≫= run r) [s]
  end.

(** [r] matches at the start of [s]. *)
Definition matches_at (r : regex) (s : string) : bool :=
  match run r s with [] => false | _ :: _ => true end.

(** [s.match(r)] is not null: [r] matches somewhere in [s] (the pattern is
    not anchored). *)
Definition test (r : regex) (s : string) : bool :=
  existsb (matches_at r) (Str.suffixes s).

(** The language of [r]. *)
Inductive lang : regex -> string -> Prop :=
| lang_chr c : lang (Chr c) (String c EmptyString)
| lang_cls ranges c :
    in_class ranges c = true -> lang (Cls ranges) (String c EmptyString)
| lang_seq r1 r2 w1 w2 :
    lang r1 w1 -> lang r2 w2 -> lang (Seq r1 r2) (w1 +:+ w2)
| lang_alt_l r1 r2 w : lang r1 w -> lang (Alt r1 r2) w
| lang_alt_r r1 r2 w : lang r2 w -> lang (Alt r1 r2) w
| lang_rep_0 r : lang (Rep 0 r) EmptyString
| lang_rep_S n r w1 w2 :
    lang (Rep n r) w1 -> lang r w2 -> lang (Rep (S n) r) (w1 +:+ w2).

Definition digit : regex := Cls [("0", "9")]%char.

(** [/[0-9]{4}-((0[1-9])|(1[0-2]))-((0[1-9])|([1-2][0-9])|(3[0-1]))/] *)
Definition date_pattern : regex :=
  Seq (Rep 4 digit)
 (Seq (Chr "-")
 (Seq (Alt (Seq (Chr "0") (Cls [("1", "9")]%char))
           (Seq (Chr "1") (Cls [("0", "2")]%char)))
 (Seq (Chr "-")
      (Alt (Seq (Chr "0") (Cls [("1", "9")]%char))
      (Alt (Seq (Cls [("1", "2")]%char) (Cls [("0", "9")]%char))
           (Seq (Chr "3") (Cls [("0", "1")]%char))))))).

(** [/([a-zA-Z0-9]){16}/] *)
Definition title_id_pattern : regex :=
  Rep 16 (Cls [("a", "z"); ("A", "Z"); ("0", "9")]%char).

End Regex.

(** ** JavaScript values *)

(** The values the validator handles: what the TOML parser puts in a
    document, and [undefined].  A Number is kept by its exact value, a Date
    by its time value in milliseconds. *)
Inductive value : Type :=
| VUndefined
| VString (s : string)
| VNumber (q : Q)
| VBoolean (b : bool)
| VDate (ms : Z)
| VArray (items : list value)
| VTable (fields : gmap string value).

(** The result of a numeric conversion. *)
Inductive number : Type :=
| NaN
| Finite (q : Q)
| Infinite (upwards : bool).

(** What the program can throw.  The payload describes the failure; it is
    not the text the engine prints. *)
Inductive exn : Type :=
| TypeError (what : string)
| SystemError (code path : string)
| DecodeError (what : string).

Inductive outcome (A : Type) : Type :=
| Ok (a : A)
| Throw (e : exn).
Arguments Ok {A} a.
Arguments Throw {A} e.

#[global] Instance byte_eq_dec : EqDecision byte := Byte.byte_eq_dec.

(** [typeof v] *)
Definition typeof (v : value) : string :=
  match v with
  | VUndefined => "undefined"
  | VString _ => "string"
  | VNumber _ => "number"
  | VBoolean _ => "boolean"
  | VDate _ | VArray _ | VTable _ => "object"
  end.

(** [v === undefined] *)
Definition is_undefined (v : value) : bool :=
  match v with VUndefined => true | _ => false end.

(** [Array.isArray(v)] *)
Definition isArray (v : value) : bool :=
  match v with VArray _ => true | _ => false end.

(** The elements of an array, as [for (x in v)] reaches them by [v[x]]. *)
Definition array_items (v : value) : list value :=
  match v with VArray items => items | _ => [] end.

(** [v === b] for a boolean literal [b]. *)
Definition is_boolean (b : bool) (v : value) : bool :=
  match v with VBoolean b' => Bool.eqb b' b | _ => false end.

(** [v === n] for an integer literal [n]. *)
Definition is_number (n : Z) (v : value) : bool :=
  match v with VNumber q => Qeq_bool q (inject_Z n) | _ => false end.

(** [v === s] for a string [s]. *)
Definition is_string (s : string) (v : value) : bool :=
  match v with VString s' => String.eqb s' s | _ => false end.

(** [struct[name]] for a field name or [length]: reading a property of
    [undefined] throws, a missing property reads as [undefined]. *)
Definition get (struct : value) (name : string) : outcome value :=
  match struct with
  | VUndefined => Throw (TypeError ("cannot read property " +:+ name +:+ " of undefined"))
  | VTable fields => Ok (default VUndefined (fields !! name))
  | VArray items =>
      Ok (if String.eqb name "length"
          then VNumber (inject_Z (Z.of_nat (List.length items)))
          else VUndefined)
  | VString s =>
      Ok (if String.eqb name "length"
          then VNumber (inject_Z (Str.length s))
          else VUndefined)
  | VNumber _ | VBoolean _ | VDate _ => Ok VUndefined
  end.

(** [section[i]] for a loop index [i]. *)
Definition get_index (section : value) (i : nat) : value :=
  match section with
  | VArray items => default VUndefined (items !! i)
  | VString s => default VUndefined (VString <$> Str.chars s !! i)
  | VTable fields => default VUndefined (fields !! pretty i)
  | VUndefined | VNumber _ | VBoolean _ | VDate _ => VUndefined
  end.

(** ** parseInt *)

Module ParseInt.

(** White space that [parseInt] skips (the code units below 256). *)
Definition is_white (c : ascii) : bool :=
  let n := Str.code c in
  ((9 <=? n) && (n <=? 13)) || (n =? 32) || (n =? 160).

Fixpoint skip_white (s : string) : string :=
  match s with
  | String c t => if is_white c then skip_white t else s
  | EmptyString => s
  end.

(** The value of [c] as a digit in [radix], if it is one. *)
Definition digit (radix : Z) (c : ascii) : option Z :=
  let n := Str.code c in
  let d :=
    if (48 <=? n) && (n <=? 57) then n - 48
    else if (97 <=? n) && (n <=? 122) then n - 87
    else if (65 <=? n) && (n <=? 90) then n - 55
    else 36 in
  if d <? radix then Some d else None.

(** The longest prefix of digits, read in [radix]; [None] when the prefix
    is empty and [acc] holds no digit yet. *)
Fixpoint digits (radix : Z) (acc : option Z) (s : string) : option Z :=
  match s with
  | String c t =>
      match digit radix c with
      | Some d => digits radix (Some (radix * default 0 acc + d)) t
      | None => acc
      end
  | EmptyString => acc
  end.

Definition strip_sign (s : string) : Z * string :=
  match s with
  | String "-" t => (-1, t)
  | String "+" t => (1, t)
  | _ => (1, s)
  end.

Definition strip_radix (s : string) : Z * string :=
  match s with
  | String "0" (String "x" t) | String "0" (String "X" t) => (16, t)
  | _ => (10, s)
  end.

(** [parseInt(s)] for a string [s]; [None] is NaN.  The integer is exact:
    the Number the engine returns is its nearest double, and comparing
    that double with [5] or [999] gives what the integer gives. *)
Definition parseInt (s : string) : option Z :=
  let '(sign, s1) := strip_sign (skip_white s) in
  let '(radix, s2) := strip_radix s1 in
  Z.mul sign <$> digits radix None s2.

End ParseInt.

(** ** The world the validator runs in *)

(** A node of the file system, as [lstat] sees it.  A symbolic link is kept
    with what following it gives: a node, or the error of a link that
    dangles or loops.  A special file (a FIFO, a socket, a device) is kept
    with what reading it gives; a read that never ends is not modelled. *)
Inductive node : Type :=
| File (content : list byte)
| Directory (entries : list string)
| Link (target : outcome node)
| Special (read : outcome (list byte)).

(** What the calls that follow links ([existsSync], [readdirSync],
    [readFileSync]) find at a node. *)
Fixpoint follow (n : node) : outcome node :=
  match n with
  | Link target =>
      match target with
      | Ok n' => follow n'
      | Throw e => Throw e
      end
  | File _ | Directory _ | Special _ => Ok n
  end.

(** The constraint record of an image kind ([config.boxart], [config.icon],
    [config.screenshots]). *)
Record image_config : Type := {
  width : Z;
  height : Z;
  type : string
}.

(** [config.json] *)
Record Config : Type := {
  directory : string;
  boxart_filename : string;
  boxart : image_config;
  icon_filename : string;
  icon : image_config;
  data_filename : string;
  screenshots_dirname : string;
  screenshots : image_config;
  saves_dirname : string;
  regions : list string
}.

(** The error a failed [toml.parse] throws. *)
Record parse_error : Type := {
  line : Z;
  message : string
}.

(** The file system is keyed by the path as the program writes it;
    [path.join(a, b)] and [`${a}/${b}`] name the same node.  The decoders
    are third-party code and the conversions are built into the engine:
    they are left uninterpreted. *)
Class World : Type := {
  config : Config;
  files : gmap string node;
  (** [imageType(buffer)]: the media type of a recognised image, else null. *)
  imageType : list byte -> option string;
  (** [sizeOf(path)], on the content of the file: width and height. *)
  image_size : list byte -> outcome (Z * Z);
  (** [toml.parse(rawContents)] *)
  toml_parse : list byte -> parse_error + value;
  (** Number to string, for a Number that is not an integer below 2^53. *)
  float_to_string : Q -> string;
  (** Date to string. *)
  date_to_string : Z -> string;
  (** String to number. *)
  string_to_number : string -> number
}.

Section Conversions.
Context `{World}.

(** [q] is an integer below [2^53] in magnitude.  Such a Number prints as
    its decimal expansion; a larger one prints the shortest digits that
    read back as the same double (2^63 prints as 9223372036854776000),
    which is left to [float_to_string]. *)
Definition prints_as_integer (q : Q) : bool :=
  Qeq_bool q (inject_Z (Qfloor q)) && (Z.abs (Qfloor q) <? 2 ^ 53).

Definition number_to_string (q : Q) : string :=
  if prints_as_integer q then pretty (Qfloor q) else float_to_string q.

(** String conversion, as in a template literal or an argument of
    [parseInt].  Inside [join] an undefined element prints as nothing. *)
Fixpoint ToString (v : value) : string :=
  match v with
  | VUndefined => "undefined"
  | VString s => s
  | VNumber q => number_to_string q
  | VBoolean b => if b then "true" else "false"
  | VDate ms => date_to_string ms
  | VArray items =>
      Str.join ","
        (map (fun item => if is_undefined item then "" else ToString item) items)
  | VTable _ => "[object Object]"
  end.

(** Numeric conversion, as the operand of [<]. *)
Definition ToNumber (v : value) : number :=
  match v with
  | VUndefined | VTable _ => NaN
  | VString s => string_to_number s
  | VNumber q => Finite q
  | VBoolean b => Finite (inject_Z (if b then 1 else 0))
  | VDate ms => Finite (inject_Z ms)
  | VArray _ => string_to_number (ToString v)
  end.

(** [parseInt(v)] *)
Definition parseInt (v : value) : option Z := ParseInt.parseInt (ToString v).

(** [i < n] for a loop index [i]. *)
Definition index_lt (i : nat) (n : number) : bool :=
  match n with
  | NaN => false
  | Finite q => negb (Qle_bool q (inject_Z (Z.of_nat i)))
  | Infinite upwards => upwards
  end.

(** The elements [section[0]], [section[1]], ... that a loop
    [for (i = 0; i < section.length; i++)] visits.  A table has a length
    only if it has a field of that name; as it has finitely many fields,
    one of the first [size fields + 1] indices is a hole, where the body
    of either loop of the validator throws, so no later index is needed.
    The loops are not reached with an undefined section. *)
Definition entries (section : value) : list value :=
  match section with
  | VArray items => items
  | VString s => VString <$> Str.chars s
  | VTable fields =>
      let n := ToNumber (default VUndefined (fields !! "length")) in
      get_index section <$> filter (fun i => index_lt i n) (seq 0 (S (size fields)))
  | VUndefined | VNumber _ | VBoolean _ | VDate _ => []
  end.

End Conversions.

(** ** State, exceptions and the console *)

(** An element of the global [errors] list. *)
Record error_record : Type := {
  game : option string;     (* [currentGame], null before the first game *)
  error : string
}.

(** A console call. *)
Inductive console_call : Type :=
| Warn (text : string)      (* console.warn *)
| Info (text : string)      (* console.info *)
| Error (ex : exn).         (* console.error *)

(** The mutable globals of the program, and what it has printed. *)
Record state : Type := {
  currentGame : option string;
  errors : list error_record;
  console : list console_call
}.

(** [let currentGame = null; let errors = [];] *)
Definition initial : state :=
  {| currentGame := None; errors := []; console := [] |}.

(** A computation that reads and writes the globals and may throw. *)
Definition M (A : Type) : Type := state -> outcome A * state.

#[global] Instance M_ret : MRet M := fun A a st => (Ok a, st).

#[global] Instance M_bind : MBind M := fun A B f m st =>
  match m st with
  | (Ok a, st') => f a st'
  | (Throw e, st') => (Throw e, st')
  end.

(** [throw e] *)
Definition throw {A} (e : exn) : M A := fun st => (Throw e, st).

(** Running a pure step that may throw. *)
Definition lift {A} (r : outcome A) : M A := fun st => (r, st).

(** [try { body } catch (ex) { handler(ex) }] *)
Definition try_catch {A} (body : M A) (handler : exn -> M A) : M A := fun st =>
  match body st with
  | (Ok a, st') => (Ok a, st')
  | (Throw e, st') => handler e st'
  end.

(** [errors.push({game: currentGame, error: err})] *)
Definition validationError (err : string) : M unit := fun st =>
  (Ok tt, {| currentGame := currentGame st;
             errors := errors st ++ [{| game := currentGame st; error := err |}];
             console := console st |}).

(** [currentGame = game] *)
Definition set_currentGame (g : string) : M unit := fun st =>
  (Ok tt, {| currentGame := Some g; errors := errors st; console := console st |}).

(** The global [errors], read. *)
Definition read_errors : M (list error_record) := fun st => (Ok (errors st), st).

Definition print (c : console_call) : M unit := fun st =>
  (Ok tt, {| currentGame := currentGame st; errors := errors st;
             console := console st ++ [c] |}).

(** A counted loop over the elements of a section, threading the local
    variables [acc] of the enclosing function. *)
Fixpoint for_entries {L : Type} (i : nat) (section : list value)
    (body : nat -> value -> L -> M L) (acc : L) : M L :=
  match section with
  | [] => mret acc
  | entry :: rest => acc' ← body i entry acc; for_entries (S i) rest body acc'
  end.

(** [for (x of items) body(x)] without local state. *)
Fixpoint for_each {A : Type} (items : list A) (body : A -> M unit) : M unit :=
  match items with
  | [] => mret tt
  | x :: rest => body x;; for_each rest body
  end.

#[global] Instance outcome_ret : MRet outcome := fun A a => Ok a.

#[global] Instance outcome_bind : MBind outcome := fun A B f r =>
  match r with
  | Ok a => f a
  | Throw e => Throw e
  end.

(** [if (cond) { body }] *)
Definition when (cond : bool) (body : M unit) : M unit :=
  if cond then body else mret tt.

(** [items.filter(pred)] for a predicate that may throw. *)
Fixpoint filter_throwing {A : Type} (pred : A -> outcome bool) (items : list A)
    : outcome (list A) :=
  match items with
  | [] => Ok []
  | x :: rest =>
      keep ← pred x;
      kept ← filter_throwing pred rest;
      Ok (if keep : bool then x :: kept else kept)
  end.

(** [items.indexOf(x)] on an array of strings, [-1] when [x] is absent. *)
Fixpoint indexOf (x : string) (items : list string) : Z :=
  match items with
  | [] => -1
  | y :: rest =>
      if String.eqb y x then 0
      else let r := indexOf x rest in if r <? 0 then -1 else 1 + r
  end.

(** [items.filter((element, i) => pred(element, i))] *)
Definition filter_indexed {A : Type} (pred : A -> nat -> bool) (items : list A)
    : list A :=
  snd <$> List.filter (fun p : nat * A => pred (snd p) (fst p)) (imap (fun i x => (i, x)) items).

(** ** The file system *)

Section FileSystem.
Context `{World}.

(** What a path leads to, links followed. *)
Definition stat (path : string) : outcome node :=
  match files !! path with
  | Some n => follow n
  | None => Throw (SystemError "ENOENT" path)
  end.

(** [fs.existsSync(path)]: false for a link that leads nowhere. *)
Definition existsSync (path : string) : bool :=
  match stat path with Ok _ => true | Throw _ => false end.

(** [fs.readdirSync(path)] *)
Definition readdirSync (path : string) : outcome (list string) :=
  match stat path with
  | Ok (Directory names) => Ok names
  | Ok _ => Throw (SystemError "ENOTDIR" path)
  | Throw e => Throw e
  end.

(** [fs.lstatSync(path).isDirectory()]: the link itself is looked at, and a
    link is not a directory, whatever it leads to. *)
Definition isDirectory (path : string) : outcome bool :=
  match files !! path with
  | Some (Directory _) => Ok true
  | Some (File _ | Link _ | Special _) => Ok false
  | None => Throw (SystemError "ENOENT" path)
  end.

(** [fs.lstatSync(path).isFile()]: a link is not a regular file either. *)
Definition isFile (path : string) : outcome bool :=
  match files !! path with
  | Some (File _) => Ok true
  | Some (Directory _ | Link _ | Special _) => Ok false
  | None => Throw (SystemError "ENOENT" path)
  end.

(** [fs.readFileSync(path)] *)
Definition readFileSync (path : string) : outcome (list byte) :=
  match stat path with
  | Ok (File content) => Ok content
  | Ok (Directory _) => Throw (SystemError "EISDIR" path)
  | Ok (Special read) => read
  | Ok (Link _) => Throw (SystemError "ELOOP" path)
  | Throw e => Throw e
  end.

(** [readChunk.sync(path, 0, n)]: at most [n] bytes from the start. *)
Definition readChunk (path : string) (n : nat) : outcome (list byte) :=
  content ← readFileSync path; Ok (take n content).

(** [sizeOf(path)] *)
Definition sizeOf (path : string) : outcome (Z * Z) :=
  content ← readFileSync path; image_size content.

Definition getDirectories (srcpath : string) : outcome (list string) :=
  names ← readdirSync srcpath;
  filter_throwing (fun file => isDirectory (srcpath +:+ "/" +:+ file)) names.

Definition getFiles (srcpath : string) : outcome (list string) :=
  names ← readdirSync srcpath;
  filter_throwing (fun file => isFile (srcpath +:+ "/" +:+ file)) names.

End FileSystem.

(** ** The validators *)

Section Validators.
Context `{World}.

(** [field.match(pattern)] is not null; only a string has a [match]
    method. *)
Definition str_match (field : value) (pattern : Regex.regex) : outcome bool :=
  match field with
  | VString s => Ok (Regex.test pattern s)
  | _ => Throw (TypeError "match is not a function")
  end.

(** [test.startsWith(prefix)]; only a string has the method. *)
Definition str_startsWith (test : value) (prefix : string) : outcome bool :=
  match test with
  | VString s => Ok (Str.startsWith prefix s)
  | _ => Throw (TypeError "startsWith is not a function")
  end.

(** [imageType(buffer).mime] *)
Definition mime (detected : option string) : outcome string :=
  match detected with
  | Some m => Ok m
  | None => Throw (TypeError "cannot read property mime of null")
  end.

(** Validates that a image is correctly sized and of the right format. *)
Definition validateImage (path : string) (config : image_config) : M unit :=
  if negb (existsSync path) then
    validationError ("Image " +:+ Str.quote +:+ path +:+ Str.quote +:+
                     "' was not found at " +:+ path +:+ ".")
  else
    buffer ← lift (readChunk path 12);
    actual ← lift (mime (imageType buffer));
    when (negb (String.eqb actual (type config)))
      (validationError ("Incorrect format of image (" +:+ actual +:+ " != " +:+
                        type config +:+ ")"));;
    dimensions ← lift (sizeOf path);
    when (negb (fst dimensions =? width config) ||
          negb (snd dimensions =? height config))
      (validationError
         ("Image " +:+ Str.quote +:+ path +:+ Str.quote +:+ "'s dimensions are " +:+
          pretty (fst dimensions) +:+ " x " +:+ pretty (snd dimensions) +:+
          " instead of the required " +:+
          pretty (width config) +:+ " x " +:+ pretty (height config) +:+ ".")).

(** Validates that a folder (if it exists) of images contains images that
    are correctly sized and of the right format. *)
Definition validateDirImages (path : string) (config : image_config) : M unit :=
  when (existsSync path)
    (files ← lift (getFiles path);
     for_each files (fun file => validateImage (path +:+ "/" +:+ file) config)).

(** Validates the existance of a particular entry in a structure. *)
Definition validateExists (struct : value) (name : string) : M bool :=
  field ← lift (get struct name);
  if is_undefined field then
    validationError ("Field " +:+ Str.quote +:+ name +:+ Str.quote +:+ " missing");;
    mret false
  else mret true.

(** Validates the existence of a particular entry in a structure, and
    ensures that it meets a particular set of criteria. *)
Definition validateContents (struct : value) (name : string)
    (test : value -> M unit) : M unit :=
  present ← validateExists struct name;
  if present : bool then field ← lift (get struct name); test field
  else mret tt.

(** Validates the existence of a particular entry in a structure, and
    ensures that it is not a empty string. *)
Definition validateNotEmpty (struct : value) (name : string) : M unit :=
  validateContents struct name (fun field =>
    if negb (String.eqb (typeof field) "string") then
      validationError ("Field " +:+ Str.quote +:+ name +:+ Str.quote +:+
                       " is not a string")
    else if is_string "" field then
      validationError ("Field " +:+ Str.quote +:+ name +:+ Str.quote +:+ " is empty")
    else mret tt).

Definition validateIsBoolean (struct : value) (name : string) : M unit :=
  field ← lift (get struct name);
  when (negb (is_boolean false field) && negb (is_boolean true field))
    (validationError ("Field " +:+ Str.quote +:+ name +:+ Str.quote +:+
                      " is not a boolean")).

(** Validates pattern of YYYY-MM-DD in a field of a structure. *)
Definition validateIsDate (struct : value) (name : string) : M unit :=
  validateContents struct name (fun field =>
    matched ← lift (str_match field Regex.date_pattern);
    when (negb matched)
      (validationError (Str.quote +:+ name +:+ Str.quote +:+
                        " is not a valid date (" +:+ Str.quote +:+ ToString field +:+
                        Str.quote +:+ ")."))).

Definition validateFileExists (dir : string) : M bool :=
  if negb (existsSync dir) then
    validationError (Str.quote +:+ dir +:+ Str.quote +:+ " does not exist!");;
    mret false
  else mret true.

(** The check of a 16-character identifier ([title] of a release,
    [title_id] of a save), with the prefix of its two messages. *)
Definition check_title_id (prefix : string) (field : value) : M unit :=
  len ← lift (get field "length");
  if negb (is_number 16 len) then
    validationError (prefix +:+ ": Game title ID has an invalid length")
  else
    matched ← lift (str_match field Regex.title_id_pattern);
    when (negb matched)
      (validationError (prefix +:+ ": Game title ID is not a hexadecimal ID")).

(** The entries of [github_issues] ([for (x in field)] over an array). *)
Definition check_github_issues (field : value) : M unit :=
  if negb (isArray field) then
    validationError "Github issues field is not an array!"
  else
    for_each (array_items field) (fun entry =>
      when (negb (String.eqb (typeof entry) "number"))
        (validationError "Github issues entry is not a number!")).

(** The body of the loop over [releases], at index [i]. *)
Definition check_release (i : nat) (release : value) : M unit :=
  let label := "Release #" +:+ pretty (i + 1)%nat in
  validateContents release "title" (check_title_id label);;
  validateContents release "region" (fun field =>
    when (negb (existsb (fun region => is_string region field) (regions config)))
      (validationError (label +:+ ": Invalid region " +:+ ToString field)));;
  validateIsDate release "release_date".

(** The check of the [version] of test case [i]. *)
Definition check_version (i : nat) (test : value) : M unit :=
  len ← lift (get test "length");
  if negb (is_number 12 len) then
    validationError ("Testcase #" +:+ pretty (i + 1)%nat +:+
                     ": Version is of incorrect length")
  else
    known ← lift (str_startsWith test "HEAD-");
    when (negb known)
      (validationError ("Testcase #" +:+ pretty (i + 1)%nat +:+
                        ": Unknown version commit source")).

(** [if (compat < maxCompatibility) maxCompatibility = compat], where
    [compat] is [parseInt(compatibility)]: NaN is below nothing. *)
Definition fold_compatibility (compatibility : value) (maxCompatibility : Z) : Z :=
  match parseInt compatibility with
  | Some compat => if compat <? maxCompatibility then compat else maxCompatibility
  | None => maxCompatibility
  end.

(** The body of the loop over [testcases], at index [i]; it returns the
    new value of [maxCompatibility]. *)
Definition check_testcase (i : nat) (testcase : value) (maxCompatibility : Z)
    : M Z :=
  validateNotEmpty testcase "compatibility";;
  compatibility ← lift (get testcase "compatibility");
  let maxCompatibility :=
    if negb (is_undefined compatibility)
    then fold_compatibility compatibility maxCompatibility
    else maxCompatibility in
  validateIsDate testcase "date";;
  validateContents testcase "version" (check_version i);;
  validateNotEmpty testcase "author";;
  mret maxCompatibility.

(** The optional [github_issues] of the header. *)
Definition validate_github_issues (tomlDoc : value) : M unit :=
  github_issues ← lift (get tomlDoc "github_issues");
  when (negb (is_undefined github_issues))
    (validateContents tomlDoc "github_issues" check_github_issues).

(** Check the global header section. *)
Definition check_header (tomlDoc : value) : M unit :=
  validateNotEmpty tomlDoc "title";;
  validateNotEmpty tomlDoc "description";;
  validate_github_issues tomlDoc.

(** Check each release individually. *)
Definition check_releases (tomlDoc : value) : M unit :=
  releases ← lift (get tomlDoc "releases");
  if negb (is_undefined releases) then
    for_entries 0 (entries releases) (fun i release _ => check_release i release) tt
  else validationError "No releases.".

(** Check each testcase individually; the result is the final value of
    [maxCompatibility]. *)
Definition check_testcases (tomlDoc : value) : M Z :=
  testcases ← lift (get tomlDoc "testcases");
  if negb (is_undefined testcases) then
    for_entries 0 (entries testcases) check_testcase 999
  else validationError "No testcases.";; mret 999.

(** The resource flags, checked only with a known test result. *)
Definition check_resources (tomlDoc : value) (maxCompatibility : Z) : M unit :=
  when (maxCompatibility <? 5)
    (validateIsBoolean tomlDoc "needs_system_files";;
     validateIsBoolean tomlDoc "needs_shared_font").

(** The checks of [validateTOML] on the parsed document, in the order of
    the source. *)
Definition validateDocument (tomlDoc : value) : M unit :=
  check_header tomlDoc;;
  check_releases tomlDoc;;
  maxCompatibility ← check_testcases tomlDoc;
  check_resources tomlDoc maxCompatibility.

(** Validates a TOML document. *)
Definition validateTOML (path : string) : M unit :=
  if negb (existsSync path) then
    validationError ("TOML was not found at " +:+ path +:+ ".")
  else
    rawContents ← lift (readFileSync path);
    match toml_parse rawContents with
    | inl e =>
        validationError ("TOML parse error (" +:+ pretty (line e) +:+ "): " +:+
                         message e)
    | inr tomlDoc => validateDocument tomlDoc
    end.

(** Validates the basic structure of a save game's TOML. Assumes it
    exists. *)
Definition validateSaveTOML (path : string) : M unit :=
  rawContents ← lift (readFileSync path);
  match toml_parse rawContents with
  | inl e =>
      validationError ("TOML parse error (" +:+ pretty (line e) +:+ "): " +:+
                       message e)
  | inr tomlDoc =>
      validateNotEmpty tomlDoc "title";;
      validateNotEmpty tomlDoc "description";;
      validateNotEmpty tomlDoc "author";;
      validateContents tomlDoc "title_id" (check_title_id "Game save data")
  end.

(** [Buffer.from([0x50, 0x4B, 0x03, 0x04])] *)
Definition zipHeader : list byte := [x50; x4b; x03; x04].

(** [a.compare(b)]: the order of two buffers, byte by byte. *)
Fixpoint compare (a b : list byte) : Z :=
  match a, b with
  | [], [] => 0
  | [], _ :: _ => -1
  | _ :: _, [] => 1
  | x :: a', y :: b' =>
      match N.compare (Byte.to_N x) (Byte.to_N y) with
      | Lt => -1
      | Gt => 1
      | Eq => compare a' b'
      end
  end.

(** Validates that a save is actually a .zip. *)
Definition validateSaveZip (path : string) : M unit :=
  data ← lift (readChunk path 4);
  when (negb (compare zipHeader data =? 0))
    (validationError ("File " +:+ path +:+ " is not a .zip!")).

(** [file.substr(0, file.lastIndexOf("."))] *)
Definition strip_extension (file : string) : string :=
  Str.substr0 (Str.lastIndexOf "." file) file.

(** The save groups of a list of file names: the names without their
    extension, each kept where it first occurs. *)
Definition save_groups (files : list string) : list string :=
  let strippedFiles := map strip_extension files in
  filter_indexed (fun element i => indexOf element strippedFiles =? Z.of_nat i)
    strippedFiles.

(** The metadata file of a save group. *)
Definition check_save_dat (dir group : string) : M unit :=
  present ← validateFileExists (dir +:+ "/" +:+ group +:+ ".dat");
  when present (validateSaveTOML (dir +:+ "/" +:+ group +:+ ".dat")).

(** The archive of a save group. *)
Definition check_save_zip (dir group : string) : M unit :=
  present ← validateFileExists (dir +:+ "/" +:+ group +:+ ".zip");
  when present (validateSaveZip (dir +:+ "/" +:+ group +:+ ".zip")).

(** The body of the loop over the save groups. *)
Definition check_save_group (dir group : string) : M unit :=
  check_save_dat dir group;;
  check_save_zip dir group.

(** Validates a folder of game saves. *)
Definition validateSaves (dir : string) : M unit :=
  if negb (existsSync dir) then mret tt
  else
    files ← lift (getFiles dir);
    for_each (save_groups files) (check_save_group dir).

End Validators.

(** ** Grouping the errors ([group-by])

    The package is third-party code: [groupBy(items, name)] files every item
    under the property [item[name]] of a fresh object [ret], by
    [ret[prop] = ret[prop] || []; ret[prop].push(item)].  The object is
    kept as the list of its own properties in creation order.  Reading
    [ret[prop]] also finds what the object inherits from
    [Object.prototype]: under such a name the first read gives a function
    (or, for [__proto__], the prototype), which is kept in place of a
    fresh list and has no [push], so the call throws. *)

Module Groups.

(** The property name an error is filed under: [String(record.game)]. *)
Definition group_key (r : error_record) : string := default "null" (game r).

(** The members of [Object.prototype]. *)
Definition prototype_names : list string :=
  ["constructor"; "__defineGetter__"; "__defineSetter__"; "hasOwnProperty";
   "__lookupGetter__"; "__lookupSetter__"; "isPrototypeOf"; "propertyIsEnumerable";
   "toString"; "valueOf"; "__proto__"; "toLocaleString"].

(** A fresh object has the property [key] by inheritance. *)
Definition inherited (key : string) : bool := existsb (String.eqb key) prototype_names.

(** The exception of a call of what is not a function. *)
Definition no_push : exn := TypeError "ret[prop].push is not a function".

(** [ret[prop] = ret[prop] || []; ret[prop].push(item)]: an own property is
    found first, then an inherited one. *)
Fixpoint push (key : string) (r : error_record)
    (groups : list (string * list error_record))
    : outcome (list (string * list error_record)) :=
  match groups with
  | [] =>
      if inherited key then Throw no_push else Ok [(key, [r])]
  | (k, group) :: rest =>
      if String.eqb k key then Ok ((k, group ++ [r]) :: rest)
      else rest' ← push key r rest; Ok ((k, group) :: rest')
  end.

(** [groupBy(errors, "game")]: the loop ends at the first call that
    throws. *)
Definition groupBy (errs : list error_record)
    : outcome (list (string * list error_record)) :=
  fold_left (fun ret r => groups ← ret; push (group_key r) r groups) errs (Ok []).

(** The array index a property name denotes, if any: a decimal numeral
    without leading zero, below [2^32 - 1]. *)
Definition array_index (key : string) : option Z :=
  match ParseInt.digits 10 None key with
  | Some n =>
      if String.eqb (pretty n) key && (n <? 2 ^ 32 - 1) then Some n else None
  | None => None
  end.

Definition is_index (key : string) : bool :=
  match array_index key with Some _ => true | None => false end.

(** Insertion of a key among keys sorted by index. *)
Fixpoint insert_by_index (key : string) (sorted : list string) : list string :=
  match sorted with
  | [] => [key]
  | k :: rest =>
      if (default 0 (array_index key) <=? default 0 (array_index k))
      then key :: k :: rest
      else k :: insert_by_index key rest
  end.

(** [for (let key in groups)]: the array indices in ascending order, then
    the other names in creation order. *)
Definition keys {A : Type} (groups : list (string * A)) : list string :=
  let names := fst <$> groups in
  foldr insert_by_index [] (List.filter is_index names)
    ++ List.filter (fun k => negb (is_index k)) names.

(** [groups[key]] *)
Fixpoint lookup {A : Type} (key : string) (groups : list (string * A))
    : option A :=
  match groups with
  | [] => None
  | (k, a) :: rest => if String.eqb k key then Some a else lookup key rest
  end.

End Groups.

(** ** The program *)

Section Program.
Context `{World}.

(** The [try] block of the loop over the game folders. *)
Definition game_body (game : string) : M unit :=
  if String.eqb game ".git" || String.eqb game "_validation" then mret tt
  else
    let inputDirectoryGame := directory config +:+ "/" +:+ game in
    set_currentGame game;;
    validateImage (inputDirectoryGame +:+ "/" +:+ boxart_filename config)
                  (boxart config);;
    validateImage (inputDirectoryGame +:+ "/" +:+ icon_filename config)
                  (icon config);;
    validateTOML (inputDirectoryGame +:+ "/" +:+ data_filename config);;
    validateDirImages (inputDirectoryGame +:+ "/" +:+ screenshots_dirname config)
                      (screenshots config);;
    validateSaves (inputDirectoryGame +:+ "/" +:+ saves_dirname config).

(** The [catch] block. *)
Definition game_handler (game : string) (ex : exn) : M unit :=
  print (Warn (game +:+ " has encountered an unexpected error."));;
  print (Error ex).

(** The callback of the loop over the game folders. *)
Definition validateGame (game : string) : M unit :=
  try_catch (game_body game) (game_handler game).

(** The lines of one group of the report. *)
Definition report_group (groups : list (string * list error_record))
    (key : string) : M unit :=
  print (Info ("  " +:+ key +:+ ":"));;
  for_each (default [] (Groups.lookup key groups)) (fun issue =>
    print (Info ("   - " +:+ error issue))).

(** The end of the script; it returns the status given to
    [process.exit]. *)
Definition report : M Z :=
  errors ← read_errors;
  if 0 <? Z.of_nat (List.length errors) then
    print (Warn "Validation completed with errors.");;
    groups ← lift (Groups.groupBy errors);
    for_each (Groups.keys groups) (report_group groups);;
    mret 1
  else
    print (Info "Validation completed without errors.");;
    mret 0.

(** The whole script.  [Ok code] is [process.exit(code)]; [Throw ex] is an
    exception that nothing catches, which ends the process where it is
    thrown. *)
Definition main : M Z :=
  games ← lift (getDirectories (directory config));
  for_each games validateGame;;
  report.

End Program.

(** ** A sample world

    A configuration, stand-ins for the decoders and a small wiki, for the
    concrete runs below.  The sample image decoders know one format: they
    recognise the PNG signature and read the size from the IHDR chunk. *)

Module Sample.

Definition png_signature : list byte := [x89; x50; x4e; x47; x0d; x0a; x1a; x0a].

(** A big-endian 32-bit field. *)
Definition be32 (n : Z) : list byte :=
  map (fun k => default x00 (Byte.of_N (Z.to_N ((n / 256 ^ k) mod 256)))) [3; 2; 1; 0].

Definition read_be32 (bs : list byte) : Z :=
  fold_left (fun acc b => 256 * acc + Z.of_N (Byte.to_N b)) bs 0.

(** The start of a PNG file of the given size. *)
Definition png_file (w h : Z) : list byte :=
  png_signature ++ be32 13 ++ [x49; x48; x44; x52] ++ be32 w ++ be32 h.

Definition sample_imageType (buffer : list byte) : option string :=
  if bool_decide (take 8 buffer = png_signature) then Some "image/png" else None.

Definition sample_image_size (content : list byte) : outcome (Z * Z) :=
  if bool_decide (take 8 content = png_signature) then
    Ok (read_be32 (take 4 (drop 16 content)), read_be32 (take 4 (drop 20 content)))
  else Throw (DecodeError "unsupported file type").

Definition sample_config : Config := {|
  directory := "..";
  boxart_filename := "boxart.png";
  boxart := {| width := 328; height := 300; type := "image/png" |};
  icon_filename := "icon.png";
  icon := {| width := 48; height := 48; type := "image/png" |};
  data_filename := "game.dat";
  screenshots_dirname := "screenshots";
  screenshots := {| width := 400; height := 240; type := "image/png" |};
  saves_dirname := "savefiles";
  regions := ["JPN"; "USA"; "EUR"; "AUS"; "CHN"; "KOR"; "TWN"]
|}.

(** The sample parser knows the documents it is given, by their bytes;
    anything else is a syntax error on line 1. *)
Definition sample_parse (known : list (list byte * value)) (raw : list byte)
    : parse_error + value :=
  match list_find (fun entry => fst entry = raw) known with
  | Some (_, (_, doc)) => inr doc
  | None => inl {| line := 1; message := "Expected a key but end of input found." |}
  end.

(** [world fs known]: the sample configuration and decoders over the file
    system [fs].  The three conversions are not reached by the runs
    below and are constant. *)
Definition world (fs : gmap string node) (known : list (list byte * value))
    : World := {|
  config := sample_config;
  files := fs;
  imageType := sample_imageType;
  image_size := sample_image_size;
  toml_parse := sample_parse known;
  float_to_string := fun _ => "NaN";
  date_to_string := fun _ => "Invalid Date";
  string_to_number := fun _ => NaN
|}.

Definition table (fields : list (string * value)) : value :=
  VTable (list_to_map fields).

(** A complete metadata document. *)
Definition good_doc : value :=
  table [("title", VString "Sample Game");
         ("description", VString "A game.");
         ("github_issues", VArray [VNumber (inject_Z 12); VNumber (inject_Z 7)]);
         ("releases", VArray [table [("title", VString "0004000000030800");
                                     ("region", VString "USA");
                                     ("release_date", VString "2011-12-04")]]);
         ("testcases", VArray [table [("compatibility", VString "1");
                                      ("date", VString "2017-05-31");
                                      ("version", VString "HEAD-5ea9d8b");
                                      ("author", VString "tester")]]);
         ("needs_system_files", VBoolean false);
         ("needs_shared_font", VBoolean true)].

(** A wiki of one game, [g], whose files are all as required. *)
Definition good_fs : gmap string node :=
  list_to_map
    [("..", Directory [".git"; "g"; "README.md"]);
     ("../.git", Directory []);
     ("../README.md", File []);
     ("../g", Directory ["boxart.png"; "icon.png"; "game.dat"; "savefiles"]);
     ("../g/boxart.png", File (png_file 328 300));
     ("../g/icon.png", File (png_file 48 48));
     ("../g/game.dat", File [x01]);
     ("../g/savefiles", Directory ["a.dat"; "a.zip"]);
     ("../g/savefiles/a.dat", File [x02]);
     ("../g/savefiles/a.zip", File [x50; x4b; x03; x04; x14; x00])].

Definition save_doc : value :=
  table [("title", VString "All unlocked");
         ("description", VString "Everything.");
         ("author", VString "tester");
         ("title_id", VString "0004000000030800")].

Definition good_world : World := world good_fs [([x01], good_doc); ([x02], save_doc)].

(** A document with one test case, given by its fields, one release and no
    resource flags. *)
Definition doc_with_testcase (testcase : list (string * value)) : value :=
  table [("title", VString "Sample Game");
         ("description", VString "A game.");
         ("releases", VArray [table [("title", VString "0004000000030800");
                                     ("region", VString "USA");
                                     ("release_date", VString "2011-12-04")]]);
         ("testcases", VArray [table testcase])].

(** A test case with the given compatibility and date. *)
Definition testcase_fields (compatibility date : value) : list (string * value) :=
  [("compatibility", compatibility);
   ("date", date);
   ("version", VString "HEAD-5ea9d8b");
   ("author", VString "tester")].

End Sample.

(** ** The notions of the specification

    What the specification says in its own words, to compare with what the
    code computes. *)

Module Spec.

(** A decimal digit. *)
Definition is_digit (c : ascii) : Prop := 48 <= Str.code c <= 57.

(** The number two decimal digits write. *)
Definition two_digits (a b : ascii) : Z := 10 * (Str.code a - 48) + (Str.code b - 48).

(** [YYYY-MM-DD] with the month in 01-12 and the day in 01-31. *)
Definition ymd (w : string) : Prop :=
  exists y1 y2 y3 y4 m1 m2 d1 d2 : ascii,
    w = String y1 (String y2 (String y3 (String y4 (String "-"
          (String m1 (String m2 (String "-" (String d1 (String d2 ""))))))))) /\
    Forall is_digit [y1; y2; y3; y4; m1; m2; d1; d2] /\
    1 <= two_digits m1 m2 <= 12 /\
    1 <= two_digits d1 d2 <= 31.

(** The field contains a date, possibly with text before and after it. *)
Definition contains_date (field : string) : Prop :=
  exists pre w post, field = pre +:+ w +:+ post /\ ymd w.

(** The names of a list, each kept where it first occurs; [before] holds
    the names already passed. *)
Fixpoint first_occurrences_after (before names : list string) : list string :=
  match names with
  | [] => []
  | x :: rest =>
      let kept := first_occurrences_after (before ++ [x]) rest in
      if bool_decide (x ∈ before) then kept else x :: kept
  end.

Definition first_occurrences (names : list string) : list string :=
  first_occurrences_after [] names.

(** A letter or a digit. *)
Definition is_alphanumeric (c : ascii) : Prop :=
  97 <= Str.code c <= 122 \/ 65 <= Str.code c <= 90 \/ 48 <= Str.code c <= 57.

(** Every character of [s] is a letter or a digit. *)
Definition alphanumeric (s : string) : Prop :=
  Forall is_alphanumeric (list_ascii_of_string s).

(** [v] is a Number with an integral value. *)
Definition is_integer (v : value) : bool :=
  match v with
  | VNumber q => Qeq_bool q (inject_Z (Qfloor q))
  | _ => false
  end.

End Spec.

(** ** Notions used in the statements *)

(** Recording an error appends it under the current game and changes
    nothing else. *)
Definition record (err : string) (st : state) : state :=
  {| currentGame := currentGame st;
     errors := errors st ++ [{| game := currentGame st; error := err |}];
     console := console st |}.

(** Recording several errors, in order. *)
Definition record_all (errs : list string) (st : state) : state :=
  fold_left (fun st err => record err st) errs st.

Section Compatibility.
Context `{World}.

(** The compatibility value a test case contributes: the integer its
    [compatibility] field parses to, if the field is there and parses. *)
Definition parsed_compatibility (testcase : value) : option Z :=
  match get testcase "compatibility" with
  | Ok compatibility =>
      if is_undefined compatibility then None else parseInt compatibility
  | Throw _ => None
  end.

(** The parsed compatibility values of a list of test cases. *)
Definition parsed_compatibilities (testcases : list value) : list Z :=
  omap parsed_compatibility testcases.

(** The least of [start] and the [values]. *)
Definition minimum (start : Z) (values : list Z) : Z := foldr Z.min start values.

(** What a test case is checked for besides its compatibility. *)
Definition other_checks (i : nat) (testcase : value) : M unit :=
  validateIsDate testcase "date";;
  validateContents testcase "version" (check_version i);;
  validateNotEmpty testcase "author".

(** The [compatibility] of the test case is a non-empty string that
    [parseInt] makes NaN of. *)
Definition unparseable (testcase : value) : Prop :=
  exists s, get testcase "compatibility" = Ok (VString s) /\ s <> "" /\
            ParseInt.parseInt s = None.

(** The error of a resource flag that is not literally [true] or [false]. *)
Definition flag_errors (tomlDoc : value) (name : string) : list string :=
  match get tomlDoc name with
  | Ok (VBoolean _) => []
  | _ => ["Field " +:+ Str.quote +:+ name +:+ Str.quote +:+ " is not a boolean"]
  end.

End Compatibility.

(** The field is missing or a string. *)
Definition string_or_missing (struct : value) (name : string) : Prop :=
  exists v, get struct name = Ok v /\ (v = VUndefined \/ exists s, v = VString s).

(** A release whose pattern-checked fields are strings where present. *)
Definition plain_release (release : value) : Prop :=
  string_or_missing release "title" /\ string_or_missing release "release_date".

(** A test case whose pattern-checked fields are strings where present. *)
Definition plain_testcase (testcase : value) : Prop :=
  string_or_missing testcase "date" /\ string_or_missing testcase "version".

(** A section is missing or a list of entries that satisfy [plain]. *)
Definition plain_section (plain : value -> Prop) (tomlDoc : value) (name : string)
    : Prop :=
  get tomlDoc name = Ok VUndefined \/
  exists items, get tomlDoc name = Ok (VArray items) /\ Forall plain items.

(** A document whose releases and test cases are such lists. *)
Definition plain_document (tomlDoc : value) : Prop :=
  plain_section plain_release tomlDoc "releases" /\
  plain_section plain_testcase tomlDoc "testcases".

(** A computation that returns normally from every state. *)
Definition returns {A : Type} (m : M A) : Prop :=
  forall st, exists a st', m st = (Ok a, st').

(** A computation only adds to the error list and to the console. *)
Definition append_only {A : Type} (m : M A) : Prop :=
  forall st,
    errors st `prefix_of` errors (snd (m st)) /\
    console st `prefix_of` console (snd (m st)).

(** The state after more console calls. *)
Definition print_all (calls : list console_call) (st : state) : state :=
  {| currentGame := currentGame st; errors := errors st;
     console := console st ++ calls |}.

(** The errors of the game [key], in the order recorded. *)
Definition filed (key : string) (errs : list error_record) : list error_record :=
  List.filter (fun r => String.eqb (Groups.group_key r) key) errs.

(** The report the specification describes: under each game of [order],
    its name, then its error messages in the order recorded. *)
Definition report_lines (order : list string) (errs : list error_record)
    : list console_call :=
  flat_map
    (fun key =>
       Info ("  " +:+ key +:+ ":") ::
       map (fun issue => Info ("   - " +:+ error issue)) (filed key errs))
    order.

(** The error is filed under a name that a fresh object does not
    inherit. *)
Definition plainly_named (r : error_record) : Prop :=
  Groups.inherited (Groups.group_key r) = false.

(** The error is filed under a member of [Object.prototype]. *)
Definition inherits_name (r : error_record) : Prop :=
  Groups.inherited (Groups.group_key r) = true.

(** The status the process ends with: the one given to [process.exit], or
    1 when an exception that nothing catches ends it. *)
Definition exit_status (r : outcome Z) : Z :=
  match r with Ok code => code | Throw _ => 1 end.

(** ** Notions used in the further properties *)

(** The folders the loop skips. *)
Definition reserved (game : string) : bool :=
  String.eqb game ".git" || String.eqb game "_validation".

Section Listing.
Context `{World}.

(** The entry [name] of the folder [dir] is a regular file. *)
Definition is_file_at (dir name : string) : bool :=
  match files !! (dir +:+ "/" +:+ name) with Some (File _) => true | _ => false end.

(** The entry [name] of the folder [dir] is a folder. *)
Definition is_directory_at (dir name : string) : bool :=
  match files !! (dir +:+ "/" +:+ name) with Some (Directory _) => true | _ => false end.

(** The entry [name] of the folder [dir] is a symbolic link or a special
    file. *)
Definition is_other_at (dir name : string) : bool :=
  match files !! (dir +:+ "/" +:+ name) with
  | Some (Link _ | Special _) => true
  | _ => false
  end.

End Listing.

(** The message of a format other than the required one. *)
Definition format_errors (actual : string) (config : image_config) : list string :=
  if String.eqb actual (type config) then []
  else ["Incorrect format of image (" +:+ actual +:+ " != " +:+ type config +:+ ")"].

(** The message of a size other than the required one. *)
Definition dimension_errors (path : string) (w h : Z) (config : image_config)
    : list string :=
  if (w =? width config) && (h =? height config) then []
  else ["Image " +:+ Str.quote +:+ path +:+ Str.quote +:+ "'s dimensions are " +:+
        pretty w +:+ " x " +:+ pretty h +:+ " instead of the required " +:+
        pretty (width config) +:+ " x " +:+ pretty (height config) +:+ "."].

(** The computation does nothing to the state but record errors, each
    under the game that is current when it starts: the current game and
    the console are left as they are. *)
Definition records_only {A : Type} (m : M A) : Prop :=
  forall st, exists errs, snd (m st) = record_all errs st.

(** [struct[name]] where reading cannot throw. *)
Definition read (struct : value) (name : string) : value :=
  match get struct name with Ok v => v | Throw _ => VUndefined end.

(** The message of a required field that is not there. *)
Definition missing_error (name : string) : string :=
  "Field " +:+ Str.quote +:+ name +:+ Str.quote +:+ " missing".

(** What a field that must be a non-empty string is reported for. *)
Definition not_empty_errors (name : string) (field : value) : list string :=
  match field with
  | VUndefined => [missing_error name]
  | VString s =>
      if String.eqb s "" then
        ["Field " +:+ Str.quote +:+ name +:+ Str.quote +:+ " is empty"]
      else []
  | _ => ["Field " +:+ Str.quote +:+ name +:+ Str.quote +:+ " is not a string"]
  end.

(** What a date field that is a string or missing is reported for. *)
Definition date_errors (name : string) (field : value) : list string :=
  match field with
  | VString s =>
      if Regex.test Regex.date_pattern s then []
      else [Str.quote +:+ name +:+ Str.quote +:+ " is not a valid date (" +:+
            Str.quote +:+ s +:+ Str.quote +:+ ")."]
  | _ => [missing_error name]
  end.

(** What an identifier that is a string or missing is reported for. *)
Definition title_id_errors (name prefix : string) (field : value) : list string :=
  match field with
  | VString s =>
      if negb (Str.length s =? 16) then
        [prefix +:+ ": Game title ID has an invalid length"]
      else if Regex.test Regex.title_id_pattern s then []
      else [prefix +:+ ": Game title ID is not a hexadecimal ID"]
  | _ => [missing_error name]
  end.

(** What the version of test case [i], a string or missing, is reported
    for. *)
Definition version_errors (i : nat) (field : value) : list string :=
  match field with
  | VString s =>
      if negb (Str.length s =? 12) then
        ["Testcase #" +:+ pretty (i + 1)%nat +:+ ": Version is of incorrect length"]
      else if Str.startsWith "HEAD-" s then []
      else ["Testcase #" +:+ pretty (i + 1)%nat +:+ ": Unknown version commit source"]
  | _ => [missing_error "version"]
  end.

Section RegionErrors.
Context `{World}.

(** What the region of release [i] is reported for. *)
Definition region_errors (i : nat) (field : value) : list string :=
  match field with
  | VUndefined => [missing_error "region"]
  | _ =>
      if existsb (fun region => is_string region field) (regions config) then []
      else ["Release #" +:+ pretty (i + 1)%nat +:+ ": Invalid region " +:+
            ToString field]
  end.

End RegionErrors.

(** What the optional [github_issues] is reported for. *)
Definition issues_errors (field : value) : list string :=
  match field with
  | VUndefined => []
  | VArray items =>
      replicate
        (List.length
           (List.filter (fun entry => negb (String.eqb (typeof entry) "number")) items))
        "Github issues entry is not a number!"
  | _ => ["Github issues field is not an array!"]
  end.

(** The errors of the entries of a section, the first of which has the
    index [i]. *)
Fixpoint section_errors (errs : nat -> value -> list string) (i : nat)
    (items : list value) : list string :=
  match items with
  | [] => []
  | item :: rest => errs i item ++ section_errors errs (S i) rest
  end.

Section DocumentErrors.
Context `{World}.

(** What release [i] is reported for: its title, its region, its date. *)
Definition release_errors (i : nat) (release : value) : list string :=
  title_id_errors "title" ("Release #" +:+ pretty (i + 1)%nat) (read release "title") ++
  region_errors i (read release "region") ++
  date_errors "release_date" (read release "release_date").

(** What test case [i] is reported for: its compatibility, its date, its
    version, its author. *)
Definition testcase_errors (i : nat) (testcase : value) : list string :=
  not_empty_errors "compatibility" (read testcase "compatibility") ++
  date_errors "date" (read testcase "date") ++
  version_errors i (read testcase "version") ++
  not_empty_errors "author" (read testcase "author").

(** What a document with lists of plain entries is reported for: the
    header, the releases, the test cases, the resource flags. *)
Definition document_errors (tomlDoc : value) : list string :=
  not_empty_errors "title" (read tomlDoc "title") ++
  not_empty_errors "description" (read tomlDoc "description") ++
  issues_errors (read tomlDoc "github_issues") ++
  (if is_undefined (read tomlDoc "releases") then ["No releases."]
   else section_errors release_errors 0 (entries (read tomlDoc "releases"))) ++
  (if is_undefined (read tomlDoc "testcases") then ["No testcases."]
   else section_errors testcase_errors 0 (entries (read tomlDoc "testcases"))) ++
  (if minimum 999 (parsed_compatibilities (entries (read tomlDoc "testcases"))) <? 5 then
     flag_errors tomlDoc "needs_system_files" ++ flag_errors tomlDoc "needs_shared_font"
   else []).

(** What the metadata of a save is reported for. *)
Definition save_errors (tomlDoc : value) : list string :=
  not_empty_errors "title" (read tomlDoc "title") ++
  not_empty_errors "description" (read tomlDoc "description") ++
  not_empty_errors "author" (read tomlDoc "author") ++
  title_id_errors "title_id" "Game save data" (read tomlDoc "title_id").

End DocumentErrors.

(** A string that is not empty. *)
Definition nonempty_string (v : value) : Prop := exists s, v = VString s /\ s <> "".

Section ValidDocuments.
Context `{World}.

(** A release that passes: a title of 16 letters and digits, one of the
    configured regions, a date. *)
Definition valid_release (release : value) : Prop :=
  (exists s, read release "title" = VString s /\
             String.length s = 16%nat /\ Spec.alphanumeric s) /\
  (exists region, read release "region" = VString region /\ region ∈ regions config) /\
  (exists s, read release "release_date" = VString s /\ Spec.contains_date s).

(** A test case that passes. *)
Definition valid_testcase (testcase : value) : Prop :=
  nonempty_string (read testcase "compatibility") /\
  (exists s, read testcase "date" = VString s /\ Spec.contains_date s) /\
  (exists rest, read testcase "version" = VString ("HEAD-" +:+ rest) /\
                String.length rest = 7%nat) /\
  nonempty_string (read testcase "author").

(** A document that passes: a title and a description, issue numbers if
    any, a list of releases and a list of test cases that pass, and both
    resource flags if some test case has a compatibility below 5. *)
Definition valid_document (tomlDoc : value) : Prop :=
  nonempty_string (read tomlDoc "title") /\
  nonempty_string (read tomlDoc "description") /\
  (read tomlDoc "github_issues" = VUndefined \/
   exists issues, read tomlDoc "github_issues" = VArray issues /\
                  Forall (fun entry => exists q, entry = VNumber q) issues) /\
  (exists releases, read tomlDoc "releases" = VArray releases /\
                    Forall valid_release releases) /\
  (exists testcases, read tomlDoc "testcases" = VArray testcases /\
     Forall valid_testcase testcases /\
     ((exists testcase compat, testcase ∈ testcases /\
         parsed_compatibility testcase = Some compat /\ compat < 5) ->
      (exists b, read tomlDoc "needs_system_files" = VBoolean b) /\
      (exists b, read tomlDoc "needs_shared_font" = VBoolean b))).

End ValidDocuments.

(** A file name with no extension to strip: it has no dot, or its only dot
    is its first character. *)
Definition extensionless (file : string) : Prop :=
  "."%char ∉ list_ascii_of_string file \/
  exists rest, file = String "." rest /\ "."%char ∉ list_ascii_of_string rest.

(** A section that is not a list and has no length: a number, a boolean,
    a date, or a single table, as [[releases]] written for [[[releases]]]
    gives. *)
Definition lengthless (section : value) : Prop :=
  match section with
  | VNumber _ | VBoolean _ | VDate _ => True
  | VTable fields => fields !! "length" = None
  | VUndefined | VString _ | VArray _ => False
  end.

(** * Properties *)

(** ** The model on concrete inputs *)

Example parseInt_examples :
  (ParseInt.parseInt "  -12px", ParseInt.parseInt "0x1f", ParseInt.parseInt "+7",
   ParseInt.parseInt "abc", ParseInt.parseInt "")
  = (Some (-12), Some 31, Some 7, None, None).
Proof. reflexivity. Qed.

Example date_pattern_examples :
  (Regex.test Regex.date_pattern "2011-12-04",
   Regex.test Regex.date_pattern "x2011-12-04y",
   Regex.test Regex.date_pattern "2011-13-04",
   Regex.test Regex.date_pattern "2011-12-00",
   Regex.test Regex.date_pattern "2011-02-31")
  = (true, true, false, false, true).
Proof. reflexivity. Qed.

Example save_groups_example :
  save_groups ["a.dat"; "a.zip"; "b.zip"; "README"; "c.tar.gz"; "b.dat"]
  = ["a"; "b"; ""; "c.tar"].
Proof. reflexivity. Qed.

Example keys_example :
  Groups.keys [("zelda", 1); ("10", 2); ("mario", 3); ("9", 4); ("007", 5)]
  = ["9"; "10"; "zelda"; "mario"; "007"].
Proof. by vm_compute. Qed.

(** Two empty game folders: three errors each, reported with the folder
    whose name is an array index first. *)
Example run_two_empty_games :
  @main (Sample.world
           (list_to_map [("..", Directory ["zelda"; "10"]);
                         ("../zelda", Directory []);
                         ("../10", Directory [])]) [])
        initial =
  (Ok 1,
   {| currentGame := Some "10";
      errors :=
        [{| game := Some "zelda";
            error := "Image " +:+ Str.quote +:+ "../zelda/boxart.png" +:+ Str.quote +:+
                     "' was not found at ../zelda/boxart.png." |};
         {| game := Some "zelda";
            error := "Image " +:+ Str.quote +:+ "../zelda/icon.png" +:+ Str.quote +:+
                     "' was not found at ../zelda/icon.png." |};
         {| game := Some "zelda";
            error := "TOML was not found at ../zelda/game.dat." |};
         {| game := Some "10";
            error := "Image " +:+ Str.quote +:+ "../10/boxart.png" +:+ Str.quote +:+
                     "' was not found at ../10/boxart.png." |};
         {| game := Some "10";
            error := "Image " +:+ Str.quote +:+ "../10/icon.png" +:+ Str.quote +:+
                     "' was not found at ../10/icon.png." |};
         {| game := Some "10";
            error := "TOML was not found at ../10/game.dat." |}];
      console :=
        [Warn "Validation completed with errors.";
         Info "  10:";
         Info ("   - Image " +:+ Str.quote +:+ "../10/boxart.png" +:+ Str.quote +:+
               "' was not found at ../10/boxart.png.");
         Info ("   - Image " +:+ Str.quote +:+ "../10/icon.png" +:+ Str.quote +:+
               "' was not found at ../10/icon.png.");
         Info "   - TOML was not found at ../10/game.dat.";
         Info "  zelda:";
         Info ("   - Image " +:+ Str.quote +:+ "../zelda/boxart.png" +:+ Str.quote +:+
               "' was not found at ../zelda/boxart.png.");
         Info ("   - Image " +:+ Str.quote +:+ "../zelda/icon.png" +:+ Str.quote +:+
               "' was not found at ../zelda/icon.png.");
         Info "   - TOML was not found at ../zelda/game.dat."] |}).
Proof. by vm_compute. Qed.

(** ** Strings and patterns *)

Module StrFacts.

Lemma app_cons (a : ascii) (s t : string) : String a s +:+ t = String a (s +:+ t).
Proof. reflexivity. Qed.

Lemma app_nil_l (s : string) : "" +:+ s = s.
Proof. reflexivity. Qed.

Lemma app_nil_r (s : string) : s +:+ "" = s.
Proof. induction s as [|a s IH]; [reflexivity | by rewrite app_cons, IH]. Qed.

Lemma app_assoc (s1 s2 s3 : string) : (s1 +:+ s2) +:+ s3 = s1 +:+ s2 +:+ s3.
Proof. induction s1 as [|a s1 IH]; [reflexivity | by rewrite !app_cons, IH]. Qed.

Lemma app_length (s1 s2 : string) :
  String.length (s1 +:+ s2) = (String.length s1 + String.length s2)%nat.
Proof. induction s1 as [|a s1 IH]; [reflexivity | rewrite app_cons; simpl; by rewrite IH]. Qed.

Lemma length_zero (s : string) : String.length s = 0%nat -> s = "".
Proof. by destruct s. Qed.

Lemma code_inj (a b : ascii) : Str.code a = Str.code b -> a = b.
Proof.
  unfold Str.code. intros E%(inj Z.of_N).
  rewrite <- (ascii_N_embedding a), <- (ascii_N_embedding b). by rewrite E.
Qed.

Lemma in_range_spec (lo hi c : ascii) :
  Str.in_range lo hi c = true <-> Str.code lo <= Str.code c <= Str.code hi.
Proof. unfold Str.in_range. rewrite andb_true_iff, !Z.leb_le. tauto. Qed.

Lemma suffixes_spec (s t : string) :
  t ∈ Str.suffixes s <-> exists pre, s = pre +:+ t.
Proof.
  induction s as [|a s IH]; simpl.
  - rewrite list_elem_of_singleton. split.
    + intros ->. by exists "".
    + intros [[|b pre] E]; [done | discriminate].
  - rewrite elem_of_cons, IH. split.
    + intros [-> | [pre ->]]; [by exists "" | by exists (String a pre)].
    + intros [[|b pre] E]; [by left |].
      rewrite app_cons in E. injection E as -> ->. right. by exists pre.
Qed.

End StrFacts.

Module RegexFacts.
Import Regex.

(** The matcher computes the language: [t] is left after a match of [r]
    at the start of [s] exactly when [s] is a word of [r] followed by
    [t]. *)
Lemma run_spec (r : regex) : forall s t : string,
  t ∈ run r s <-> exists w, lang r w /\ s = w +:+ t.
Proof.
  induction r as [c|ranges|r1 IH1 r2 IH2|r1 IH1 r2 IH2|n r IH]; intros s t.
  - destruct s as [|a s]; simpl.
    + split; [by intros ?%elem_of_nil | intros (w & Hw & E); inversion Hw; subst; done].
    + destruct (Ascii.eqb_spec a c) as [->|Hne].
      * rewrite list_elem_of_singleton. split.
        -- intros ->. eexists; split; [constructor | done].
        -- intros (w & Hw & E). inversion Hw; subst. by injection E.
      * split; [by intros ?%elem_of_nil |].
        intros (w & Hw & E). inversion Hw; subst. injection E as -> _. done.
  - destruct s as [|a s]; simpl.
    + split; [by intros ?%elem_of_nil | intros (w & Hw & E); inversion Hw; subst; done].
    + destruct (in_class ranges a) eqn:Hin.
      * rewrite list_elem_of_singleton. split.
        -- intros ->. eexists; split; [by constructor | done].
        -- intros (w & Hw & E). inversion Hw; subst. by injection E.
      * split; [by intros ?%elem_of_nil |].
        intros (w & Hw & E). inversion Hw; subst. injection E as -> _. congruence.
  - simpl. rewrite list_elem_of_bind. split.
    + intros (u & Hu2 & Hu1). apply IH2 in Hu2 as (w2 & Hw2 & ->).
      apply IH1 in Hu1 as (w1 & Hw1 & ->).
      exists (w1 +:+ w2). split; [by constructor | by rewrite StrFacts.app_assoc].
    + intros (w & Hw & ->). inversion Hw; subst.
      exists (w2 +:+ t). split; [apply IH2; eauto | apply IH1].
      eexists; split; [eassumption | by rewrite StrFacts.app_assoc].
  - simpl. rewrite elem_of_app, IH1, IH2. split.
    + intros [(w & Hw & ->) | (w & Hw & ->)]; exists w; split; auto using lang.
    + intros (w & Hw & ->). inversion Hw; subst; eauto.
  - revert t. induction n as [|n IHn]; intros t; simpl.
    + rewrite list_elem_of_singleton. split.
      * intros ->. exists "". split; [constructor | done].
      * intros (w & Hw & ->). by inversion Hw.
    + rewrite list_elem_of_bind. split.
      * intros (u & Hu2 & Hu1). apply IH in Hu2 as (w2 & Hw2 & ->).
        apply IHn in Hu1 as (w1 & Hw1 & ->).
        exists (w1 +:+ w2). split; [by constructor | by rewrite StrFacts.app_assoc].
      * intros (w & Hw & ->). inversion Hw; subst.
        exists (w2 +:+ t). split; [apply IH; eauto | apply IHn].
        eexists; split; [eassumption | by rewrite StrFacts.app_assoc].
Qed.

Lemma matches_at_spec (r : regex) (s : string) :
  matches_at r s = true <-> exists w post, s = w +:+ post /\ lang r w.
Proof.
  unfold matches_at. destruct (run r s) as [|t ts] eqn:E.
  - split; [done |]. intros (w & post & -> & Hw).
    assert (post ∈ run r (w +:+ post)) as Hin by (apply run_spec; eauto).
    rewrite E in Hin. by apply elem_of_nil in Hin.
  - split; [intros _ | done].
    assert (t ∈ run r s) as (w & Hw & ->)%run_spec by (rewrite E; left). eauto.
Qed.

(** An unanchored search succeeds exactly when some substring is a word
    of the pattern. *)
Lemma test_spec (r : regex) (s : string) :
  test r s = true <-> exists pre w post, s = pre +:+ w +:+ post /\ lang r w.
Proof.
  unfold test. rewrite existsb_exists. split.
  - intros (t & Ht%list_elem_of_In%StrFacts.suffixes_spec & Hm%matches_at_spec).
    destruct Ht as [pre ->]. destruct Hm as (w & post & -> & Hw). eauto.
  - intros (pre & w & post & -> & Hw). exists (w +:+ post). split.
    + apply list_elem_of_In, StrFacts.suffixes_spec. eauto.
    + apply matches_at_spec. eauto.
Qed.

End RegexFacts.

Module DateFacts.
Import Regex Spec.

Lemma lang_chr_inv c w : lang (Chr c) w <-> w = String c "".
Proof. split; [by inversion 1 | intros ->; constructor]. Qed.

Lemma lang_cls_inv ranges w :
  lang (Cls ranges) w <-> exists c, w = String c "" /\ in_class ranges c = true.
Proof.
  split; [inversion 1; eauto | intros (c & -> & Hc); by constructor].
Qed.

Lemma lang_seq_inv r1 r2 w :
  lang (Seq r1 r2) w <-> exists w1 w2, w = w1 +:+ w2 /\ lang r1 w1 /\ lang r2 w2.
Proof.
  split; [inversion 1; eauto | intros (w1 & w2 & -> & H1 & H2); by constructor].
Qed.

Lemma lang_alt_inv r1 r2 w : lang (Alt r1 r2) w <-> lang r1 w \/ lang r2 w.
Proof.
  split; [inversion 1; auto | intros [H1 | H2]; auto using lang].
Qed.

Lemma lang_rep_S_inv n r w :
  lang (Rep (S n) r) w <-> exists w1 w2, w = w1 +:+ w2 /\ lang (Rep n r) w1 /\ lang r w2.
Proof.
  split; [inversion 1; eauto | intros (w1 & w2 & -> & H1 & H2); by constructor].
Qed.

Lemma lang_rep_0_inv r w : lang (Rep 0 r) w <-> w = "".
Proof. split; [by inversion 1 | intros ->; constructor]. Qed.

(** A class of one range, by the codes of its bounds. *)
Lemma in_class_range lo hi c :
  in_class [(lo, hi)] c = true <-> Str.code lo <= Str.code c <= Str.code hi.
Proof.
  unfold in_class. simpl. rewrite orb_false_r. apply StrFacts.in_range_spec.
Qed.

(** Two characters, the first a given one and the second in a range. *)
Lemma lang_chr_cls a lo hi w :
  lang (Seq (Chr a) (Cls [(lo, hi)])) w <->
  exists b, w = String a (String b "") /\ Str.code lo <= Str.code b <= Str.code hi.
Proof.
  rewrite lang_seq_inv. split.
  - intros (w1 & w2 & -> & ->%lang_chr_inv & (b & -> & Hb%in_class_range)%lang_cls_inv).
    eauto.
  - intros (b & -> & Hb). exists (String a ""), (String b "").
    split; [done|]. split; [constructor | constructor; by apply in_class_range].
Qed.

(** Two characters, each in a range. *)
Lemma lang_cls_cls lo1 hi1 lo2 hi2 w :
  lang (Seq (Cls [(lo1, hi1)]) (Cls [(lo2, hi2)])) w <->
  exists a b, w = String a (String b "") /\
    Str.code lo1 <= Str.code a <= Str.code hi1 /\
    Str.code lo2 <= Str.code b <= Str.code hi2.
Proof.
  rewrite lang_seq_inv. split.
  - intros (w1 & w2 & -> & (a & -> & Ha%in_class_range)%lang_cls_inv
                         & (b & -> & Hb%in_class_range)%lang_cls_inv).
    eauto.
  - intros (a & b & -> & Ha & Hb). exists (String a ""), (String b "").
    split; [done|]. split; constructor; by apply in_class_range.
Qed.

(** The year: four digits. *)
Lemma lang_year w :
  lang (Rep 4 digit) w <->
  exists y1 y2 y3 y4, w = String y1 (String y2 (String y3 (String y4 ""))) /\
    Forall is_digit [y1; y2; y3; y4].
Proof.
  unfold digit. split.
  - intros (w3 & v4 & -> & (w2 & v3 & -> & (w1 & v2 & -> & (w0 & v1 & -> &
      ->%lang_rep_0_inv & H1)%lang_rep_S_inv & H2)%lang_rep_S_inv
      & H3)%lang_rep_S_inv & H4)%lang_rep_S_inv.
    apply lang_cls_inv in H1 as (y1 & -> & H1%in_class_range).
    apply lang_cls_inv in H2 as (y2 & -> & H2%in_class_range).
    apply lang_cls_inv in H3 as (y3 & -> & H3%in_class_range).
    apply lang_cls_inv in H4 as (y4 & -> & H4%in_class_range).
    exists y1, y2, y3, y4. split; [done|].
    repeat (apply Forall_cons_2; [assumption|]). apply Forall_nil_2.
  - intros (y1 & y2 & y3 & y4 & -> & Hd).
    repeat match goal with H : Forall _ (_ :: _) |- _ => inversion H; clear H; subst end.
    change (String y1 (String y2 (String y3 (String y4 ""))))
      with (((("" +:+ String y1 "") +:+ String y2 "") +:+ String y3 "") +:+ String y4 "").
    repeat (constructor; [| constructor; by apply in_class_range]). constructor.
Qed.

(** The month: 01-09 or 10-12. *)
Lemma lang_month w :
  lang (Alt (Seq (Chr "0") (Cls [("1", "9")]%char))
            (Seq (Chr "1") (Cls [("0", "2")]%char))) w <->
  exists m1 m2, w = String m1 (String m2 "") /\
    is_digit m1 /\ is_digit m2 /\ 1 <= two_digits m1 m2 <= 12.
Proof.
  rewrite lang_alt_inv, !lang_chr_cls. unfold is_digit, two_digits.
  change (Str.code "0") with 48. change (Str.code "1") with 49.
  change (Str.code "2") with 50. change (Str.code "9") with 57. split.
  - intros [(b & -> & Hb) | (b & -> & Hb)].
    + exists "0"%char, b. change (Str.code "0") with 48. split; [done | lia].
    + exists "1"%char, b. change (Str.code "1") with 49. split; [done | lia].
  - intros (m1 & m2 & -> & H1 & H2 & Hm).
    assert (Str.code m1 = 48 \/ Str.code m1 = 49) as [E | E] by lia.
    + left. exists m2. rewrite (StrFacts.code_inj m1 "0" E). split; [done | lia].
    + right. exists m2. rewrite (StrFacts.code_inj m1 "1" E). split; [done | lia].
Qed.

(** The day: 01-09, 10-29 or 30-31. *)
Lemma lang_day w :
  lang (Alt (Seq (Chr "0") (Cls [("1", "9")]%char))
       (Alt (Seq (Cls [("1", "2")]%char) (Cls [("0", "9")]%char))
            (Seq (Chr "3") (Cls [("0", "1")]%char)))) w <->
  exists d1 d2, w = String d1 (String d2 "") /\
    is_digit d1 /\ is_digit d2 /\ 1 <= two_digits d1 d2 <= 31.
Proof.
  rewrite !lang_alt_inv, !lang_chr_cls, lang_cls_cls. unfold is_digit, two_digits.
  change (Str.code "0") with 48. change (Str.code "1") with 49.
  change (Str.code "2") with 50. change (Str.code "3") with 51.
  change (Str.code "9") with 57. split.
  - intros [(b & -> & Hb) | [(a & b & -> & Ha & Hb) | (b & -> & Hb)]].
    + exists "0"%char, b. change (Str.code "0") with 48. split; [done | lia].
    + exists a, b. split; [done | lia].
    + exists "3"%char, b. change (Str.code "3") with 51. split; [done | lia].
  - intros (d1 & d2 & -> & H1 & H2 & Hd).
    assert (Str.code d1 = 48 \/ 49 <= Str.code d1 <= 50 \/ Str.code d1 = 51)
      as [E | [E | E]] by lia.
    + left. exists d2. rewrite (StrFacts.code_inj d1 "0" E). split; [done | lia].
    + right; left. exists d1, d2. split; [done | lia].
    + right; right. exists d2. rewrite (StrFacts.code_inj d1 "3" E). split; [done | lia].
Qed.

(** The words of the date pattern are the dates of the specification. *)
Lemma lang_date_pattern w : lang date_pattern w <-> ymd w.
Proof.
  unfold date_pattern, ymd. rewrite lang_seq_inv. split.
  - intros (wy & w1 & -> & (y1 & y2 & y3 & y4 & -> & Hy)%lang_year
        & (wd1 & w2 & -> & ->%lang_chr_inv
        & (wm & w3 & -> & (m1 & m2 & -> & Hm1 & Hm2 & Hm)%lang_month
        & (wd2 & wd & -> & ->%lang_chr_inv
        & (d1 & d2 & -> & Hd1 & Hd2 & Hd)%lang_day)%lang_seq_inv)%lang_seq_inv)%lang_seq_inv).
    exists y1, y2, y3, y4, m1, m2, d1, d2. split; [done|].
    split; [| done].
    repeat match goal with H : Forall _ (_ :: _) |- _ => inversion H; clear H; subst end.
    repeat (apply Forall_cons_2; [assumption|]). apply Forall_nil_2.
  - intros (y1 & y2 & y3 & y4 & m1 & m2 & d1 & d2 & -> & Hdig & Hm & Hd).
    repeat match goal with H : Forall _ (_ :: _) |- _ => inversion H; clear H; subst end.
    exists (String y1 (String y2 (String y3 (String y4 "")))),
      (String "-" (String m1 (String m2 (String "-" (String d1 (String d2 "")))))).
    split; [done|]. split.
    { apply lang_year. exists y1, y2, y3, y4. split; [done|].
      repeat (apply Forall_cons_2; [assumption|]). apply Forall_nil_2. }
    apply lang_seq_inv. exists (String "-" ""), (String m1 (String m2 (String "-" (String d1 (String d2 ""))))).
    split; [done|]. split; [constructor|].
    apply lang_seq_inv. exists (String m1 (String m2 "")), (String "-" (String d1 (String d2 ""))).
    split; [done|]. split; [apply lang_month; eauto 10|].
    apply lang_seq_inv. exists (String "-" ""), (String d1 (String d2 "")).
    split; [done|]. split; [constructor | apply lang_day; eauto 10].
Qed.

(** The date check of the code succeeds exactly on the fields that contain
    a date. *)
Lemma test_date_pattern (field : string) :
  test date_pattern field = true <-> contains_date field.
Proof.
  rewrite RegexFacts.test_spec. unfold contains_date.
  split; intros (pre & w & post & E & Hw); exists pre, w, post;
    (split; [done | by apply lang_date_pattern]).
Qed.

End DateFacts.

(** ** Running computations *)

Lemma bind_run {A B} (m : M A) (f : A -> M B) st :
  (m ≫= f) st =
  match m st with
  | (Ok a, st') => f a st'
  | (Throw e, st') => (Throw e, st')
  end.
Proof. reflexivity. Qed.

Lemma bind_ok {A B} (m : M A) (f : A -> M B) st a st' :
  m st = (Ok a, st') -> (m ≫= f) st = f a st'.
Proof. intros E. by rewrite bind_run, E. Qed.

Lemma lift_run {A} (r : outcome A) st : lift r st = (r, st).
Proof. reflexivity. Qed.

Section FieldFacts.
Context `{World}.

Lemma validateExists_present struct name field st :
  get struct name = Ok field -> is_undefined field = false ->
  validateExists struct name st = (Ok true, st).
Proof. intros E U. unfold validateExists. rewrite bind_run, E. simpl. by rewrite U. Qed.

Lemma validateExists_missing struct name st :
  get struct name = Ok VUndefined ->
  validateExists struct name st =
  (Ok false, record ("Field " +:+ Str.quote +:+ name +:+ Str.quote +:+ " missing") st).
Proof. intros E. unfold validateExists. by rewrite bind_run, E. Qed.

(** A field that exists is handed to the test; nothing is recorded by
    [validateContents] itself. *)
Lemma validateContents_present struct name field test st :
  get struct name = Ok field -> is_undefined field = false ->
  validateContents struct name test st = test field st.
Proof.
  intros E U. unfold validateContents.
  rewrite (bind_ok _ _ _ _ _ (validateExists_present _ _ _ _ E U)).
  by rewrite bind_run, E.
Qed.

(** A missing field is one error, and the test does not run. *)
Lemma validateContents_missing struct name test st :
  get struct name = Ok VUndefined ->
  validateContents struct name test st =
  (Ok tt, record ("Field " +:+ Str.quote +:+ name +:+ Str.quote +:+ " missing") st).
Proof.
  intros E. unfold validateContents.
  by rewrite (bind_ok _ _ _ _ _ (validateExists_missing _ _ _ E)).
Qed.

End FieldFacts.

(** ** The date check (C9) *)

Section DateCheck.
Context `{World}.

(** C9. For a string field, the date check records nothing as soon as the
    field contains a date YYYY-MM-DD (month 01-12, day 01-31) anywhere,
    whatever precedes or follows it, and records its one error exactly when
    the field contains no such date: the match is not anchored. *)
Theorem validateIsDate_not_anchored struct name field st :
  get struct name = Ok (VString field) ->
  (Spec.contains_date field -> validateIsDate struct name st = (Ok tt, st)) /\
  (~ Spec.contains_date field ->
   validateIsDate struct name st =
   (Ok tt, record (Str.quote +:+ name +:+ Str.quote +:+ " is not a valid date (" +:+
                   Str.quote +:+ field +:+ Str.quote +:+ ").") st)).
Proof.
  intros E. unfold validateIsDate.
  rewrite (validateContents_present _ _ _ _ _ E eq_refl).
  rewrite bind_run. simpl.
  destruct (Regex.test Regex.date_pattern field) eqn:T.
  - split; [done |]. intros N. destruct N. by apply DateFacts.test_date_pattern.
  - split; [| done]. intros C%DateFacts.test_date_pattern. congruence.
Qed.

End DateCheck.

(** A release date with text around it passes. *)
Lemma validateIsDate_not_anchored_witness :
  @validateIsDate Sample.good_world
    (Sample.table [("release_date", VString "about 2011-12-04 (USA)")])
    "release_date" initial = (Ok tt, initial).
Proof.
  refine (proj1 (@validateIsDate_not_anchored Sample.good_world
                   (Sample.table [("release_date", VString "about 2011-12-04 (USA)")])
                   "release_date" "about 2011-12-04 (USA)" initial _) _);
    [by vm_compute |].
  exists "about ", "2011-12-04", " (USA)". split; [reflexivity |].
  exists "2"%char, "0"%char, "1"%char, "1"%char, "1"%char, "2"%char, "0"%char, "4"%char.
  split; [reflexivity |].
  split; [| by vm_compute].
  repeat (apply Forall_cons_2; [by vm_compute |]). apply Forall_nil_2.
Defined.

(** ** The identifier check (C2) *)

Module TitleIdFacts.
Import Regex Spec.

Lemma chars_app (s1 s2 : string) :
  list_ascii_of_string (s1 +:+ s2) = list_ascii_of_string s1 ++ list_ascii_of_string s2.
Proof.
  induction s1 as [|a s1 IH]; [reflexivity |].
  rewrite StrFacts.app_cons. simpl. by rewrite IH.
Qed.

(** A non-empty string ends in a character. *)
Lemma string_snoc (w : string) (n : nat) :
  String.length w = S n ->
  exists w1 c, w = w1 +:+ String c "" /\ String.length w1 = n.
Proof.
  revert n. induction w as [|a w IH]; intros n L; [discriminate |].
  simpl in L. injection L as L. destruct n as [|n].
  - apply StrFacts.length_zero in L as ->. by exists "", a.
  - destruct (IH n L) as (w1 & c & -> & L1).
    exists (String a w1), c. split; [done | simpl; by rewrite L1].
Qed.

(** The words of a repeated class: [n] characters of the class. *)
Lemma lang_rep_cls n ranges w :
  lang (Rep n (Cls ranges)) w <->
  String.length w = n /\
  Forall (fun c => in_class ranges c = true) (list_ascii_of_string w).
Proof.
  revert w. induction n as [|n IH]; intros w.
  - rewrite DateFacts.lang_rep_0_inv. split.
    + intros ->. split; [done | constructor].
    + intros [L _]. by apply StrFacts.length_zero.
  - rewrite DateFacts.lang_rep_S_inv. split.
    + intros (w1 & w2 & -> & [L1 F1]%IH & (c & -> & Hc)%DateFacts.lang_cls_inv).
      rewrite StrFacts.app_length, chars_app, Forall_app. simpl.
      split; [lia |]. split; [done |]. by repeat constructor.
    + intros [L F]. destruct (string_snoc w n L) as (w1 & c & -> & L1).
      rewrite chars_app, Forall_app in F. destruct F as [F1 Fc].
      exists w1, (String c ""). split; [done |]. split; [by apply IH |].
      constructor. simpl in Fc. by apply Forall_cons in Fc as [Hc _].
Qed.

Lemma in_class_alphanumeric c :
  in_class [("a", "z"); ("A", "Z"); ("0", "9")]%char c = true <-> is_alphanumeric c.
Proof.
  unfold in_class, is_alphanumeric. simpl.
  rewrite !orb_true_iff, !StrFacts.in_range_spec.
  change (Str.code "a") with 97. change (Str.code "z") with 122.
  change (Str.code "A") with 65. change (Str.code "Z") with 90.
  change (Str.code "0") with 48. change (Str.code "9") with 57.
  intuition lia.
Qed.

(** On a string of 16 characters the pattern check succeeds exactly when
    every character is a letter or a digit. *)
Lemma test_title_id_pattern (s : string) :
  String.length s = 16%nat ->
  test title_id_pattern s = true <-> alphanumeric s.
Proof.
  intros L. rewrite RegexFacts.test_spec. unfold title_id_pattern, alphanumeric. split.
  - intros (pre & w & post & -> & [Lw Fw]%lang_rep_cls).
    rewrite !StrFacts.app_length, Lw in L.
    assert (String.length pre = 0%nat) as ->%StrFacts.length_zero by lia.
    assert (String.length post = 0%nat) as ->%StrFacts.length_zero by lia.
    rewrite StrFacts.app_nil_l, StrFacts.app_nil_r.
    eapply Forall_impl; [exact Fw |]. intros c. apply in_class_alphanumeric.
  - intros F. exists "", s, "". rewrite StrFacts.app_nil_l, StrFacts.app_nil_r.
    split; [done |]. apply lang_rep_cls. split; [done |].
    eapply Forall_impl; [exact F |]. intros c. apply in_class_alphanumeric.
Qed.

End TitleIdFacts.

Section TitleId.

Lemma Qeq_bool_inject (n m : Z) : Qeq_bool (inject_Z n) (inject_Z m) = (n =? m).
Proof. unfold Qeq_bool. simpl. by rewrite !Z.mul_1_r. Qed.

(** The identifier check on a string: the length first, the pattern only at
    length 16. *)
Lemma check_title_id_string prefix s st :
  check_title_id prefix (VString s) st =
  (Ok tt,
   if negb (Str.length s =? 16) then
     record (prefix +:+ ": Game title ID has an invalid length") st
   else if Regex.test Regex.title_id_pattern s then st
   else record (prefix +:+ ": Game title ID is not a hexadecimal ID") st).
Proof.
  unfold check_title_id. rewrite bind_run. simpl.
  rewrite Qeq_bool_inject. destruct (Str.length s =? 16); simpl; [| done].
  rewrite bind_run. simpl. by destruct (Regex.test _ s).
Qed.

(** Whatever the value, the identifier check records at most one error. *)
Lemma check_title_id_at_most_one prefix field st :
  exists errs,
    errors (snd (check_title_id prefix field st)) = errors st ++ errs /\
    (List.length errs <= 1)%nat.
Proof.
  unfold check_title_id. rewrite bind_run.
  destruct (get field "length") as [len|e]; simpl;
    [| exists []; by rewrite app_nil_r; auto].
  destruct (is_number 16 len); simpl; [| by eexists [_]; auto].
  rewrite bind_run.
  destruct (str_match field Regex.title_id_pattern) as [[|]|e]; simpl.
  - exists []. rewrite app_nil_r. auto.
  - eexists [_]. auto.
  - exists []. rewrite app_nil_r. auto.
Qed.

(** C2 (as amended). For every release entry whose title exists, the length
    check is performed, and the pattern check only when the length is 16:
    a title that is not 16 characters long records the length error alone,
    a title of 16 characters records the pattern error exactly when some
    character is not a letter or a digit, and no title records both. *)
Theorem release_title_checks (i : nat) (release title : value) (st : state) :
  get release "title" = Ok title -> is_undefined title = false ->
  let label := "Release #" +:+ pretty (i + 1)%nat in
  let after := validateContents release "title" (check_title_id label) st in
  (exists errs, errors (snd after) = errors st ++ errs /\ (List.length errs <= 1)%nat) /\
  (forall s, title = VString s ->
     (String.length s <> 16%nat ->
      after = (Ok tt, record (label +:+ ": Game title ID has an invalid length") st)) /\
     (String.length s = 16%nat -> Spec.alphanumeric s -> after = (Ok tt, st)) /\
     (String.length s = 16%nat -> ~ Spec.alphanumeric s ->
      after = (Ok tt, record (label +:+ ": Game title ID is not a hexadecimal ID") st))).
Proof.
  intros E U label after. subst after.
  rewrite (validateContents_present _ _ _ _ _ E U). split.
  - apply check_title_id_at_most_one.
  - intros s ->. rewrite check_title_id_string. unfold Str.length.
    split; [| split].
    + intros L. destruct (Z.eqb_spec (Z.of_nat (String.length s)) 16); [lia | done].
    + intros L A. rewrite L. simpl.
      by apply (TitleIdFacts.test_title_id_pattern s L) in A as ->.
    + intros L A. rewrite L. simpl.
      destruct (Regex.test _ s) eqn:T; [| done].
      by apply (TitleIdFacts.test_title_id_pattern s L) in T.
Qed.

End TitleId.

(** A title of five characters. *)
Lemma release_title_checks_witness :
  validateContents (Sample.table [("title", VString "short")]) "title"
    (check_title_id ("Release #" +:+ pretty 1%nat)) initial =
  (Ok tt, record ("Release #" +:+ pretty 1%nat +:+ ": Game title ID has an invalid length")
            initial).
Proof.
  refine (proj1 (proj2 (release_title_checks 0
            (Sample.table [("title", VString "short")]) (VString "short") initial _ _)
            "short" eq_refl) _); by vm_compute.
Defined.

(** C2, as stated, fails: the title ["short!"] is neither 16 characters long
    nor alphanumeric, and only the length error is recorded; the pattern
    check is not performed on it. *)
Lemma release_title_both_checks_counterexample :
  Str.length "short!" <> 16 /\
  Regex.test Regex.title_id_pattern "short!" = false /\
  validateContents (Sample.table [("title", VString "short!")]) "title"
    (check_title_id "Release #1") initial =
  (Ok tt, record "Release #1: Game title ID has an invalid length" initial).
Proof. by vm_compute. Qed.

(** ** The issue list (C6) *)

(** A loop that records [msg] for the items that fail [ok]. *)
Lemma for_each_when {A} (bad : A -> bool) (msg : string) (items : list A) st :
  for_each items (fun x => when (bad x) (validationError msg)) st =
  (Ok tt, record_all (replicate (List.length (List.filter bad items)) msg) st).
Proof.
  revert st. induction items as [|x items IH]; intros st; [done |].
  simpl. rewrite bind_run. destruct (bad x); simpl.
  - by rewrite IH.
  - by rewrite IH.
Qed.

Section GithubIssues.

(** C6 (as amended). When [github_issues] is present, one error is recorded
    if it is not a list; if it is a list, every element whose type is not
    Number (whether or not the number is an integer) records its own error,
    without stopping at the first, and a list of numbers records none. *)
Theorem github_issues_checks (tomlDoc issues : value) (st : state) :
  get tomlDoc "github_issues" = Ok issues -> is_undefined issues = false ->
  (isArray issues = false ->
   validate_github_issues tomlDoc st =
   (Ok tt, record "Github issues field is not an array!" st)) /\
  (forall items, issues = VArray items ->
   let bad := List.filter (fun x => negb (String.eqb (typeof x) "number")) items in
   validate_github_issues tomlDoc st =
   (Ok tt, record_all (replicate (List.length bad) "Github issues entry is not a number!") st)
   /\ (Forall (fun x => typeof x = "number") items ->
       validate_github_issues tomlDoc st = (Ok tt, st))).
Proof.
  intros E U.
  assert (validate_github_issues tomlDoc st = check_github_issues issues st) as ->.
  { unfold validate_github_issues. rewrite bind_run, E. simpl. rewrite U. simpl.
    apply (validateContents_present _ _ _ _ _ E U). }
  unfold check_github_issues. split.
  - by intros ->.
  - intros items ->. simpl. rewrite for_each_when. split; [done |].
    intros F.
    assert (List.filter (fun x => negb (String.eqb (typeof x) "number")) items = [])
      as ->; [| done].
    clear -F. induction F as [|x items Hx F IH]; [done |].
    simpl. rewrite Hx. exact IH.
Qed.

End GithubIssues.

(** Two of three entries are not numbers: two errors. *)
Lemma github_issues_checks_witness :
  validate_github_issues
    (Sample.table [("github_issues",
                    VArray [VString "12"; VNumber (inject_Z 7); VBoolean true])])
    initial =
  (Ok tt, record_all ["Github issues entry is not a number!";
                      "Github issues entry is not a number!"] initial).
Proof.
  refine (proj1 (proj2 (github_issues_checks
            (Sample.table [("github_issues",
                            VArray [VString "12"; VNumber (inject_Z 7); VBoolean true])])
            (VArray [VString "12"; VNumber (inject_Z 7); VBoolean true]) initial _ _)
            _ eq_refl)); by vm_compute.
Defined.

(** C6, as stated, fails: [1.5] is not an integer, and a list holding it
    records no error. *)
Lemma github_issues_integer_counterexample :
  Spec.is_integer (VNumber (3 # 2)) = false /\
  validate_github_issues
    (Sample.table [("github_issues", VArray [VNumber (3 # 2)])]) initial =
  (Ok tt, initial).
Proof. by vm_compute. Qed.

(** ** A document that does not parse (C4) *)

Section ParseFailure.
Context `{World}.

(** C4. When the text of a metadata document fails to parse, exactly one
    error is recorded, holding the line and the message the parser reports;
    no check of a field runs, and the validation goes on normally after
    the document: whatever follows runs from the state with that one
    error added. *)
Theorem validateTOML_parse_failure (path : string) (rawContents : list byte)
    (e : parse_error) (st : state) :
  files !! path = Some (File rawContents) ->
  toml_parse rawContents = inl e ->
  let st' := record ("TOML parse error (" +:+ pretty (line e) +:+ "): " +:+ message e) st in
  validateTOML path st = (Ok tt, st') /\
  (forall (A : Type) (rest : M A), (validateTOML path;; rest) st = rest st').
Proof.
  intros F P st'.
  assert (validateTOML path st = (Ok tt, st')) as E.
  { unfold validateTOML, existsSync, stat. rewrite F. simpl.
    rewrite bind_run. unfold readFileSync, stat. rewrite F. simpl. by rewrite P. }
  split; [done |]. intros A rest. by rewrite bind_run, E.
Qed.

End ParseFailure.

(** The metadata of the sample game, unknown to the sample parser. *)
Lemma validateTOML_parse_failure_witness :
  @validateTOML (Sample.world Sample.good_fs []) "../g/game.dat" initial =
  (Ok tt, record "TOML parse error (1): Expected a key but end of input found." initial).
Proof.
  refine (proj1 (@validateTOML_parse_failure (Sample.world Sample.good_fs [])
            "../g/game.dat" [x01]
            {| line := 1; message := "Expected a key but end of input found." |}
            initial _ _)); by vm_compute.
Defined.

(** ** An image of no known format (C3) *)

Section UnknownImage.
Context `{World}.

(** C3 (the code at the failing input). On an existing file whose leading
    bytes [imageType] does not recognise, [validateImage] throws: it records
    no error and does not reach the check of the dimensions. *)
Theorem validateImage_unclassified (path : string) (config : image_config)
    (content : list byte) (st : state) :
  files !! path = Some (File content) ->
  imageType (take 12 content) = None ->
  validateImage path config st =
  (Throw (TypeError "cannot read property mime of null"), st).
Proof.
  intros F T. unfold validateImage, existsSync, stat. rewrite F. simpl.
  rewrite bind_run. unfold readChunk, readFileSync, stat. rewrite F. simpl.
  rewrite bind_run. by rewrite T.
Qed.

End UnknownImage.

(** A file of two zero bytes in the place of the icon. *)
Lemma validateImage_unclassified_witness :
  @validateImage (Sample.world (<["../g/icon.png" := File [x00; x00]]> Sample.good_fs) [])
    "../g/icon.png" (icon Sample.sample_config) initial =
  (Throw (TypeError "cannot read property mime of null"), initial).
Proof.
  refine (@validateImage_unclassified
            (Sample.world (<["../g/icon.png" := File [x00; x00]]> Sample.good_fs) [])
            "../g/icon.png" (icon Sample.sample_config) [x00; x00] initial _ _);
    by vm_compute.
Defined.

(** ** The minimum compatibility and the resource flags (C1, C10) *)

Lemma bind_ok_inv {A B} (m : M A) (f : A -> M B) st b st' :
  (m ≫= f) st = (Ok b, st') ->
  exists a st1, m st = (Ok a, st1) /\ f a st1 = (Ok b, st').
Proof.
  rewrite bind_run. destruct (m st) as [[a|e] st1]; [eauto | discriminate].
Qed.

Lemma minimum_min (c start : Z) (values : list Z) :
  minimum (Z.min c start) values = Z.min c (minimum start values).
Proof.
  unfold minimum. induction values as [|v values IH]; simpl; [done |].
  rewrite IH. lia.
Qed.

Lemma minimum_permutation (start : Z) (values values' : list Z) :
  Permutation values values' -> minimum start values = minimum start values'.
Proof.
  unfold minimum. induction 1 as [|v l l' P IH|v w l|l1 l2 l3 P1 IH1 P2 IH2]; simpl.
  - done.
  - by rewrite IH.
  - lia.
  - by rewrite IH1.
Qed.

(** The minimum is below 5 exactly when some value is. *)
Lemma minimum_below (start bound : Z) (values : list Z) :
  minimum start values < bound <-> start < bound \/ exists v, v ∈ values /\ v < bound.
Proof.
  unfold minimum. induction values as [|v values IH]; simpl.
  - split; [auto | intros [? | (v & Hv%elem_of_nil & _)]; done].
  - rewrite Z.min_lt_iff, IH. split.
    + intros [Hv | [Hs | (w & Hw & Hlt)]]; [right; exists v | auto | right; exists w];
        (split; [| done]); [left | by right].
    + intros [Hs | (w & [-> | Hw]%elem_of_cons & Hlt)]; eauto.
Qed.

Section MinimumCompatibility.
Context `{World}.

(** What one test case does to [maxCompatibility]. *)
Lemma check_testcase_result i testcase maxCompatibility st m st' :
  check_testcase i testcase maxCompatibility st = (Ok m, st') ->
  m = match parsed_compatibility testcase with
      | Some compat => Z.min compat maxCompatibility
      | None => maxCompatibility
      end.
Proof.
  unfold check_testcase, parsed_compatibility.
  intros (_ & st1 & _ & R)%bind_ok_inv.
  apply bind_ok_inv in R as (compatibility & st2 & G & R). unfold lift in G.
  injection G as G <-. rewrite G.
  apply bind_ok_inv in R as (_ & st3 & _ & R). apply bind_ok_inv in R as (_ & st4 & _ & R).
  apply bind_ok_inv in R as (_ & st5 & _ & R). injection R as <- <-.
  destruct (is_undefined compatibility); simpl; [done |].
  unfold fold_compatibility. destruct (parseInt compatibility) as [compat|]; [| done].
  destruct (Z.ltb_spec compat maxCompatibility); lia.
Qed.

(** The running minimum of the loop over the test cases. *)
Lemma testcases_loop_result testcases : forall i maxCompatibility st m st',
  for_entries i testcases check_testcase maxCompatibility st = (Ok m, st') ->
  m = minimum maxCompatibility (parsed_compatibilities testcases).
Proof.
  induction testcases as [|testcase rest IH]; intros i maxCompatibility st m st' R.
  - by injection R as <- <-.
  - simpl in R. apply bind_ok_inv in R as (m1 & st1 & R1 & R).
    apply check_testcase_result in R1. apply IH in R. subst m m1.
    unfold parsed_compatibilities. simpl.
    destruct (parsed_compatibility testcase) as [compat|]; simpl; [| done].
    apply minimum_min.
Qed.

Lemma validateIsBoolean_run tomlDoc name field st :
  get tomlDoc name = Ok field ->
  validateIsBoolean tomlDoc name st = (Ok tt, record_all (flag_errors tomlDoc name) st).
Proof.
  intros E. unfold validateIsBoolean, flag_errors. rewrite bind_run, E. simpl.
  by destruct field as [| | |[|]| | |].
Qed.

(** A document that has a field can be read at any name. *)
Lemma get_total tomlDoc name field other :
  get tomlDoc name = Ok field -> exists v, get tomlDoc other = Ok v.
Proof. destruct tomlDoc; simpl; intros E; try discriminate; eauto. Qed.

Lemma check_resources_run tomlDoc field maxCompatibility st :
  get tomlDoc "testcases" = Ok field ->
  check_resources tomlDoc maxCompatibility st =
  (Ok tt,
   if maxCompatibility <? 5 then
     record_all (flag_errors tomlDoc "needs_system_files" ++
                 flag_errors tomlDoc "needs_shared_font") st
   else st).
Proof.
  intros E. unfold check_resources. destruct (maxCompatibility <? 5); simpl; [| done].
  destruct (get_total _ _ _ "needs_system_files" E) as [v1 E1].
  destruct (get_total _ _ _ "needs_shared_font" E) as [v2 E2].
  rewrite bind_run, (validateIsBoolean_run _ _ _ _ E1), (validateIsBoolean_run _ _ _ _ E2).
  unfold record_all. by rewrite fold_left_app.
Qed.

(** C1 (as amended). For every metadata document with a testcases list
    whose checks up to the end of the test cases complete without an
    exception, the running minimum is the least of the sentinel 999 and all
    the parsed compatibility values, whatever the order of the entries; if
    it is below 5, each of [needs_system_files] and [needs_shared_font]
    that is absent or not a literal boolean is recorded as an error, and if
    it is 5 or more, in particular without test cases, the two fields are
    not checked. *)
Theorem resource_flags_rule (tomlDoc : value) (testcases : list value)
    (st st1 : state) (maxCompatibility : Z) :
  get tomlDoc "testcases" = Ok (VArray testcases) ->
  (check_header tomlDoc;; check_releases tomlDoc;; check_testcases tomlDoc) st
    = (Ok maxCompatibility, st1) ->
  maxCompatibility = minimum 999 (parsed_compatibilities testcases) /\
  (forall testcases', Permutation testcases testcases' ->
     minimum 999 (parsed_compatibilities testcases') = maxCompatibility) /\
  (testcases = [] -> maxCompatibility = 999) /\
  (maxCompatibility < 5 <->
     exists compat, compat ∈ parsed_compatibilities testcases /\ compat < 5) /\
  (maxCompatibility < 5 ->
     validateDocument tomlDoc st =
     (Ok tt, record_all (flag_errors tomlDoc "needs_system_files" ++
                         flag_errors tomlDoc "needs_shared_font") st1)) /\
  (5 <= maxCompatibility -> validateDocument tomlDoc st = (Ok tt, st1)).
Proof.
  intros E R.
  assert (validateDocument tomlDoc st = check_resources tomlDoc maxCompatibility st1) as V.
  { unfold validateDocument. revert R. rewrite !bind_run.
    destruct (check_header tomlDoc st) as [[[]|e] st2]; [| discriminate].
    rewrite !bind_run.
    destruct (check_releases tomlDoc st2) as [[[]|e] st3]; [| discriminate].
    rewrite ?bind_run.
    destruct (check_testcases tomlDoc st3) as [[m|e] st4]; [| discriminate].
    by intros [= -> ->]. }
  rewrite V, (check_resources_run _ _ _ _ E).
  apply bind_ok_inv in R as (_ & st2 & _ & R). apply bind_ok_inv in R as (_ & st3 & _ & R).
  unfold check_testcases in R. rewrite bind_run, E in R. simpl in R.
  apply testcases_loop_result in R.
  split; [done |]. split; [| split; [| split; [| split]]].
  - intros testcases' P. subst maxCompatibility. symmetry.
    apply minimum_permutation. unfold parsed_compatibilities. by rewrite P.
  - by intros ->.
  - rewrite R, minimum_below. split; [intros [? | ?]; [lia | done] | auto].
  - intros L. by destruct (Z.ltb_spec maxCompatibility 5); [| lia].
  - intros L. by destruct (Z.ltb_spec maxCompatibility 5); [lia |].
Qed.

End MinimumCompatibility.

(** A compatibility of 1 and no resource flags: two errors. *)
Lemma resource_flags_rule_witness :
  let tomlDoc :=
    Sample.doc_with_testcase
      (Sample.testcase_fields (VString "1") (VString "2017-05-31")) in
  @validateDocument Sample.good_world tomlDoc initial =
  (Ok tt, record_all (flag_errors tomlDoc "needs_system_files" ++
                      flag_errors tomlDoc "needs_shared_font") initial).
Proof.
  refine (proj1 (proj2 (proj2 (proj2 (proj2
            (@resource_flags_rule Sample.good_world
               (Sample.doc_with_testcase
                  (Sample.testcase_fields (VString "1") (VString "2017-05-31")))
               [Sample.table (Sample.testcase_fields (VString "1") (VString "2017-05-31"))]
               initial initial 1 _ _))))) _); by vm_compute.
Defined.

(** C1, as stated, fails twice.  With the single compatibility ["1000"] the
    running minimum is the sentinel 999, not the minimum 1000 of the parsed
    values.  With a compatibility of 1 and a date that is a TOML date and
    not a string, the date check throws, and the absence of
    [needs_system_files] is not recorded although the minimum is below 5. *)
Lemma resource_flags_rule_counterexample :
  (@parsed_compatibilities Sample.good_world
     [Sample.table (Sample.testcase_fields (VString "1000") (VString "2017-05-31"))]
     = [1000] /\
   @check_testcases Sample.good_world
     (Sample.doc_with_testcase
        (Sample.testcase_fields (VString "1000") (VString "2017-05-31"))) initial
     = (Ok 999, initial)) /\
  (@parsed_compatibilities Sample.good_world
     [Sample.table (Sample.testcase_fields (VString "1") (VDate 1496188800000))]
     = [1] /\
   get (Sample.doc_with_testcase
          (Sample.testcase_fields (VString "1") (VDate 1496188800000)))
       "needs_system_files" = Ok VUndefined /\
   @validateDocument Sample.good_world
     (Sample.doc_with_testcase
        (Sample.testcase_fields (VString "1") (VDate 1496188800000))) initial
     = (Throw (TypeError "match is not a function"), initial)).
Proof. by vm_compute. Qed.

Section Unparseable.
Context `{World}.

Lemma validateNotEmpty_string struct name s st :
  get struct name = Ok (VString s) -> s <> "" ->
  validateNotEmpty struct name st = (Ok tt, st).
Proof.
  intros E N. unfold validateNotEmpty.
  rewrite (validateContents_present _ _ _ _ _ E eq_refl). simpl.
  by apply String.eqb_neq in N as ->.
Qed.

(** A test case with an unparseable compatibility leaves the minimum as it
    is. *)
Lemma check_testcase_unparseable i testcase maxCompatibility st :
  unparseable testcase ->
  check_testcase i testcase maxCompatibility st =
  (other_checks i testcase;; mret maxCompatibility) st.
Proof.
  intros (s & E & N & P). unfold check_testcase, other_checks.
  rewrite (bind_ok _ _ _ _ _ (validateNotEmpty_string _ _ _ _ E N)).
  rewrite bind_run, E. simpl.
  unfold fold_compatibility, parseInt. simpl. rewrite P.
  rewrite !bind_run. destruct (validateIsDate testcase "date" st) as [[[]|e] st1]; [| done].
  rewrite !bind_run.
  destruct (validateContents testcase "version" (check_version i) st1) as [[[]|e] st2];
    [| done].
  rewrite !bind_run. by destruct (validateNotEmpty testcase "author" st2) as [[[]|e] st3].
Qed.

Lemma testcases_loop_unparseable testcases :
  Forall unparseable testcases ->
  forall i maxCompatibility st,
    for_entries i testcases check_testcase maxCompatibility st =
    (for_entries i testcases (fun i testcase _ => other_checks i testcase) tt;;
     mret maxCompatibility) st.
Proof.
  induction 1 as [|testcase rest U F IH]; intros i maxCompatibility st; [done |].
  simpl. rewrite !bind_run, (check_testcase_unparseable _ _ _ _ U), !bind_run.
  destruct (other_checks i testcase st) as [[[]|e] st1]; [| done].
  simpl. by rewrite IH, bind_run.
Qed.

(** C10. A test case whose compatibility is a non-empty string that does not
    parse as an integer records no error for that value and leaves the
    running minimum as it was; and when every test case of a document is
    such, the minimum stays at its initial 999 and the two resource flags
    are not checked: the document is validated by its header, its releases
    and the other fields of its test cases alone. *)
Theorem unparseable_compatibility_ignored (i : nat) (testcase : value)
    (maxCompatibility : Z) (st : state) :
  unparseable testcase ->
  validateNotEmpty testcase "compatibility" st = (Ok tt, st) /\
  check_testcase i testcase maxCompatibility st =
    (other_checks i testcase;; mret maxCompatibility) st /\
  (forall (tomlDoc : value) (testcases : list value) (st0 : state),
     get tomlDoc "testcases" = Ok (VArray testcases) ->
     Forall unparseable testcases ->
     minimum 999 (parsed_compatibilities testcases) = 999 /\
     check_testcases tomlDoc st0 =
       (for_entries 0 testcases (fun i testcase _ => other_checks i testcase) tt;;
        mret 999) st0 /\
     validateDocument tomlDoc st0 =
       (check_header tomlDoc;; check_releases tomlDoc;;
        for_entries 0 testcases (fun i testcase _ => other_checks i testcase) tt) st0).
Proof.
  intros U. split; [| split].
  - destruct U as (s & E & N & _). by apply validateNotEmpty_string with s.
  - by apply check_testcase_unparseable.
  - intros tomlDoc testcases st0 E F.
    assert (forall st', check_testcases tomlDoc st' =
              (for_entries 0 testcases (fun i testcase _ => other_checks i testcase) tt;;
               mret 999) st') as C.
    { intros st'. unfold check_testcases. rewrite bind_run, E. simpl.
      by apply testcases_loop_unparseable. }
    split; [| split; [apply C |]].
    + clear -F. unfold parsed_compatibilities.
      induction F as [|tc rest (s & E & N & P) F IH]; [done |]. simpl.
      unfold parsed_compatibility at 1. rewrite E. simpl.
      unfold parseInt. simpl. by rewrite P.
    + unfold validateDocument. rewrite !bind_run.
      destruct (check_header tomlDoc st0) as [[[]|e] st1]; [| done].
      rewrite !bind_run.
      destruct (check_releases tomlDoc st1) as [[[]|e] st2]; [| done].
      rewrite bind_run, C, bind_run.
      by destruct (for_entries 0 testcases _ tt st2) as [[[]|e] st3].
Qed.

End Unparseable.

(** A compatibility of ["unknown"] and no resource flags: no error. *)
Lemma unparseable_compatibility_ignored_witness :
  @validateDocument Sample.good_world
    (Sample.doc_with_testcase
       (Sample.testcase_fields (VString "unknown") (VString "2017-05-31"))) initial =
  (Ok tt, initial).
Proof.
  etransitivity.
  - refine (proj2 (proj2 (proj2 (proj2
      (@unparseable_compatibility_ignored Sample.good_world 0
         (Sample.table (Sample.testcase_fields (VString "unknown") (VString "2017-05-31")))
         999 initial _))
      (Sample.doc_with_testcase
         (Sample.testcase_fields (VString "unknown") (VString "2017-05-31")))
      [Sample.table (Sample.testcase_fields (VString "unknown") (VString "2017-05-31"))]
      initial _ _))).
    + exists "unknown". by vm_compute.
    + by vm_compute.
    + apply Forall_cons_2; [| apply Forall_nil_2]. exists "unknown". by vm_compute.
  - by vm_compute.
Defined.

(** ** The save groups (C7) *)

Module GroupFacts.
Import Spec.

Lemma indexOf_lower (x : string) (items : list string) : -1 <= indexOf x items.
Proof.
  induction items as [|y items IH]; simpl; [lia |].
  destruct (String.eqb y x); [lia |]. destruct (Z.ltb_spec (indexOf x items) 0); lia.
Qed.

(** An element stands at its first index exactly when it does not occur
    before. *)
Lemma indexOf_first (x : string) (before after : list string) :
  (indexOf x (before ++ x :: after) =? Z.of_nat (List.length before))
  = bool_decide (x ∉ before).
Proof.
  induction before as [|y before IH]; simpl.
  - by rewrite String.eqb_refl.
  - destruct (String.eqb_spec y x) as [->|Hne].
    + transitivity false; [by apply Z.eqb_neq; lia |].
      symmetry. apply bool_decide_eq_false_2. intros N. apply N. left.
    + pose proof (indexOf_lower x (before ++ x :: after)) as L.
      destruct (Z.ltb_spec (indexOf x (before ++ x :: after)) 0) as [Hlt|Hge].
      * assert (bool_decide (x ∉ before) = false) as F.
        { rewrite <- IH. apply Z.eqb_neq. lia. }
        transitivity false; [apply Z.eqb_neq; lia |].
        symmetry. apply bool_decide_eq_false_2. apply bool_decide_eq_false_1 in F.
        intros N. apply F. intros I. apply N. by right.
      * transitivity (indexOf x (before ++ x :: after) =? Z.of_nat (List.length before)).
        { destruct (Z.eqb_spec (indexOf x (before ++ x :: after))
                      (Z.of_nat (List.length before))) as [->|D].
          - apply Z.eqb_eq. lia.
          - apply Z.eqb_neq. lia. }
        rewrite IH. apply bool_decide_ext. rewrite not_elem_of_cons. split; [auto | tauto].
Qed.

(** The filter of the code keeps the first occurrences. *)
Lemma filter_first_occurrences (names before : list string) :
  snd <$> List.filter
            (fun p : nat * string =>
               indexOf (snd p) (before ++ names) =? Z.of_nat (fst p))
            (imap (fun i x => ((List.length before + i)%nat, x)) names)
  = first_occurrences_after before names.
Proof.
  revert before. induction names as [|x rest IH]; intros before; [done |].
  assert (snd <$> List.filter
            (fun p : nat * string =>
               indexOf (snd p) (before ++ x :: rest) =? Z.of_nat (fst p))
            (imap ((fun i y => ((List.length before + i)%nat, y)) ∘ S) rest)
          = first_occurrences_after (before ++ [x]) rest) as R.
  { rewrite <- IH. rewrite <- app_assoc. simpl. f_equal. f_equal.
    apply imap_ext. intros i y _. simpl. rewrite length_app. simpl. f_equal. lia. }
  rewrite imap_cons. cbn [List.filter first_occurrences_after fst snd].
  rewrite Nat.add_0_r, indexOf_first.
  destruct (decide (x ∈ before)) as [I|N].
  - rewrite (bool_decide_eq_false_2 _ (fun n => n I)), (bool_decide_eq_true_2 _ I).
    exact R.
  - rewrite (bool_decide_eq_true_2 _ N), (bool_decide_eq_false_2 _ N).
    rewrite fmap_cons. by rewrite R.
Qed.

Lemma save_groups_first_occurrences (files : list string) :
  save_groups files = first_occurrences (map strip_extension files).
Proof.
  unfold save_groups, filter_indexed, first_occurrences.
  by rewrite <- (filter_first_occurrences (map strip_extension files) []).
Qed.

Lemma elem_of_first_occurrences_after (names before : list string) (x : string) :
  x ∈ first_occurrences_after before names <-> x ∈ names /\ x ∉ before.
Proof.
  revert before. induction names as [|y rest IH]; intros before; simpl.
  - split; [by intros ?%elem_of_nil | by intros [?%elem_of_nil _]].
  - destruct (decide (y ∈ before)) as [I|N].
    + rewrite (bool_decide_eq_true_2 _ I), IH, elem_of_cons, not_elem_of_app,
        not_elem_of_cons. split.
      * intros (Hx & Hb & _). auto.
      * intros ([-> | Hx] & Hb); [done |]. split; [done |]. split; [done |].
        split; [congruence | apply not_elem_of_nil].
    + rewrite (bool_decide_eq_false_2 _ N), !elem_of_cons, IH, not_elem_of_app,
        not_elem_of_cons. split.
      * intros [-> | (Hx & Hb & _)]; auto.
      * intros ([-> | Hx] & Hb); [by left |].
        destruct (decide (x = y)) as [->|D]; [by left | right].
        split; [done |]. split; [done |]. split; [done | apply not_elem_of_nil].
Qed.

Lemma NoDup_first_occurrences_after (names before : list string) :
  NoDup (first_occurrences_after before names).
Proof.
  revert before. induction names as [|y rest IH]; intros before; simpl.
  - constructor.
  - destruct (bool_decide (y ∈ before)); [apply IH |].
    apply NoDup_cons. split; [| apply IH].
    rewrite elem_of_first_occurrences_after, not_elem_of_app, not_elem_of_cons.
    intros (_ & _ & D & _). by apply D.
Qed.

(** Two buffers compare equal exactly when they hold the same bytes. *)
Lemma compare_eq (a b : list byte) : compare a b = 0 <-> a = b.
Proof.
  revert b. induction a as [|x a IH]; intros [|y b]; simpl; try done.
  destruct (N.compare_spec (Byte.to_N x) (Byte.to_N y)) as [E|L|L].
  - assert (x = y) as ->.
    { pose proof (Byte.of_to_N x) as Hx. rewrite E, Byte.of_to_N in Hx. congruence. }
    rewrite IH. split; [by intros -> | by intros [= ->]].
  - split; [done |]. intros [= -> ->]. lia.
  - split; [done |]. intros [= -> ->]. lia.
Qed.

End GroupFacts.

Module ExtensionFacts.

Lemma lastIndexOf_absent (c : ascii) (s : string) :
  c ∉ list_ascii_of_string s -> Str.lastIndexOf c s = -1.
Proof.
  induction s as [|a s IH]; simpl; [done |].
  rewrite not_elem_of_cons. intros [D N]. rewrite (IH N). simpl.
  destruct (Ascii.eqb_spec a c); [congruence | done].
Qed.

Lemma lastIndexOf_last (c : ascii) (base ext : string) :
  c ∉ list_ascii_of_string ext ->
  Str.lastIndexOf c (base +:+ String c ext) = Z.of_nat (String.length base).
Proof.
  intros N. induction base as [|a base IH].
  - rewrite StrFacts.app_nil_l. simpl. rewrite (lastIndexOf_absent _ _ N). simpl.
    by rewrite Ascii.eqb_refl.
  - rewrite StrFacts.app_cons. simpl. rewrite IH.
    destruct (Z.leb_spec 0 (Z.of_nat (String.length base))); lia.
Qed.

Lemma take_app (base rest : string) :
  Str.take (String.length base) (base +:+ rest) = base.
Proof.
  induction base as [|a base IH]; [by destruct rest |].
  rewrite StrFacts.app_cons. simpl. by rewrite IH.
Qed.

(** Stripping removes the last dot and what follows it. *)
Lemma strip_extension_name (base ext : string) :
  "."%char ∉ list_ascii_of_string ext ->
  strip_extension (base +:+ String "." ext) = base.
Proof.
  intros N. unfold strip_extension, Str.substr0.
  rewrite (lastIndexOf_last _ _ _ N), Nat2Z.id. apply take_app.
Qed.

(** A name without a dot strips to the empty name. *)
Lemma strip_extension_no_dot (file : string) :
  "."%char ∉ list_ascii_of_string file -> strip_extension file = "".
Proof.
  intros N. unfold strip_extension, Str.substr0.
  rewrite (lastIndexOf_absent _ _ N). by destruct file.
Qed.

End ExtensionFacts.

(** A filter whose test never throws. *)
Lemma filter_throwing_total {A} (pred : A -> outcome bool) (p : A -> bool)
    (items : list A) :
  Forall (fun x => pred x = Ok (p x)) items ->
  filter_throwing pred items = Ok (List.filter p items).
Proof.
  induction 1 as [|x items Hx F IH]; [done |].
  simpl. rewrite Hx, IH. simpl. by destruct (p x).
Qed.

Section Saves.
Context `{World}.

Lemma existsSync_file path content :
  files !! path = Some (File content) -> existsSync path = true.
Proof. unfold existsSync, stat. by intros ->. Qed.

Lemma existsSync_directory path names :
  files !! path = Some (Directory names) -> existsSync path = true.
Proof. unfold existsSync, stat. by intros ->. Qed.

Lemma existsSync_false path : files !! path = None -> existsSync path = false.
Proof. unfold existsSync, stat. by intros ->. Qed.

Lemma validateFileExists_missing path st :
  files !! path = None ->
  validateFileExists path st =
  (Ok false, record (Str.quote +:+ path +:+ Str.quote +:+ " does not exist!") st).
Proof. intros F. unfold validateFileExists. by rewrite (existsSync_false _ F). Qed.

Lemma validateFileExists_present path st :
  existsSync path = true -> validateFileExists path st = (Ok true, st).
Proof. intros F. unfold validateFileExists. by rewrite F. Qed.

Lemma readChunk_file path content n :
  files !! path = Some (File content) -> readChunk path n = Ok (take n content).
Proof. intros F. unfold readChunk, readFileSync, stat. by rewrite F. Qed.

Lemma readChunk_stat path content n :
  stat path = Ok (File content) -> readChunk path n = Ok (take n content).
Proof. intros F. unfold readChunk, readFileSync. by rewrite F. Qed.

Lemma existsSync_stat path node : stat path = Ok node -> existsSync path = true.
Proof. intros F. unfold existsSync. by rewrite F. Qed.

Lemma validateSaveZip_run path content st :
  stat path = Ok (File content) ->
  validateSaveZip path st =
  (Ok tt,
   if bool_decide (take 4 content = zipHeader) then st
   else record ("File " +:+ path +:+ " is not a .zip!") st).
Proof.
  intros F. unfold validateSaveZip.
  rewrite bind_run, (readChunk_stat _ _ _ F), lift_run. lazy beta iota.
  destruct (decide (take 4 content = zipHeader)) as [E|D].
  - rewrite (bool_decide_eq_true_2 _ E).
    assert ((compare zipHeader (take 4 content) =? 0) = true) as ->; [| done].
    apply Z.eqb_eq, GroupFacts.compare_eq. done.
  - rewrite (bool_decide_eq_false_2 _ D).
    assert ((compare zipHeader (take 4 content) =? 0) = false) as ->; [| done].
    apply Z.eqb_neq. intros E%GroupFacts.compare_eq. by apply D.
Qed.

(** Without a saves directory nothing is checked and nothing recorded. *)
Lemma validateSaves_absent dir st :
  files !! dir = None -> validateSaves dir st = (Ok tt, st).
Proof. intros F. unfold validateSaves. by rewrite (existsSync_false _ F). Qed.

Lemma validateFileExists_absent path st :
  existsSync path = false ->
  validateFileExists path st =
  (Ok false, record (Str.quote +:+ path +:+ Str.quote +:+ " does not exist!") st).
Proof. intros F. unfold validateFileExists. by rewrite F. Qed.

(** The regular files of a folder that can be listed. *)
Lemma getFiles_listed dir names :
  readdirSync dir = Ok names ->
  Forall (fun name => is_Some (files !! (dir +:+ "/" +:+ name))) names ->
  getFiles dir = Ok (List.filter (is_file_at dir) names).
Proof.
  intros D F. unfold getFiles. rewrite D. simpl.
  apply filter_throwing_total. eapply Forall_impl; [exact F |].
  intros name [node E]. unfold isFile, is_file_at. rewrite E.
  by destruct node.
Qed.

Lemma readdirSync_exists dir names : readdirSync dir = Ok names -> existsSync dir = true.
Proof. unfold readdirSync, existsSync. by destruct (stat dir) as [[]|]. Qed.

(** C7 (as amended). For an existing saves directory whose entries can all
    be examined, the groups are the names of its regular files without
    their extension (what precedes the last dot), each once, in the order
    of first occurrence, and the groups are checked in this order, each
    after the one before it has returned.  In a group, a missing [.dat] is
    one missing-file error and its metadata is not validated, and a [.dat]
    that is there is validated.  If that validation throws, the exception
    leaves the group, and with it the loop: the archive is not looked at.
    Otherwise the archive is checked from the state the metadata step
    leaves: a missing [.zip] is one missing-file error and its signature
    is not read, and the first four bytes of a [.zip] that is, or leads
    to, a regular file are compared with the zip signature, with a
    mismatch error exactly when they differ.  A group with neither file is two errors and no
    exception. *)
Theorem save_groups_checks (dir : string) (names : list string) (st : state) :
  readdirSync dir = Ok names ->
  Forall (fun name => is_Some (files !! (dir +:+ "/" +:+ name))) names ->
  let groups := save_groups (List.filter (is_file_at dir) names) in
  validateSaves dir st = for_each groups (check_save_group dir) st /\
  groups = Spec.first_occurrences (map strip_extension (List.filter (is_file_at dir) names)) /\
  NoDup groups /\
  (forall group, group ∈ groups <->
     exists file, file ∈ names /\ is_file_at dir file = true /\
                  group = strip_extension file) /\
  (forall base ext, "."%char ∉ list_ascii_of_string ext ->
     strip_extension (base +:+ String "." ext) = base) /\
  (forall (group : string) (rest : list string) (st' : state),
     for_each (group :: rest) (check_save_group dir) st' =
     match check_save_group dir group st' with
     | (Ok _, st1) => for_each rest (check_save_group dir) st1
     | (Throw ex, st1) => (Throw ex, st1)
     end) /\
  (forall (group : string) (st' : state),
     let dat := dir +:+ "/" +:+ group +:+ ".dat" in
     let zip := dir +:+ "/" +:+ group +:+ ".zip" in
     let missing path := Str.quote +:+ path +:+ Str.quote +:+ " does not exist!" in
     (existsSync dat = false ->
        check_save_dat dir group st' = (Ok tt, record (missing dat) st')) /\
     (existsSync dat = true ->
        check_save_dat dir group st' = validateSaveTOML dat st') /\
     (forall ex st1, check_save_dat dir group st' = (Throw ex, st1) ->
        check_save_group dir group st' = (Throw ex, st1)) /\
     (forall st1, check_save_dat dir group st' = (Ok tt, st1) ->
        (existsSync zip = false ->
           check_save_group dir group st' = (Ok tt, record (missing zip) st1)) /\
        (forall content, stat zip = Ok (File content) ->
           check_save_group dir group st' =
           (Ok tt,
            if bool_decide (take 4 content = zipHeader) then st1
            else record ("File " +:+ zip +:+ " is not a .zip!") st1))) /\
     (existsSync dat = false -> existsSync zip = false ->
        check_save_group dir group st' =
        (Ok tt, record (missing zip) (record (missing dat) st')))).
Proof.
  intros D F groups. pose proof (getFiles_listed _ _ D F) as G.
  split; [| split; [| split; [| split; [| split; [| split]]]]].
  - unfold validateSaves. rewrite (readdirSync_exists _ _ D). simpl.
    by rewrite bind_run, G.
  - apply GroupFacts.save_groups_first_occurrences.
  - subst groups. rewrite GroupFacts.save_groups_first_occurrences.
    apply GroupFacts.NoDup_first_occurrences_after.
  - intros group. subst groups. rewrite GroupFacts.save_groups_first_occurrences.
    unfold Spec.first_occurrences.
    rewrite GroupFacts.elem_of_first_occurrences_after, list_elem_of_In, in_map_iff.
    split.
    + intros [(file & <- & [I T]%filter_In) _]. exists file.
      by rewrite list_elem_of_In.
    + intros (file & I & T & ->). split; [| apply not_elem_of_nil].
      exists file. split; [done |]. apply filter_In. by rewrite <- list_elem_of_In.
  - apply ExtensionFacts.strip_extension_name.
  - intros group rest st'. cbn [for_each]. rewrite bind_run.
    by destruct (check_save_group dir group st') as [[[]|ex] st1].
  - intros group st' dat zip missing.
    assert (existsSync dat = false ->
            check_save_dat dir group st' = (Ok tt, record (missing dat) st')) as Hdat.
    { intros E. unfold check_save_dat.
      by rewrite (bind_ok _ _ _ _ _ (validateFileExists_absent _ _ E)). }
    assert (forall st1, existsSync zip = false ->
            check_save_zip dir group st1 = (Ok tt, record (missing zip) st1)) as Hzip.
    { intros st1 E. unfold check_save_zip.
      by rewrite (bind_ok _ _ _ _ _ (validateFileExists_absent _ _ E)). }
    split; [done |]. split; [| split; [| split; [| ]]].
    + intros E. unfold check_save_dat.
      by rewrite (bind_ok _ _ _ _ _ (validateFileExists_present _ _ E)).
    + intros ex st1 E. unfold check_save_group. by rewrite bind_run, E.
    + intros st1 E. unfold check_save_group. rewrite (bind_ok _ _ _ _ _ E). split.
      * apply Hzip.
      * intros content Z. unfold check_save_zip.
        rewrite (bind_ok _ _ _ _ _
                   (validateFileExists_present _ _ (existsSync_stat _ _ Z))).
        simpl. by apply validateSaveZip_run.
    + intros Ed Ez. unfold check_save_group.
      rewrite (bind_ok _ _ _ _ _ (Hdat Ed)). by apply Hzip.
Qed.

End Saves.

(** A save folder with the metadata of one group, [a], without its
    archive, and a sub-folder, which is no save: one group, one error. *)
Lemma save_groups_checks_witness :
  let world :=
    Sample.world
      (<["../g/savefiles" := Directory ["a.dat"; "old"]]>
         (<["../g/savefiles/old" := Directory ["b.dat"]]>
            (delete "../g/savefiles/a.zip" Sample.good_fs)))
      [([x02], Sample.save_doc)] in
  @validateSaves world "../g/savefiles" initial =
    for_each ["a"] (@check_save_group world "../g/savefiles") initial /\
  @validateSaves world "../g/savefiles" initial =
    (Ok tt,
     record (Str.quote +:+ "../g/savefiles/a.zip" +:+ Str.quote +:+ " does not exist!")
       initial).
Proof.
  intros world.
  assert (@validateSaves world "../g/savefiles" initial =
          for_each ["a"] (@check_save_group world "../g/savefiles") initial) as E.
  { refine (proj1 (@save_groups_checks world "../g/savefiles" ["a.dat"; "old"]
                     initial _ _)).
    - by vm_compute.
    - repeat (apply Forall_cons_2; [eexists; by vm_compute |]). apply Forall_nil_2. }
  split; [exact E |]. rewrite E. by vm_compute.
Defined.

(** C7, as stated, fails.  The group [a] of the first folder has a [.dat]
    whose [title_id] is a list of sixteen elements, and no [.zip]: the
    identifier check throws, and no missing-file error is recorded for the
    archive.  In the second folder [a.dat] is itself a folder: reading it
    throws, with the same effect. *)
Lemma save_groups_missing_zip_counterexample :
  (let world :=
     Sample.world
       (list_to_map [("s", Directory ["a.dat"]); ("s/a.dat", File [x03])])
       [([x03], Sample.table [("title", VString "All unlocked");
                              ("description", VString "Everything.");
                              ("author", VString "tester");
                              ("title_id", VArray (replicate 16 (VString "0")))])] in
   @existsSync world "s" = true /\
   @getFiles world "s" = Ok ["a.dat"] /\
   @existsSync world "s/a.zip" = false /\
   @validateSaves world "s" initial =
   (Throw (TypeError "match is not a function"), initial)) /\
  (let world :=
     Sample.world
       (list_to_map [("s", Directory ["a.txt"; "a.dat"]); ("s/a.txt", File []);
                     ("s/a.dat", Directory [])]) [] in
   @existsSync world "s" = true /\
   @getFiles world "s" = Ok ["a.txt"] /\
   @existsSync world "s/a.zip" = false /\
   @validateSaves world "s" initial =
   (Throw (SystemError "EISDIR" "s/a.dat"), initial)).
Proof. by vm_compute. Qed.

(** ** The error list only grows *)

Section AppendOnly.

Lemma append_only_ret {A} (a : A) : append_only (mret a).
Proof. by intros st. Qed.

Lemma append_only_lift {A} (r : outcome A) : append_only (lift r).
Proof. by intros st. Qed.

Lemma append_only_validationError err : append_only (validationError err).
Proof. intros st. simpl. split; [by apply prefix_app_r | done]. Qed.

Lemma append_only_print c : append_only (print c).
Proof. intros st. simpl. split; [done | by apply prefix_app_r]. Qed.

Lemma append_only_set_currentGame g : append_only (set_currentGame g).
Proof. by intros st. Qed.

Lemma append_only_bind {A B} (m : M A) (f : A -> M B) :
  append_only m -> (forall a, append_only (f a)) -> append_only (m ≫= f).
Proof.
  intros Hm Hf st. rewrite bind_run. specialize (Hm st).
  destruct (m st) as [[a|e] st1]; simpl in *; [| done].
  destruct (Hf a st1) as [He Hc]. destruct Hm as [He' Hc'].
  split; by etrans.
Qed.

Lemma append_only_when cond body : append_only body -> append_only (when cond body).
Proof. intros Hb. destruct cond; [done | apply append_only_ret]. Qed.

Lemma append_only_try_catch {A} (body : M A) (handler : exn -> M A) :
  append_only body -> (forall ex, append_only (handler ex)) ->
  append_only (try_catch body handler).
Proof.
  intros Hb Hh st. unfold try_catch. specialize (Hb st).
  destruct (body st) as [[a|e] st1]; simpl in *; [done |].
  destruct (Hh e st1) as [He Hc]. destruct Hb as [He' Hc'].
  split; by etrans.
Qed.

Lemma append_only_for_each {A} (items : list A) (body : A -> M unit) :
  (forall x, append_only (body x)) -> append_only (for_each items body).
Proof.
  intros Hb. induction items as [|x items IH]; simpl.
  - apply append_only_ret.
  - apply append_only_bind; [apply Hb | by intros _].
Qed.

Lemma append_only_for_entries {L} (section : list value)
    (body : nat -> value -> L -> M L) :
  (forall i entry acc, append_only (body i entry acc)) ->
  forall i acc, append_only (for_entries i section body acc).
Proof.
  intros Hb. induction section as [|entry rest IH]; intros i acc; simpl.
  - apply append_only_ret.
  - apply append_only_bind; [apply Hb | intros acc'; apply IH].
Qed.

End AppendOnly.

(** Breaks a computation into its steps, down to the primitives. *)
Ltac append_only_step :=
  first
    [ apply append_only_ret
    | apply append_only_lift
    | apply append_only_validationError
    | apply append_only_print
    | apply append_only_set_currentGame
    | apply append_only_when
    | apply append_only_bind; [| intros ?]
    | apply append_only_for_each; intros ?
    | apply append_only_for_entries; intros ? ? ?
    | match goal with
      | |- append_only (if ?c then _ else _) => destruct c
      | |- append_only (match ?x with _ => _ end) => destruct x
      end ].

Create HintDb append_only.

Ltac append_only := repeat (solve [auto with append_only] || append_only_step).

Section AppendOnlyValidators.
Context `{World}.

Lemma append_only_validateContents struct name test :
  (forall field, append_only (test field)) ->
  append_only (validateContents struct name test).
Proof. intros Ht. unfold validateContents, validateExists. append_only. Qed.

Ltac validators :=
  repeat (solve [auto with append_only]
          || (apply append_only_validateContents; intros ?)
          || append_only_step).

Lemma append_only_validateNotEmpty struct name :
  append_only (validateNotEmpty struct name).
Proof. unfold validateNotEmpty. validators. Qed.

Lemma append_only_validateIsDate struct name : append_only (validateIsDate struct name).
Proof. unfold validateIsDate. validators. Qed.

Lemma append_only_validateIsBoolean struct name :
  append_only (validateIsBoolean struct name).
Proof. unfold validateIsBoolean. validators. Qed.

Lemma append_only_check_title_id prefix field :
  append_only (check_title_id prefix field).
Proof. unfold check_title_id. validators. Qed.

Hint Resolve append_only_validateNotEmpty append_only_validateIsDate
  append_only_validateIsBoolean append_only_check_title_id : append_only.

Lemma append_only_validateImage path config : append_only (validateImage path config).
Proof. unfold validateImage. validators. Qed.

Hint Resolve append_only_validateImage : append_only.

Lemma append_only_validateDirImages path config :
  append_only (validateDirImages path config).
Proof. unfold validateDirImages. validators. Qed.

Lemma append_only_check_github_issues field :
  append_only (check_github_issues field).
Proof. unfold check_github_issues. validators. Qed.

Lemma append_only_check_version i test : append_only (check_version i test).
Proof. unfold check_version. validators. Qed.

Hint Resolve append_only_check_github_issues append_only_check_version : append_only.

Lemma append_only_check_header tomlDoc : append_only (check_header tomlDoc).
Proof. unfold check_header, validate_github_issues. validators. Qed.

Lemma append_only_check_release i release : append_only (check_release i release).
Proof. unfold check_release. validators. Qed.

Lemma append_only_check_testcase i testcase maxCompatibility :
  append_only (check_testcase i testcase maxCompatibility).
Proof. unfold check_testcase. validators. Qed.

Hint Resolve append_only_check_header append_only_check_release
  append_only_check_testcase : append_only.

Lemma append_only_validateDocument tomlDoc : append_only (validateDocument tomlDoc).
Proof.
  unfold validateDocument, check_releases, check_testcases, check_resources.
  validators.
Qed.

Hint Resolve append_only_validateDocument : append_only.

Lemma append_only_validateTOML path : append_only (validateTOML path).
Proof. unfold validateTOML. validators. Qed.

Lemma append_only_validateSaves dir : append_only (validateSaves dir).
Proof.
  unfold validateSaves, check_save_group, check_save_dat, check_save_zip,
    validateFileExists, validateSaveTOML, validateSaveZip.
  validators.
Qed.

Hint Resolve append_only_validateDirImages append_only_validateTOML
  append_only_validateSaves : append_only.

Lemma append_only_game_body game : append_only (game_body game).
Proof.
  unfold game_body.
  validators.
Qed.

Lemma append_only_validateGame game : append_only (validateGame game).
Proof.
  unfold validateGame, game_handler. apply append_only_try_catch.
  - apply append_only_game_body.
  - intros ex. validators.
Qed.

End AppendOnlyValidators.

(** ** The per-game boundary (C8) *)

Section GameBoundary.
Context `{World}.

(** The callback never throws. *)
Lemma validateGame_returns game st : exists st', validateGame game st = (Ok tt, st').
Proof.
  unfold validateGame, try_catch.
  destruct (game_body game st) as [[[]|ex] st1]; [eauto |].
  unfold game_handler. rewrite bind_run. simpl. eauto.
Qed.

(** The loop over the games never throws. *)
Lemma game_loop_returns games : forall st,
  exists st', for_each games validateGame st = (Ok tt, st').
Proof.
  induction games as [|game rest IH]; intros st; simpl; [by eexists |].
  destruct (validateGame_returns game st) as [st1 E].
  rewrite (bind_ok _ _ _ _ _ E). apply IH.
Qed.

(** C8. An exception raised while a game is validated is caught by the
    callback of that game: the warning naming the game and the exception
    itself are printed after what was printed before, the errors recorded
    up to the exception are all kept, and the loop goes on with the games
    that follow, each of which is processed; the loop as a whole returns
    normally. *)
Theorem game_boundary (game : string) (following : list string) (st : state) :
  exists st',
    validateGame game st = (Ok tt, st') /\
    errors st `prefix_of` errors st' /\
    (forall st1, game_body game st = (Ok tt, st1) -> st' = st1) /\
    (forall ex st1, game_body game st = (Throw ex, st1) ->
       errors st `prefix_of` errors st1 /\
       errors st' = errors st1 /\
       currentGame st' = currentGame st1 /\
       console st' = console st1 ++
         [Warn (game +:+ " has encountered an unexpected error."); Error ex]) /\
    for_each (game :: following) validateGame st = for_each following validateGame st' /\
    (exists st'', for_each following validateGame st' = (Ok tt, st'')).
Proof.
  destruct (validateGame_returns game st) as [st' E]. exists st'.
  split; [done |]. split; [| split; [| split; [| split]]].
  - pose proof (append_only_validateGame game st) as [P _]. by rewrite E in P.
  - intros st1 B. unfold validateGame, try_catch in E. rewrite B in E. congruence.
  - intros ex st1 B. unfold validateGame, try_catch in E. rewrite B in E.
    unfold game_handler in E. rewrite bind_run in E. simpl in E.
    injection E as <-. simpl. rewrite <- app_assoc. split; [| done].
    pose proof (append_only_game_body game st) as [P _]. by rewrite B in P.
  - simpl. by rewrite (bind_ok _ _ _ _ _ E).
  - apply game_loop_returns.
Qed.

End GameBoundary.

(** ** The report and the exit status (C5) *)

Module GroupingFacts.
Import Groups Spec.

(** Filing under a name that is not inherited. *)
Lemma push_ok key r groups :
  inherited key = false ->
  exists groups',
    push key r groups = Ok groups' /\
    fst <$> groups' =
      (if bool_decide (key ∈ fst <$> groups) then fst <$> groups
       else (fst <$> groups) ++ [key]) /\
    (forall k, default [] (lookup k groups') =
       if String.eqb key k then default [] (lookup k groups) ++ [r]
       else default [] (lookup k groups)).
Proof.
  intros N. induction groups as [|[k' group] rest IH].
  - simpl. rewrite N. eexists. split; [done |]. split; [done |].
    intros k. simpl. by destruct (String.eqb key k).
  - cbn [push]. destruct (String.eqb_spec k' key) as [->|Hne].
    + eexists. split; [done |]. split.
      * rewrite !fmap_cons. cbn [fst]. rewrite bool_decide_eq_true_2; [done | left].
      * intros k. simpl. by destruct (String.eqb key k).
    + destruct IH as (rest' & -> & K & L). simpl. eexists. split; [done |]. split.
      * rewrite !fmap_cons, K. cbn [fst].
        destruct (decide (key ∈ fst <$> rest)) as [I|I].
        -- rewrite (bool_decide_eq_true_2 _ I), bool_decide_eq_true_2; [done | by right].
        -- rewrite (bool_decide_eq_false_2 _ I), bool_decide_eq_false_2; [done |].
           rewrite not_elem_of_cons. split; [congruence | done].
      * intros k. simpl. destruct (String.eqb_spec k' k) as [->|Hk]; [| apply L].
        by destruct (String.eqb_spec key k).
Qed.

(** Filing under an inherited name that is no property of the object
    itself. *)
Lemma push_throw key r groups :
  inherited key = true -> key ∉ fst <$> groups -> push key r groups = Throw no_push.
Proof.
  intros I. induction groups as [|[k' group] rest IH]; intros N.
  - simpl. by rewrite I.
  - rewrite fmap_cons, not_elem_of_cons in N. destruct N as [Hne N]. cbn [push].
    destruct (String.eqb_spec k' key) as [E|_]; [by destruct Hne |].
    by rewrite (IH N).
Qed.

Lemma fold_throw errs ex :
  fold_left (fun ret r => groups ← ret; push (group_key r) r groups) errs (Throw ex)
  = Throw ex.
Proof. by induction errs. Qed.

(** What has been passed matters as a set only. *)
Lemma first_occurrences_after_ext names : forall before before',
  (forall x, x ∈ before <-> x ∈ before') ->
  first_occurrences_after before names = first_occurrences_after before' names.
Proof.
  induction names as [|y rest IH]; intros before before' E; simpl; [done |].
  rewrite (IH (before ++ [y]) (before' ++ [y])).
  - by rewrite (bool_decide_ext _ _ (E y)).
  - intros x. rewrite !elem_of_app, E. done.
Qed.

Lemma fold_ok errs :
  Forall plainly_named errs ->
  forall groups,
  exists groups',
    fold_left (fun ret r => groups ← ret; push (group_key r) r groups) errs (Ok groups)
      = Ok groups' /\
    fst <$> groups' =
      (fst <$> groups) ++ first_occurrences_after (fst <$> groups) (map group_key errs) /\
    (forall key, default [] (lookup key groups') =
                 default [] (lookup key groups) ++ filed key errs).
Proof.
  unfold filed. induction 1 as [|r errs N F IH]; intros groups.
  - exists groups. split; [done |]. split; [by rewrite app_nil_r |].
    intros key. by rewrite app_nil_r.
  - destruct (push_ok (group_key r) r groups N) as (groups1 & P & K1 & L1).
    destruct (IH groups1) as (groups' & E & K & L).
    exists groups'. cbn [fold_left]. simpl mbind. rewrite P. split; [exact E |]. split.
    + rewrite K, K1. simpl.
      destruct (decide (group_key r ∈ fst <$> groups)) as [I|I].
      * rewrite !(bool_decide_eq_true_2 _ I). f_equal.
        apply first_occurrences_after_ext. intros x.
        rewrite elem_of_app, list_elem_of_singleton.
        split; [auto | intros [? | ->]; done].
      * rewrite !(bool_decide_eq_false_2 _ I). by rewrite <- app_assoc.
    + intros key. rewrite L, L1. simpl.
      destruct (String.eqb (group_key r) key); [| done]. by rewrite <- app_assoc.
Qed.

Lemma fold_inherited errs :
  Exists inherits_name errs ->
  forall groups,
  Forall (fun k => inherited k = false) (fst <$> groups) ->
  fold_left (fun ret r => groups ← ret; push (group_key r) r groups) errs (Ok groups)
    = Throw no_push.
Proof.
  induction errs as [|r errs IH]; intros X groups G; [by apply Exists_nil in X |].
  cbn [fold_left]. simpl mbind. destruct (inherited (group_key r)) eqn:I.
  - rewrite push_throw; [apply fold_throw | done |].
    intros M. eapply Forall_forall in G; [| exact M]. congruence.
  - destruct (push_ok (group_key r) r groups I) as (groups1 & -> & K1 & _).
    apply IH.
    + apply Exists_cons in X as [X | X]; [congruence | done].
    + rewrite K1. destruct (bool_decide _); [done |].
      apply Forall_app. split; [done |]. by apply Forall_singleton.
Qed.

(** The grouping succeeds when no error is filed under an inherited name:
    the groups are created in the order in which their games first fail,
    and each holds the errors of its game in the order recorded. *)
Lemma groupBy_ok errs :
  Forall plainly_named errs ->
  exists groups,
    groupBy errs = Ok groups /\
    fst <$> groups = first_occurrences (map group_key errs) /\
    (forall key, default [] (lookup key groups) = filed key errs).
Proof.
  intros F. destruct (fold_ok errs F []) as (groups & E & K & L). by exists groups.
Qed.

(** It throws as soon as one is. *)
Lemma groupBy_throw errs :
  Exists inherits_name errs -> groupBy errs = Throw no_push.
Proof. intros X. by apply fold_inherited. Qed.

Lemma inherited_cases errs :
  Forall plainly_named errs \/ Exists inherits_name errs.
Proof.
  induction errs as [|r errs [F | X]]; [by left | |].
  - destruct (inherited (group_key r)) eqn:I; [right; by left | left; by constructor].
  - right. by right.
Qed.

Lemma groupBy_inv errs groups :
  groupBy errs = Ok groups ->
  Forall plainly_named errs /\
  fst <$> groups = first_occurrences (map group_key errs) /\
  (forall key, default [] (lookup key groups) = filed key errs).
Proof.
  intros E. destruct (inherited_cases errs) as [F | X].
  - destruct (groupBy_ok errs F) as (groups' & E' & K & L).
    rewrite E in E'. injection E' as <-. done.
  - rewrite (groupBy_throw _ X) in E. discriminate.
Qed.

Lemma insert_by_index_permutation key sorted :
  insert_by_index key sorted ≡ₚ key :: sorted.
Proof.
  induction sorted as [|k rest IH]; simpl; [done |].
  destruct (_ <=? _); [done |]. rewrite IH. apply Permutation_swap.
Qed.

Lemma filter_partition {A} (p : A -> bool) (l : list A) :
  List.filter p l ++ List.filter (fun x => negb (p x)) l ≡ₚ l.
Proof.
  induction l as [|x l IH]; simpl; [done |]. destruct (p x); simpl.
  - by rewrite IH.
  - by rewrite <- Permutation_middle, IH.
Qed.

(** The enumeration visits every group once. *)
Lemma keys_permutation {A} (groups : list (string * A)) :
  keys groups ≡ₚ fst <$> groups.
Proof.
  unfold keys. rewrite <- (filter_partition is_index (fst <$> groups)) at 3.
  apply Permutation_app_tail.
  induction (List.filter is_index (fst <$> groups)) as [|k l IH]; simpl; [done |].
  by rewrite insert_by_index_permutation, IH.
Qed.

End GroupingFacts.

Section Report.
Context `{World}.

Lemma print_all_nil st : print_all [] st = st.
Proof. destruct st. unfold print_all. simpl. by rewrite app_nil_r. Qed.

Lemma print_all_app a b st : print_all b (print_all a st) = print_all (a ++ b) st.
Proof. unfold print_all. simpl. by rewrite app_assoc. Qed.

Lemma print_run c st : print c st = (Ok tt, print_all [c] st).
Proof. reflexivity. Qed.

(** A loop whose body prints the lines [lines x]. *)
Lemma for_each_print_all {A} (items : list A) (lines : A -> list console_call)
    (body : A -> M unit) :
  (forall x st, body x st = (Ok tt, print_all (lines x) st)) ->
  forall st, for_each items body st = (Ok tt, print_all (flat_map lines items) st).
Proof.
  intros B. induction items as [|x items IH]; intros st; simpl.
  - by rewrite print_all_nil.
  - by rewrite bind_run, B, IH, print_all_app.
Qed.

Lemma flat_map_singleton {A B} (f : A -> B) (l : list A) :
  flat_map (fun x => [f x]) l = map f l.
Proof. induction l as [|x l IH]; simpl; [done | by rewrite IH]. Qed.

Lemma report_group_run groups key st :
  report_group groups key st =
  (Ok tt,
   print_all (Info ("  " +:+ key +:+ ":") ::
              map (fun issue => Info ("   - " +:+ error issue))
                  (default [] (Groups.lookup key groups))) st).
Proof.
  unfold report_group. rewrite bind_run, print_run.
  rewrite (for_each_print_all _ (fun issue => [Info ("   - " +:+ error issue)])); [| done].
  by rewrite print_all_app, flat_map_singleton.
Qed.

(** The end of the script on a given state. *)
Lemma report_run st :
  report st =
  if decide (errors st = []) then
    (Ok 0, print_all [Info "Validation completed without errors."] st)
  else
    match Groups.groupBy (errors st) with
    | Ok groups =>
        (Ok 1, print_all (Warn "Validation completed with errors." ::
                          report_lines (Groups.keys groups) (errors st)) st)
    | Throw ex => (Throw ex, print_all [Warn "Validation completed with errors."] st)
    end.
Proof.
  unfold report. rewrite bind_run. unfold read_errors.
  destruct (decide (errors st = [])) as [E|N].
  - by rewrite E.
  - assert ((0 <? Z.of_nat (List.length (errors st))) = true) as ->.
    { apply Z.ltb_lt. destruct (errors st); [done | simpl; lia]. }
    rewrite bind_run, print_run, bind_run, lift_run.
    destruct (Groups.groupBy (errors st)) as [groups|ex] eqn:G; [| done].
    apply GroupingFacts.groupBy_inv in G as (_ & _ & L).
    rewrite bind_run.
    rewrite (for_each_print_all _
               (fun key => Info ("  " +:+ key +:+ ":") ::
                  map (fun issue => Info ("   - " +:+ error issue))
                      (filed key (errors st)))).
    + simpl. by rewrite print_all_app.
    + intros key st'. rewrite report_group_run. by rewrite L.
Qed.

(** The report leaves the error list as it is. *)
Lemma report_errors st : errors (snd (report st)) = errors st.
Proof.
  rewrite report_run. destruct (decide (errors st = [])); [done |].
  by destruct (Groups.groupBy (errors st)).
Qed.

(** The script after the listing of the game folders. *)
Lemma main_listed games st :
  getDirectories (directory config) = Ok games ->
  for_each games validateGame initial = (Ok tt, st) ->
  main initial = report st.
Proof. intros G L. unfold main. rewrite bind_run, G. simpl. by rewrite bind_run, L. Qed.


(** When the game folders cannot be listed, the exception is caught by
    nothing: the script ends before any game is validated and before the
    report. *)
Lemma main_uncaught ex :
  getDirectories (directory config) = Throw ex -> main initial = (Throw ex, initial).
Proof. intros G. unfold main. by rewrite bind_run, G. Qed.

End Report.



(** ** A run with an image of no known format

    The box art has the wrong size and the icon holds two zero bytes: the
    size error of the box art is kept, the exception of the icon is printed
    and ends the checks of the game (its metadata and saves are not looked
    at), and the run ends with status 1. *)
Example run_with_unclassified_icon :
  @main (Sample.world
           (<["../g/icon.png" := File [x00; x00]]>
              (<["../g/boxart.png" := File (Sample.png_file 100 100)]> Sample.good_fs)) [])
        initial =
  (Ok 1,
   {| currentGame := Some "g";
      errors :=
        [{| game := Some "g";
            error := "Image " +:+ Str.quote +:+ "../g/boxart.png" +:+ Str.quote +:+
                     "'s dimensions are 100 x 100 instead of the required 328 x 300." |}];
      console :=
        [Warn "g has encountered an unexpected error.";
         Error (TypeError "cannot read property mime of null");
         Warn "Validation completed with errors.";
         Info "  g:";
         Info ("   - Image " +:+ Str.quote +:+ "../g/boxart.png" +:+ Str.quote +:+
               "'s dimensions are 100 x 100 instead of the required 328 x 300.")] |}).
Proof. by vm_compute. Qed.

(** ** Documents that validate without an exception

    The checks of a document throw only where a pattern is matched against
    a value that is not a string.  On a document whose releases and test
    cases are lists of entries with strings in those places, they return
    normally, so the hypothesis of C1 holds for every such document. *)

Section Returns.

Lemma returns_ret {A} (a : A) : returns (mret a).
Proof. intros st. by eexists _, _. Qed.

Lemma returns_validationError err : returns (validationError err).
Proof. intros st. by eexists _, _. Qed.

Lemma returns_bind {A B} (m : M A) (f : A -> M B) :
  returns m -> (forall a, returns (f a)) -> returns (m ≫= f).
Proof.
  intros Hm Hf st. destruct (Hm st) as (a & st1 & E).
  rewrite (bind_ok _ _ _ _ _ E). apply Hf.
Qed.

Lemma returns_when cond body : returns body -> returns (when cond body).
Proof. intros Hb. destruct cond; [done | apply returns_ret]. Qed.

Lemma returns_for_each {A} (items : list A) (body : A -> M unit) :
  Forall (fun x => returns (body x)) items -> returns (for_each items body).
Proof.
  induction 1 as [|x items Hx F IH]; simpl; [apply returns_ret |].
  apply returns_bind; [done | by intros _].
Qed.

Lemma returns_for_entries {L} (section : list value)
    (body : nat -> value -> L -> M L) :
  Forall (fun entry => forall i acc, returns (body i entry acc)) section ->
  forall i acc, returns (for_entries i section body acc).
Proof.
  induction 1 as [|entry rest He F IH]; intros i acc; simpl; [apply returns_ret |].
  apply returns_bind; [apply He | intros acc'; apply IH].
Qed.

End Returns.

Section PlainDocuments.
Context `{World}.

Lemma returns_validateContents struct name field test :
  get struct name = Ok field ->
  (is_undefined field = false -> returns (test field)) ->
  returns (validateContents struct name test).
Proof.
  intros E Ht st. destruct (is_undefined field) eqn:U.
  - destruct field; try discriminate.
    rewrite (validateContents_missing _ _ _ _ E). by eexists _, _.
  - rewrite (validateContents_present _ _ _ _ _ E U). by apply Ht.
Qed.

Lemma returns_validateNotEmpty struct name field :
  get struct name = Ok field -> returns (validateNotEmpty struct name).
Proof.
  intros E. unfold validateNotEmpty. apply (returns_validateContents _ _ _ _ E).
  intros _. destruct (negb _); [apply returns_validationError |].
  destruct (is_string "" field); [apply returns_validationError | apply returns_ret].
Qed.

Lemma returns_validateIsDate struct name :
  string_or_missing struct name -> returns (validateIsDate struct name).
Proof.
  intros (v & E & [-> | [s ->]]); unfold validateIsDate;
    apply (returns_validateContents _ _ _ _ E); [done |].
  intros _. apply returns_bind; [intros st; by eexists _, _ |].
  intros matched. apply returns_when, returns_validationError.
Qed.

Lemma returns_check_title_id prefix s : returns (check_title_id prefix (VString s)).
Proof. intros st. rewrite check_title_id_string. by eexists _, _. Qed.

Lemma returns_check_version i s : returns (check_version i (VString s)).
Proof.
  unfold check_version. apply returns_bind; [intros st; by eexists _, _ |].
  intros len. destruct (negb _); [apply returns_validationError |].
  apply returns_bind; [intros st; by eexists _, _ |].
  intros known. apply returns_when, returns_validationError.
Qed.

Lemma returns_check_release i release :
  plain_release release -> returns (check_release i release).
Proof.
  intros [(title & Et & Ht) Hd]. unfold check_release.
  destruct (get_total _ _ _ "region" Et) as [region Er].
  apply returns_bind; [| intros _; apply returns_bind; [| intros _]].
  - apply (returns_validateContents _ _ _ _ Et).
    destruct Ht as [-> | [s ->]]; [done | intros _; apply returns_check_title_id].
  - apply (returns_validateContents _ _ _ _ Er). intros _.
    apply returns_when, returns_validationError.
  - by apply returns_validateIsDate.
Qed.

Lemma returns_check_testcase i testcase maxCompatibility :
  plain_testcase testcase -> returns (check_testcase i testcase maxCompatibility).
Proof.
  intros [Hd (version & Ev & Hv)]. unfold check_testcase.
  destruct (get_total _ _ _ "compatibility" Ev) as [compatibility Ec].
  destruct (get_total _ _ _ "author" Ev) as [author Ea].
  apply returns_bind; [by apply returns_validateNotEmpty with compatibility | intros _].
  apply returns_bind; [intros st; rewrite Ec; by eexists _, _ | intros c].
  apply returns_bind; [by apply returns_validateIsDate | intros _].
  apply returns_bind; [| intros _].
  - apply (returns_validateContents _ _ _ _ Ev).
    destruct Hv as [-> | [s ->]]; [done | intros _; apply returns_check_version].
  - apply returns_bind; [by apply returns_validateNotEmpty with author | intros _].
    apply returns_ret.
Qed.

Lemma returns_check_header tomlDoc field :
  get tomlDoc "releases" = Ok field -> returns (check_header tomlDoc).
Proof.
  intros E. unfold check_header, validate_github_issues.
  destruct (get_total _ _ _ "title" E) as [title Et].
  destruct (get_total _ _ _ "description" E) as [description Ed].
  destruct (get_total _ _ _ "github_issues" E) as [issues Ei].
  apply returns_bind; [by apply returns_validateNotEmpty with title | intros _].
  apply returns_bind; [by apply returns_validateNotEmpty with description | intros _].
  apply returns_bind; [intros st; rewrite Ei; by eexists _, _ | intros issues'].
  apply returns_when. destruct (get_total _ _ _ "github_issues" E) as [v Ev].
  apply (returns_validateContents _ _ _ _ Ev). intros _.
  unfold check_github_issues. destruct (negb _); [apply returns_validationError |].
  apply returns_for_each, Forall_forall. intros entry _.
  apply returns_when, returns_validationError.
Qed.

(** On a document of the expected types the checks return normally. *)
Theorem validateDocument_returns tomlDoc :
  plain_document tomlDoc -> returns (validateDocument tomlDoc).
Proof.
  intros [R T]. unfold validateDocument.
  assert (exists field, get tomlDoc "releases" = Ok field) as [r Er]
    by (destruct R as [E | (items & E & _)]; eauto).
  assert (exists field, get tomlDoc "testcases" = Ok field) as [t Et]
    by (destruct T as [E | (items & E & _)]; eauto).
  apply returns_bind; [by apply returns_check_header with r | intros _].
  apply returns_bind; [| intros _; apply returns_bind; [| intros m]].
  - unfold check_releases. intros st. rewrite bind_run.
    destruct R as [E | (items & E & F)]; rewrite E; simpl; [by eexists _, _ |].
    apply returns_for_entries. eapply Forall_impl; [exact F |].
    intros release P i []. by apply returns_check_release.
  - unfold check_testcases. intros st. rewrite bind_run.
    destruct T as [E | (items & E & F)]; rewrite E; simpl; [by eexists _, _ |].
    apply returns_for_entries. eapply Forall_impl; [exact F |].
    intros testcase P i acc. by apply returns_check_testcase.
  - intros st. rewrite (check_resources_run _ _ _ _ Et). by eexists _, _.
Qed.

End PlainDocuments.

(** The complete sample document is of the expected types. *)
Lemma validateDocument_returns_sample :
  exists st, @validateDocument Sample.good_world Sample.good_doc initial = (Ok tt, st).
Proof.
  destruct (@validateDocument_returns Sample.good_world Sample.good_doc)
    with (st := initial) as ([] & st & E); [| by exists st].
  split; right; eexists; (split; [by vm_compute |]);
    (apply Forall_cons_2; [| apply Forall_nil_2]);
    split; eexists; (split; [by vm_compute | right; by eexists]).
Qed.

(** ** The loop over a table

    A table read as a section is cut at [size fields + 1] indices.  That
    loses nothing: some index up to [size fields] is not a field of the
    table, and if the length reaches beyond the cut, the loop meets that
    hole, where the body throws. *)

Section TableEntries.
Context `{World}.

Lemma index_lt_antitone (i j : nat) (n : number) :
  (i <= j)%nat -> index_lt j n = true -> index_lt i n = true.
Proof.
  intros L. destruct n as [|q|upwards]; simpl; [done | | done].
  rewrite !negb_true_iff, <- !not_true_iff_false, !Qle_bool_iff.
  intros N Q. apply N. eapply Qle_trans; [exact Q |].
  rewrite <- Zle_Qle. lia.
Qed.

Lemma table_hole (fields : gmap string value) :
  exists i, (i <= size fields)%nat /\ fields !! pretty i = None.
Proof.
  destruct (decide (Forall (fun i : nat => is_Some (fields !! pretty i))
                      (seq 0 (S (size fields))))) as [F|N].
  - exfalso.
    assert (list_to_set (pretty <$> seq 0 (S (size fields))) ⊆ dom fields) as S.
    { intros k (i & -> & I)%elem_of_list_to_set%list_elem_of_fmap.
      apply elem_of_dom. by eapply Forall_forall in F. }
    apply subseteq_size in S. rewrite size_dom, size_list_to_set in S.
    + rewrite length_fmap, length_seq in S. lia.
    + apply NoDup_fmap_2; [apply _ | apply NoDup_seq].
  - apply not_Forall_Exists in N; [| apply _].
    apply Exists_exists in N as (i & I & Hn). exists i. split.
    + apply elem_of_seq in I. lia.
    + by apply eq_None_not_Some.
Qed.

(** A length beyond the cut: the loop meets an undefined entry. *)
Lemma entries_table_hole (fields : gmap string value) :
  index_lt (size fields) (ToNumber (default VUndefined (fields !! "length"))) = true ->
  VUndefined ∈ entries (VTable fields).
Proof.
  intros B. destruct (table_hole fields) as (i & L & N).
  unfold entries. apply list_elem_of_fmap. exists i. split.
  - simpl. by rewrite N.
  - apply list_elem_of_filter. split.
    + apply Is_true_true. by apply index_lt_antitone with (size fields).
    + apply elem_of_seq. lia.
Qed.

(** On an undefined entry the body of either loop throws at once. *)
Lemma check_release_undefined i st :
  exists ex, check_release i VUndefined st = (Throw ex, st).
Proof. by eexists. Qed.

Lemma check_testcase_undefined i maxCompatibility st :
  exists ex, check_testcase i VUndefined maxCompatibility st = (Throw ex, st).
Proof. by eexists. Qed.

End TableEntries.

(** * Further properties of the code *)

(** ** Listing a folder *)

Section ListingFacts.
Context `{World}.

Lemma getDirectories_resolved (dir : string) (names : list string) :
  files !! dir = Some (Directory names) ->
  Forall (fun name => is_Some (files !! (dir +:+ "/" +:+ name))) names ->
  getDirectories dir = Ok (List.filter (is_directory_at dir) names).
Proof.
  intros D F. unfold getDirectories, readdirSync, stat. rewrite D. simpl.
  apply filter_throwing_total. eapply Forall_impl; [exact F |].
  intros name [node E]. unfold isDirectory, is_directory_at. rewrite E.
  by destruct node.
Qed.

Lemma getFiles_resolved (dir : string) (names : list string) :
  files !! dir = Some (Directory names) ->
  Forall (fun name => is_Some (files !! (dir +:+ "/" +:+ name))) names ->
  getFiles dir = Ok (List.filter (is_file_at dir) names).
Proof.
  intros D F. unfold getFiles, readdirSync, stat. rewrite D. simpl.
  apply filter_throwing_total. eapply Forall_impl; [exact F |].
  intros name [node E]. unfold isFile, is_file_at. rewrite E.
  by destruct node.
Qed.

(** [getDirectories] and [getFiles] on a folder whose listed names all
    resolve: the first returns the entries that are folders and the second
    those that are regular files, each in the order of the listing.  No
    entry is in both.  The entries in neither are the symbolic links and
    the special files: a link is looked at itself, so a link to a folder
    is no folder for [getDirectories] and a link to a file is no file for
    [getFiles]. *)
Theorem listing_split (dir : string) (names : list string) :
  files !! dir = Some (Directory names) ->
  Forall (fun name => is_Some (files !! (dir +:+ "/" +:+ name))) names ->
  getDirectories dir = Ok (List.filter (is_directory_at dir) names) /\
  getFiles dir = Ok (List.filter (is_file_at dir) names) /\
  List.filter (is_directory_at dir) names ++ List.filter (is_file_at dir) names ++
    List.filter (is_other_at dir) names ≡ₚ names /\
  (forall name, is_directory_at dir name = true -> is_file_at dir name = false) /\
  (forall name target,
     files !! (dir +:+ "/" +:+ name) = Some (Link target) ->
     is_directory_at dir name = false /\ is_file_at dir name = false).
Proof.
  intros D F. split; [| split; [| split; [| split]]].
  - by apply getDirectories_resolved.
  - by apply getFiles_resolved.
  - clear D. induction F as [|name names [node E] F IH]; [done |].
    cbn [List.filter]. unfold is_directory_at at 1, is_file_at at 1, is_other_at at 1.
    rewrite E. destruct node; cbn [app].
    + by rewrite <- Permutation_middle, IH.
    + by rewrite IH.
    + by rewrite app_assoc, <- Permutation_middle, <- app_assoc, IH.
    + by rewrite app_assoc, <- Permutation_middle, <- app_assoc, IH.
  - intros name. unfold is_directory_at, is_file_at.
    by destruct (files !! (dir +:+ "/" +:+ name)) as [[]|].
  - intros name target E. unfold is_directory_at, is_file_at. by rewrite E.
Qed.

(** A listed name that does not resolve makes either listing throw. *)
Theorem listing_dangling (dir : string) (names : list string) (name : string) :
  files !! dir = Some (Directory names) ->
  name ∈ names ->
  files !! (dir +:+ "/" +:+ name) = None ->
  (exists ex, getDirectories dir = Throw ex) /\ (exists ex, getFiles dir = Throw ex).
Proof.
  intros D I N.
  assert (forall pred : string -> outcome bool,
            pred name = Throw (SystemError "ENOENT" (dir +:+ "/" +:+ name)) ->
            exists ex, filter_throwing pred names = Throw ex) as G.
  { intros pred P. clear D. induction names as [|x names IH].
    - by apply elem_of_nil in I.
    - simpl. destruct (decide (x = name)) as [->|Hne].
      + rewrite P. simpl. eauto.
      + apply elem_of_cons in I as [-> | I]; [done |].
        destruct (pred x) as [keep|ex]; simpl; [| eauto].
        destruct (IH I) as [ex ->]. simpl. eauto. }
  split.
  - unfold getDirectories, readdirSync, stat. rewrite D. simpl.
    apply G. unfold isDirectory. by rewrite N.
  - unfold getFiles, readdirSync, stat. rewrite D. simpl.
    apply G. unfold isFile. by rewrite N.
Qed.

End ListingFacts.

(** The root of the sample wiki with a link to the folder of the game:
    the link is listed by neither. *)
Lemma listing_split_witness :
  let world :=
    Sample.world
      (<[".." := Directory [".git"; "g"; "latest"; "README.md"]]>
         (<["../latest" := Link (Ok (Directory ["boxart.png"]))]> Sample.good_fs)) [] in
  @getDirectories world ".." = Ok [".git"; "g"] /\
  @getFiles world ".." = Ok ["README.md"].
Proof.
  destruct (@listing_split
              (Sample.world
                 (<[".." := Directory [".git"; "g"; "latest"; "README.md"]]>
                    (<["../latest" := Link (Ok (Directory ["boxart.png"]))]>
                       Sample.good_fs)) [])
              ".." [".git"; "g"; "latest"; "README.md"])
    as (D & F & _).
  - by vm_compute.
  - repeat (apply Forall_cons_2; [eexists; by vm_compute |]). apply Forall_nil_2.
  - split; [exact D | exact F].
Defined.

(** The saves folder of the sample game after [a.dat] has gone. *)
Lemma listing_dangling_witness :
  exists ex,
    @getFiles (Sample.world (delete "../g/savefiles/a.dat" Sample.good_fs) [])
      "../g/savefiles" = Throw ex.
Proof.
  refine (proj2 (@listing_dangling
                   (Sample.world (delete "../g/savefiles/a.dat" Sample.good_fs) [])
                   "../g/savefiles" ["a.dat"; "a.zip"] "a.dat" _ _ _)).
  - by vm_compute.
  - left.
  - by vm_compute.
Defined.

(** ** Images *)

Section ImageFacts.
Context `{World}.

Lemma record_all_app errs1 errs2 st :
  record_all (errs1 ++ errs2) st = record_all errs2 (record_all errs1 st).
Proof. unfold record_all. by rewrite fold_left_app. Qed.

Lemma when_cases (cond : bool) err st :
  when cond (validationError err) st = (Ok tt, record_all (if cond then [err] else []) st).
Proof. by destruct cond. Qed.

(** On an image that exists, is recognised and can be measured, the format
    and the size are checked one after the other, whatever the first check
    finds: the errors are the format error, if the type is not the required
    one, followed by the size error, if the width or the height is not the
    required one.  Nothing is recorded exactly when all three agree. *)
Theorem validateImage_checks (path : string) (config : image_config)
    (content : list byte) (actual : string) (w h : Z) (st : state) :
  files !! path = Some (File content) ->
  imageType (take 12 content) = Some actual ->
  image_size content = Ok (w, h) ->
  validateImage path config st =
    (Ok tt, record_all (format_errors actual config ++
                        dimension_errors path w h config) st) /\
  (format_errors actual config ++ dimension_errors path w h config = [] <->
   actual = type config /\ w = width config /\ h = height config).
Proof.
  intros F T S. split.
  - unfold validateImage. rewrite (existsSync_file _ _ F). simpl.
    rewrite bind_run, (readChunk_file _ _ _ F), lift_run. lazy beta iota.
    rewrite bind_run, T, lift_run. simpl mime. lazy beta iota.
    rewrite bind_run, when_cases. lazy beta iota.
    rewrite bind_run. unfold sizeOf, readFileSync, stat. rewrite F. simpl mbind.
    rewrite S, lift_run. lazy beta iota. rewrite when_cases, record_all_app.
    unfold format_errors, dimension_errors. simpl fst. simpl snd.
    destruct (String.eqb actual (type config)), (w =? width config),
      (h =? height config); reflexivity.
  - unfold format_errors, dimension_errors.
    destruct (String.eqb_spec actual (type config)) as [Et|Nt];
      destruct (Z.eqb_spec w (width config)) as [Ew|Nw];
      destruct (Z.eqb_spec h (height config)) as [Eh|Nh]; simpl;
      split; try done; intros (? & ? & ?); done.
Qed.

(** When the size of a recognised image cannot be read, the exception of
    the decoder leaves [validateImage]; a format error recorded before it
    is kept. *)
Theorem validateImage_size_failure (path : string) (config : image_config)
    (content : list byte) (actual : string) (ex : exn) (st : state) :
  files !! path = Some (File content) ->
  imageType (take 12 content) = Some actual ->
  image_size content = Throw ex ->
  validateImage path config st =
    (Throw ex, record_all (format_errors actual config) st).
Proof.
  intros F T S. unfold validateImage. rewrite (existsSync_file _ _ F). simpl.
  rewrite bind_run, (readChunk_file _ _ _ F), lift_run. lazy beta iota.
  rewrite bind_run, T, lift_run. simpl mime. lazy beta iota.
  rewrite bind_run, when_cases. lazy beta iota.
  rewrite bind_run. unfold sizeOf, readFileSync, stat. rewrite F. simpl mbind.
  rewrite S, lift_run. lazy beta iota. unfold format_errors.
  by destruct (String.eqb actual (type config)).
Qed.

(** In a folder of images only the regular files are validated, in the
    order of the listing; a sub-folder is passed over. *)
Theorem validateDirImages_files (path : string) (config : image_config)
    (names : list string) (st : state) :
  files !! path = Some (Directory names) ->
  Forall (fun name => is_Some (files !! (path +:+ "/" +:+ name))) names ->
  validateDirImages path config st =
  for_each (List.filter (is_file_at path) names)
    (fun file => validateImage (path +:+ "/" +:+ file) config) st.
Proof.
  intros D F. unfold validateDirImages. rewrite (existsSync_directory _ _ D). simpl.
  by rewrite (getFiles_resolved path names D F), bind_run.
Qed.

End ImageFacts.

(** A box art of 100 x 100 in the sample game: the size error alone. *)
Lemma validateImage_checks_witness :
  @validateImage
    (Sample.world (<["../g/boxart.png" := File (Sample.png_file 100 100)]> Sample.good_fs) [])
    "../g/boxart.png" (boxart Sample.sample_config) initial =
  (Ok tt,
   record_all (format_errors "image/png" (boxart Sample.sample_config) ++
               dimension_errors "../g/boxart.png" 100 100 (boxart Sample.sample_config))
     initial).
Proof.
  refine (proj1 (@validateImage_checks
            (Sample.world
               (<["../g/boxart.png" := File (Sample.png_file 100 100)]> Sample.good_fs) [])
            "../g/boxart.png" (boxart Sample.sample_config)
            (Sample.png_file 100 100) "image/png" 100 100 initial _ _ _));
    by vm_compute.
Defined.

(** An icon that is recognised as a PNG by another parser than the one that
    measures it. *)
Lemma validateImage_size_failure_witness :
  @validateImage
    {| config := Sample.sample_config;
       files := {["icon.png" := File [x47; x49; x46]]};
       imageType := fun _ => Some "image/gif";
       image_size := Sample.sample_image_size;
       toml_parse := Sample.sample_parse [];
       float_to_string := fun _ => "NaN";
       date_to_string := fun _ => "Invalid Date";
       string_to_number := fun _ => NaN |}
    "icon.png" (icon Sample.sample_config) initial =
  (Throw (DecodeError "unsupported file type"),
   record_all (format_errors "image/gif" (icon Sample.sample_config)) initial).
Proof.
  refine (@validateImage_size_failure _ "icon.png" (icon Sample.sample_config)
            [x47; x49; x46] "image/gif" (DecodeError "unsupported file type")
            initial _ _ _); by vm_compute.
Defined.

(** A screenshots folder with one image and one sub-folder. *)
Lemma validateDirImages_files_witness :
  let world :=
    Sample.world
      (list_to_map [("shots", Directory ["1.png"; "old"]);
                    ("shots/1.png", File (Sample.png_file 400 240));
                    ("shots/old", Directory [])]) [] in
  @validateDirImages world "shots" (screenshots Sample.sample_config) initial =
  for_each (List.filter (@is_file_at world "shots") ["1.png"; "old"])
    (fun file => @validateImage world ("shots" +:+ "/" +:+ file)
                   (screenshots Sample.sample_config)) initial.
Proof.
  refine (@validateDirImages_files _ "shots" (screenshots Sample.sample_config)
            ["1.png"; "old"] initial _ _).
  - by vm_compute.
  - repeat (apply Forall_cons_2; [eexists; by vm_compute |]). apply Forall_nil_2.
Defined.

(** ** The checks of a field *)

Section FieldChecks.
Context `{World}.

Lemma validateContents_run struct name field test st :
  get struct name = Ok field ->
  validateContents struct name test st =
  if is_undefined field then (Ok tt, record (missing_error name) st)
  else test field st.
Proof.
  intros E. destruct (is_undefined field) eqn:U.
  - destruct field; try discriminate. by apply validateContents_missing.
  - by apply validateContents_present.
Qed.

Lemma validateNotEmpty_run struct name field st :
  get struct name = Ok field ->
  validateNotEmpty struct name st = (Ok tt, record_all (not_empty_errors name field) st).
Proof.
  intros E. unfold validateNotEmpty. rewrite (validateContents_run _ _ _ _ _ E).
  destruct field as [|s| | | | |]; try reflexivity.
  simpl. unfold not_empty_errors. by destruct (String.eqb s "").
Qed.

Lemma not_empty_errors_nil name field :
  not_empty_errors name field = [] <-> exists s, field = VString s /\ s <> "".
Proof.
  destruct field as [|s| | | | |]; simpl; try (split; [done | by intros (? & ? & ?)]).
  destruct (String.eqb_spec s "") as [->|N].
  - split; [done | intros (? & [= <-] & ?); done].
  - split; [eauto | done].
Qed.

Lemma validateIsDate_run struct name field st :
  get struct name = Ok field ->
  field = VUndefined \/ (exists s, field = VString s) ->
  validateIsDate struct name st = (Ok tt, record_all (date_errors name field) st).
Proof.
  intros E P. unfold validateIsDate. rewrite (validateContents_run _ _ _ _ _ E).
  destruct P as [-> | [s ->]]; [done |].
  simpl. rewrite bind_run. simpl. by destruct (Regex.test _ s).
Qed.

Lemma check_title_id_run name prefix s st :
  check_title_id prefix (VString s) st =
  (Ok tt, record_all (title_id_errors name prefix (VString s)) st).
Proof.
  rewrite check_title_id_string. simpl.
  destruct (negb _); [done |]. by destruct (Regex.test _ s).
Qed.

Lemma check_version_run i s st :
  check_version i (VString s) st =
  (Ok tt, record_all (version_errors i (VString s)) st).
Proof.
  unfold check_version. rewrite bind_run. simpl. rewrite Qeq_bool_inject.
  destruct (Str.length s =? 12); simpl; [| done].
  rewrite bind_run. simpl. by destruct (Str.startsWith "HEAD-" s).
Qed.

(** The check of a field that must be a non-empty string, on a structure
    that can be read: a missing field, a value that is not a string and the
    empty string each record their own single error, and nothing is
    recorded exactly for a non-empty string.  The check never throws. *)
Theorem validateNotEmpty_cases (struct : value) (name : string) (field : value)
    (st : state) :
  get struct name = Ok field ->
  validateNotEmpty struct name st =
    (Ok tt, record_all (not_empty_errors name field) st) /\
  (not_empty_errors name field = [] <-> exists s, field = VString s /\ s <> "").
Proof.
  intros E. split; [by apply validateNotEmpty_run | apply not_empty_errors_nil].
Qed.

(** The date check has no test of the type: on a field that is there and
    is not a string it throws, and records nothing. *)
Theorem validateIsDate_not_a_string (struct : value) (name : string) (field : value)
    (st : state) :
  get struct name = Ok field ->
  is_undefined field = false ->
  (forall s, field <> VString s) ->
  validateIsDate struct name st = (Throw (TypeError "match is not a function"), st).
Proof.
  intros E U N. unfold validateIsDate.
  rewrite (validateContents_present _ _ _ _ _ E U), bind_run.
  destruct field as [|s| | | | |]; try reflexivity. by destruct (N s).
Qed.

(** The identifier check on a value that is not a string: whatever has no
    length of 16 is reported for its length, and a list of 16 elements
    passes the length test and makes the pattern match throw. *)
Theorem check_title_id_not_a_string (prefix : string) (field len : value) (st : state) :
  get field "length" = Ok len ->
  (forall s, field <> VString s) ->
  check_title_id prefix field st =
  if is_number 16 len then (Throw (TypeError "match is not a function"), st)
  else (Ok tt, record (prefix +:+ ": Game title ID has an invalid length") st).
Proof.
  intros E N. unfold check_title_id. rewrite bind_run, E, lift_run. lazy beta iota.
  destruct (is_number 16 len); cbn [negb]; [| reflexivity].
  rewrite bind_run. destruct field as [|s| | | | |]; try reflexivity.
  by destruct (N s).
Qed.

Lemma record_all_errors errs st :
  errors (record_all errs st) =
  errors st ++ map (fun err => {| game := currentGame st; error := err |}) errs.
Proof.
  revert st. induction errs as [|err errs IH]; intros st; simpl.
  - by rewrite app_nil_r.
  - change (record_all (err :: errs) st) with (record_all errs (record err st)).
    rewrite IH. simpl. by rewrite <- app_assoc.
Qed.

Lemma record_all_unchanged errs st : record_all errs st = st <-> errs = [].
Proof.
  split; [| by intros ->].
  intros E. apply (f_equal (fun s => List.length (errors s))) in E.
  rewrite record_all_errors, length_app, length_map in E.
  destruct errs; [done | simpl in E; lia].
Qed.

Lemma version_errors_nil i field :
  version_errors i field = [] <->
  exists rest, field = VString ("HEAD-" +:+ rest) /\ String.length rest = 7%nat.
Proof.
  destruct field as [|s| | | | |]; try (split; [done | by intros (? & ? & ?)]).
  unfold version_errors, Str.length, Str.startsWith.
  destruct (Z.eqb_spec (Z.of_nat (String.length s)) 12) as [L|L]; simpl.
  - destruct (String.prefix "HEAD-" s) eqn:P.
    + split; [intros _ | done].
      destruct s as [|c1 [|c2 [|c3 [|c4 [|c5 rest]]]]]; try discriminate.
      simpl in P.
      repeat match type of P with
             | (if ?d then _ else _) = true =>
                 destruct d as [?|]; [subst; simpl in P | discriminate]
             end.
      exists rest. split; [done |]. cbn [String.length] in L. lia.
    + split; [done |].
      intros (rest & [= ->] & _).
      rewrite !StrFacts.app_cons, StrFacts.app_nil_l in P. simpl in P.
      repeat match type of P with
             | (if ?d then _ else _) = false => destruct d; [simpl in P | done]
             end.
      by destruct rest.
  - split; [done |].
    intros (rest & [= ->] & R). rewrite StrFacts.app_length, R in L. by destruct L.
Qed.

(** A version passes exactly when it is [HEAD-] followed by seven
    characters. *)
Theorem check_version_accepts (i : nat) (s : string) (st : state) :
  check_version i (VString s) st = (Ok tt, st) <->
  exists rest, s = "HEAD-" +:+ rest /\ String.length rest = 7%nat.
Proof.
  rewrite check_version_run. split.
  - intros [= E]. apply record_all_unchanged in E.
    apply (proj1 (version_errors_nil i (VString s))) in E as (rest & [= ->] & L).
    eauto.
  - intros (rest & -> & L).
    assert (version_errors i (VString ("HEAD-" +:+ rest)) = []) as ->; [| done].
    apply version_errors_nil. eauto.
Qed.

End FieldChecks.

(** A description that is a number. *)
Lemma validateNotEmpty_cases_witness :
  validateNotEmpty (Sample.table [("description", VNumber (inject_Z 3))]) "description"
    initial =
  (Ok tt, record_all (not_empty_errors "description" (VNumber (inject_Z 3))) initial).
Proof.
  refine (proj1 (validateNotEmpty_cases
                   (Sample.table [("description", VNumber (inject_Z 3))]) "description"
                   (VNumber (inject_Z 3)) initial _)).
  by vm_compute.
Defined.

(** A release date written as a TOML date, which the parser reads as a
    Date and not as a string. *)
Lemma validateIsDate_not_a_string_witness :
  @validateIsDate Sample.good_world
    (Sample.table [("release_date", VDate 1322956800000)]) "release_date" initial =
  (Throw (TypeError "match is not a function"), initial).
Proof.
  refine (@validateIsDate_not_a_string Sample.good_world
            (Sample.table [("release_date", VDate 1322956800000)]) "release_date"
            (VDate 1322956800000) initial _ _ _); done.
Defined.

(** A title written as a number, and a title that is a list of sixteen
    elements. *)
Lemma check_title_id_not_a_string_witness :
  check_title_id "Release #1" (VNumber (inject_Z 4000000030800)) initial =
    (Ok tt, record ("Release #1" +:+ ": Game title ID has an invalid length") initial) /\
  check_title_id "Release #1" (VArray (replicate 16 (VString "0"))) initial =
    (Throw (TypeError "match is not a function"), initial).
Proof.
  split.
  - refine (check_title_id_not_a_string "Release #1" (VNumber (inject_Z 4000000030800))
              VUndefined initial _ _); done.
  - refine (check_title_id_not_a_string "Release #1" (VArray (replicate 16 (VString "0")))
              (VNumber (inject_Z 16)) initial _ _); done.
Defined.

(** ** The entries of a document *)

Section EntryChecks.
Context `{World}.

Lemma read_get struct name field : get struct name = Ok field -> read struct name = field.
Proof. unfold read. by intros ->. Qed.

Lemma title_run struct name prefix field st :
  get struct name = Ok field ->
  field = VUndefined \/ (exists s, field = VString s) ->
  validateContents struct name (check_title_id prefix) st =
  (Ok tt, record_all (title_id_errors name prefix field) st).
Proof.
  intros E P. rewrite (validateContents_run _ _ _ _ _ E).
  destruct P as [-> | [s ->]]; [done |]. apply check_title_id_run.
Qed.

Lemma version_run struct i field st :
  get struct "version" = Ok field ->
  field = VUndefined \/ (exists s, field = VString s) ->
  validateContents struct "version" (check_version i) st =
  (Ok tt, record_all (version_errors i field) st).
Proof.
  intros E P. rewrite (validateContents_run _ _ _ _ _ E).
  destruct P as [-> | [s ->]]; [done |]. apply check_version_run.
Qed.

Lemma region_run struct i field st :
  get struct "region" = Ok field ->
  validateContents struct "region" (fun field =>
    when (negb (existsb (fun region => is_string region field) (regions config)))
      (validationError (("Release #" +:+ pretty (i + 1)%nat) +:+ ": Invalid region " +:+
                        ToString field))) st =
  (Ok tt, record_all (region_errors i field) st).
Proof.
  intros E. rewrite (validateContents_run _ _ _ _ _ E). unfold region_errors.
  rewrite StrFacts.app_assoc.
  destruct field; try done;
    by destruct (existsb _ (regions config)).
Qed.

Lemma region_errors_nil i field :
  region_errors i field = [] <->
  exists region, field = VString region /\ region ∈ regions config.
Proof.
  unfold region_errors. split.
  - destruct field as [|s| | | | |]; [done | ..];
      (destruct (existsb _ (regions config)) eqn:X; [| done]); intros _;
      apply existsb_exists in X as (region & I & E); simpl in E; try discriminate E.
    apply String.eqb_eq in E as ->. exists region. split; [done |].
    by apply list_elem_of_In.
  - intros (region & -> & I%list_elem_of_In).
    assert (existsb (fun r => is_string r (VString region)) (regions config) = true)
      as ->; [| done].
    apply existsb_exists. exists region. split; [done | apply String.eqb_refl].
Qed.

Lemma check_release_run i release st :
  plain_release release ->
  check_release i release st = (Ok tt, record_all (release_errors i release) st).
Proof.
  intros [(title & Et & Ht) (date & Ed & Hd)].
  destruct (get_total _ _ _ "region" Et) as [region Er].
  unfold check_release, release_errors. cbv zeta.
  rewrite (read_get _ _ _ Et), (read_get _ _ _ Er), (read_get _ _ _ Ed).
  rewrite bind_run, (title_run _ _ _ _ _ Et Ht).
  rewrite bind_run, (region_run _ _ _ _ Er).
  rewrite (validateIsDate_run _ _ _ _ Ed Hd).
  by rewrite !record_all_app.
Qed.

Lemma check_testcase_run i testcase maxCompatibility st :
  plain_testcase testcase ->
  check_testcase i testcase maxCompatibility st =
  (Ok match parsed_compatibility testcase with
      | Some compat => Z.min compat maxCompatibility
      | None => maxCompatibility
      end,
   record_all (testcase_errors i testcase) st).
Proof.
  intros [(date & Ed & Hd) (version & Ev & Hv)].
  destruct (get_total _ _ _ "compatibility" Ev) as [compatibility Ec].
  destruct (get_total _ _ _ "author" Ev) as [author Ea].
  assert (exists m, check_testcase i testcase maxCompatibility st =
                    (Ok m, record_all (testcase_errors i testcase) st)) as [m E].
  { unfold check_testcase, testcase_errors.
    rewrite (read_get _ _ _ Ec), (read_get _ _ _ Ed), (read_get _ _ _ Ev),
      (read_get _ _ _ Ea).
    rewrite bind_run, (validateNotEmpty_run _ _ _ _ Ec).
    rewrite bind_run, Ec, lift_run.
    rewrite bind_run, (validateIsDate_run _ _ _ _ Ed Hd).
    rewrite bind_run, (version_run _ _ _ _ Ev Hv).
    rewrite bind_run, (validateNotEmpty_run _ _ _ _ Ea).
    rewrite !record_all_app. by eexists. }
  rewrite E. by rewrite (check_testcase_result _ _ _ _ _ _ E).
Qed.

(** The three fields of a release are checked independently of each other
    and in a fixed order: whatever the title is reported for, the region
    and the date are checked too, and the errors are those of the title,
    then of the region, then of the date.  A region passes only if it is a
    string equal to one of the configured regions. *)
Theorem check_release_errors (i : nat) (release : value) (st : state) :
  plain_release release ->
  check_release i release st =
    (Ok tt,
     record_all
       (title_id_errors "title" ("Release #" +:+ pretty (i + 1)%nat)
          (read release "title") ++
        region_errors i (read release "region") ++
        date_errors "release_date" (read release "release_date")) st) /\
  (region_errors i (read release "region") = [] <->
   exists region, read release "region" = VString region /\ region ∈ regions config).
Proof.
  intros P. split; [by apply check_release_run | apply region_errors_nil].
Qed.

(** The four fields of a test case are checked independently of each other
    and in a fixed order, and the running minimum takes the parsed
    compatibility: a test case reported for its compatibility is still
    checked for its date, its version and its author. *)
Theorem check_testcase_errors (i : nat) (testcase : value) (maxCompatibility : Z)
    (st : state) :
  plain_testcase testcase ->
  check_testcase i testcase maxCompatibility st =
  (Ok match parsed_compatibility testcase with
      | Some compat => Z.min compat maxCompatibility
      | None => maxCompatibility
      end,
   record_all
     (not_empty_errors "compatibility" (read testcase "compatibility") ++
      date_errors "date" (read testcase "date") ++
      version_errors i (read testcase "version") ++
      not_empty_errors "author" (read testcase "author")) st).
Proof. apply check_testcase_run. Qed.

End EntryChecks.

(** A release with a title of 15 characters, an unknown region and a
    thirteenth month: three errors. *)
Lemma check_release_errors_witness :
  @check_release Sample.good_world 0
    (Sample.table [("title", VString "000400000003080");
                   ("region", VString "MARS");
                   ("release_date", VString "2011-13-04")]) initial =
  (Ok tt,
   record_all
     ["Release #1: Game title ID has an invalid length";
      "Release #1: Invalid region MARS";
      Str.quote +:+ "release_date" +:+ Str.quote +:+ " is not a valid date (" +:+
      Str.quote +:+ "2011-13-04" +:+ Str.quote +:+ ")."] initial).
Proof.
  refine (proj1 (@check_release_errors Sample.good_world 0
                   (Sample.table [("title", VString "000400000003080");
                                  ("region", VString "MARS");
                                  ("release_date", VString "2011-13-04")]) initial _)).
  split; eexists; (split; [by vm_compute | right; by eexists]).
Defined.

(** A test case without compatibility and with a version of another
    source: two errors, and the running minimum is kept. *)
Lemma check_testcase_errors_witness :
  @check_testcase Sample.good_world 0
    (Sample.table [("date", VString "2017-05-31");
                   ("version", VString "v1.0-5ea9d8b");
                   ("author", VString "tester")]) 999 initial =
  (Ok 999,
   record_all
     ["Field " +:+ Str.quote +:+ "compatibility" +:+ Str.quote +:+ " missing";
      "Testcase #1: Unknown version commit source"] initial).
Proof.
  refine (@check_testcase_errors Sample.good_world 0
            (Sample.table [("date", VString "2017-05-31");
                           ("version", VString "v1.0-5ea9d8b");
                           ("author", VString "tester")]) 999 initial _).
  split; eexists; (split; [by vm_compute | right; by eexists]).
Defined.

(** ** The whole document *)

Section DocumentChecks.
Context `{World}.

Lemma issues_run tomlDoc field st :
  get tomlDoc "github_issues" = Ok field ->
  validate_github_issues tomlDoc st = (Ok tt, record_all (issues_errors field) st).
Proof.
  intros E. unfold validate_github_issues. rewrite bind_run, E, lift_run.
  destruct (is_undefined field) eqn:U; [by destruct field |].
  cbn [negb when]. rewrite (validateContents_present _ _ _ _ _ E U).
  unfold check_github_issues.
  destruct field; try done. cbn [isArray negb array_items issues_errors].
  apply for_each_when.
Qed.

Lemma check_header_run tomlDoc field st :
  get tomlDoc "releases" = Ok field ->
  check_header tomlDoc st =
  (Ok tt,
   record_all (not_empty_errors "title" (read tomlDoc "title") ++
               not_empty_errors "description" (read tomlDoc "description") ++
               issues_errors (read tomlDoc "github_issues")) st).
Proof.
  intros E. unfold check_header.
  destruct (get_total _ _ _ "title" E) as [title Et].
  destruct (get_total _ _ _ "description" E) as [description Ed].
  destruct (get_total _ _ _ "github_issues" E) as [issues Ei].
  rewrite (read_get _ _ _ Et), (read_get _ _ _ Ed), (read_get _ _ _ Ei).
  rewrite bind_run, (validateNotEmpty_run _ _ _ _ Et).
  rewrite bind_run, (validateNotEmpty_run _ _ _ _ Ed).
  rewrite (issues_run _ _ _ Ei). by rewrite !record_all_app.
Qed.

Lemma releases_loop_run releases :
  Forall plain_release releases ->
  forall i st,
    for_entries i releases (fun i release _ => check_release i release) tt st =
    (Ok tt, record_all (section_errors release_errors i releases) st).
Proof.
  induction 1 as [|release rest P F IH]; intros i st; [done |].
  cbn [for_entries section_errors].
  rewrite bind_run, (check_release_run _ _ _ P), IH. by rewrite record_all_app.
Qed.

Lemma testcases_loop_run testcases :
  Forall plain_testcase testcases ->
  forall i maxCompatibility st,
    for_entries i testcases check_testcase maxCompatibility st =
    (Ok (minimum maxCompatibility (parsed_compatibilities testcases)),
     record_all (section_errors testcase_errors i testcases) st).
Proof.
  intros F i maxCompatibility st.
  assert (exists m, for_entries i testcases check_testcase maxCompatibility st =
                    (Ok m, record_all (section_errors testcase_errors i testcases) st))
    as [m E].
  { revert i maxCompatibility st.
    induction F as [|testcase rest P F IH]; intros i maxCompatibility st; [by eexists |].
    cbn [for_entries section_errors].
    rewrite bind_run, (check_testcase_run _ _ _ _ P).
    destruct (IH (S i)
                (match parsed_compatibility testcase with
                 | Some compat => Z.min compat maxCompatibility
                 | None => maxCompatibility
                 end) (record_all (testcase_errors i testcase) st)) as [m E].
    rewrite E, record_all_app. by eexists. }
  rewrite E. by rewrite (testcases_loop_result _ _ _ _ _ _ E).
Qed.

Lemma check_releases_run tomlDoc st :
  plain_section plain_release tomlDoc "releases" ->
  check_releases tomlDoc st =
  (Ok tt,
   record_all
     (if is_undefined (read tomlDoc "releases") then ["No releases."]
      else section_errors release_errors 0 (entries (read tomlDoc "releases"))) st).
Proof.
  unfold check_releases. rewrite bind_run.
  intros [E | (releases & E & F)]; rewrite (read_get _ _ _ E), E, lift_run; [done |].
  cbn [is_undefined negb entries]. by apply releases_loop_run.
Qed.

Lemma check_testcases_run tomlDoc st :
  plain_section plain_testcase tomlDoc "testcases" ->
  check_testcases tomlDoc st =
  (Ok (minimum 999 (parsed_compatibilities (entries (read tomlDoc "testcases")))),
   record_all
     (if is_undefined (read tomlDoc "testcases") then ["No testcases."]
      else section_errors testcase_errors 0 (entries (read tomlDoc "testcases"))) st).
Proof.
  unfold check_testcases. rewrite bind_run.
  intros [E | (testcases & E & F)]; rewrite (read_get _ _ _ E), E, lift_run; [done |].
  cbn [is_undefined negb entries]. by apply testcases_loop_run.
Qed.

Lemma validateDocument_run tomlDoc st :
  plain_document tomlDoc ->
  validateDocument tomlDoc st = (Ok tt, record_all (document_errors tomlDoc) st).
Proof.
  intros [R T]. unfold validateDocument, document_errors.
  assert (exists field, get tomlDoc "releases" = Ok field) as [r Er]
    by (destruct R as [E | (items & E & _)]; eauto).
  assert (exists field, get tomlDoc "testcases" = Ok field) as [t Et]
    by (destruct T as [E | (items & E & _)]; eauto).
  rewrite bind_run, (check_header_run _ _ _ Er).
  rewrite bind_run, (check_releases_run _ _ R).
  rewrite bind_run, (check_testcases_run _ _ T).
  rewrite (check_resources_run _ _ _ _ Et), !record_all_app.
  destruct (_ <? 5); [by rewrite record_all_app | done].
Qed.

(** On a document whose releases and test cases are lists of plain
    entries, the checks never throw and do nothing but record errors: those
    of the header, then of each release in turn, then of each test case in
    turn, then of the resource flags, the last only if the least parsed
    compatibility is below 5.  No check depends on what an earlier one
    found. *)
Theorem validateDocument_errors (tomlDoc : value) (st : state) :
  plain_document tomlDoc ->
  validateDocument tomlDoc st = (Ok tt, record_all (document_errors tomlDoc) st).
Proof. apply validateDocument_run. Qed.

End DocumentChecks.

(** A sample document with one test case of compatibility 4 and no
    resource flags: the two flags are reported, nothing else. *)
Lemma validateDocument_errors_witness :
  @validateDocument Sample.good_world
    (Sample.doc_with_testcase
       (Sample.testcase_fields (VString "4") (VString "2017-05-31"))) initial =
  (Ok tt,
   record_all
     ["Field " +:+ Str.quote +:+ "needs_system_files" +:+ Str.quote +:+ " is not a boolean";
      "Field " +:+ Str.quote +:+ "needs_shared_font" +:+ Str.quote +:+ " is not a boolean"]
     initial).
Proof.
  refine (@validateDocument_errors Sample.good_world
            (Sample.doc_with_testcase
               (Sample.testcase_fields (VString "4") (VString "2017-05-31"))) initial _).
  split; right; eexists; (split; [by vm_compute |]);
    (apply Forall_cons_2; [| apply Forall_nil_2]);
    split; eexists; (split; [by vm_compute | right; by eexists]).
Defined.

(** ** The documents that pass *)

Section Acceptance.
Context `{World}.

Lemma date_errors_nil name field :
  date_errors name field = [] <-> exists s, field = VString s /\ Spec.contains_date s.
Proof.
  destruct field as [|s| | | | |]; try (split; [done | by intros (? & ? & ?)]).
  simpl. destruct (Regex.test Regex.date_pattern s) eqn:T.
  - split; [intros _ | done]. exists s. split; [done |].
    by apply DateFacts.test_date_pattern.
  - split; [done |]. intros (s' & [= <-] & C).
    apply DateFacts.test_date_pattern in C. congruence.
Qed.

Lemma title_id_errors_nil name prefix field :
  title_id_errors name prefix field = [] <->
  exists s, field = VString s /\ String.length s = 16%nat /\ Spec.alphanumeric s.
Proof.
  destruct field as [|s| | | | |]; try (split; [done | by intros (? & ? & ?)]).
  unfold title_id_errors, Str.length.
  destruct (Z.eqb_spec (Z.of_nat (String.length s)) 16) as [L|L]; simpl.
  - assert (String.length s = 16%nat) as L' by lia.
    destruct (Regex.test Regex.title_id_pattern s) eqn:T.
    + split; [intros _ | done]. exists s. split; [done |]. split; [done |].
      by apply (TitleIdFacts.test_title_id_pattern s L').
    + split; [done |]. intros (s' & [= <-] & _ & A).
      apply (TitleIdFacts.test_title_id_pattern s L') in A. congruence.
  - split; [done |]. intros (s' & [= <-] & L' & _). lia.
Qed.

Lemma issues_errors_nil field :
  issues_errors field = [] <->
  field = VUndefined \/
  exists issues, field = VArray issues /\
                 Forall (fun entry => exists q, entry = VNumber q) issues.
Proof.
  destruct field as [| | | | |items|];
    try (split; [done | intros [? | (? & ? & ?)]; done]).
  - split; [by left | done].
  - assert (replicate
              (List.length
                 (List.filter (fun entry => negb (String.eqb (typeof entry) "number")) items))
              "Github issues entry is not a number!" = [] <->
            Forall (fun entry => exists q, entry = VNumber q) items) as E.
    { induction items as [|entry items IH]; [done |].
      rewrite Forall_cons. destruct entry; simpl;
        try (split; [done | by intros [[? ?] _]]).
      rewrite IH. split; [eauto | by intros [_ ?]]. }
    simpl. rewrite E. split; [eauto |].
    intros [? | (issues & [= <-] & F)]; done.
Qed.

Lemma flag_errors_nil tomlDoc name field :
  get tomlDoc name = Ok field ->
  flag_errors tomlDoc name = [] <-> exists b, read tomlDoc name = VBoolean b.
Proof.
  intros E. unfold flag_errors, read. rewrite E.
  destruct field; split; try done; eauto; by intros [? ?].
Qed.

Lemma section_errors_nil errs (P : value -> Prop) items :
  (forall i item, errs i item = [] <-> P item) ->
  forall i, section_errors errs i items = [] <-> Forall P items.
Proof.
  intros E. induction items as [|item items IH]; intros i; simpl; [done |].
  by rewrite app_nil, E, IH, Forall_cons.
Qed.

Lemma release_errors_nil i release :
  release_errors i release = [] <-> valid_release release.
Proof.
  unfold release_errors, valid_release.
  by rewrite !app_nil, title_id_errors_nil, region_errors_nil, date_errors_nil.
Qed.

Lemma testcase_errors_nil i testcase :
  testcase_errors i testcase = [] <-> valid_testcase testcase.
Proof.
  unfold testcase_errors, valid_testcase.
  by rewrite !app_nil, !not_empty_errors_nil, date_errors_nil, version_errors_nil.
Qed.

Lemma releases_nil tomlDoc :
  plain_section plain_release tomlDoc "releases" ->
  (if is_undefined (read tomlDoc "releases") then ["No releases."]
   else section_errors release_errors 0 (entries (read tomlDoc "releases"))) = [] <->
  exists releases, read tomlDoc "releases" = VArray releases /\
                   Forall valid_release releases.
Proof.
  intros [E | (releases & E & _)]; rewrite (read_get _ _ _ E); simpl.
  - split; [done | by intros (? & ? & ?)].
  - rewrite (section_errors_nil _ _ _ release_errors_nil). split; [eauto |].
    by intros (? & [= <-] & ?).
Qed.

Lemma testcases_nil tomlDoc :
  plain_section plain_testcase tomlDoc "testcases" ->
  (if is_undefined (read tomlDoc "testcases") then ["No testcases."]
   else section_errors testcase_errors 0 (entries (read tomlDoc "testcases"))) = [] <->
  exists testcases, read tomlDoc "testcases" = VArray testcases /\
                    Forall valid_testcase testcases.
Proof.
  intros [E | (testcases & E & _)]; rewrite (read_get _ _ _ E); simpl.
  - split; [done | by intros (? & ? & ?)].
  - rewrite (section_errors_nil _ _ _ testcase_errors_nil). split; [eauto |].
    by intros (? & [= <-] & ?).
Qed.

Lemma flags_nil tomlDoc field testcases :
  get tomlDoc "testcases" = Ok field ->
  (if minimum 999 (parsed_compatibilities testcases) <? 5 then
     flag_errors tomlDoc "needs_system_files" ++ flag_errors tomlDoc "needs_shared_font"
   else []) = [] <->
  ((exists testcase compat, testcase ∈ testcases /\
      parsed_compatibility testcase = Some compat /\ compat < 5) ->
   (exists b, read tomlDoc "needs_system_files" = VBoolean b) /\
   (exists b, read tomlDoc "needs_shared_font" = VBoolean b)).
Proof.
  intros E.
  destruct (get_total _ _ _ "needs_system_files" E) as [v1 E1].
  destruct (get_total _ _ _ "needs_shared_font" E) as [v2 E2].
  assert (minimum 999 (parsed_compatibilities testcases) < 5 <->
          exists testcase compat, testcase ∈ testcases /\
            parsed_compatibility testcase = Some compat /\ compat < 5) as B.
  { rewrite minimum_below. unfold parsed_compatibilities. split.
    - intros [? | (compat & (testcase & I & P)%list_elem_of_omap & L)]; [lia | eauto].
    - intros (testcase & compat & I & P & L). right. exists compat. split; [| done].
      apply list_elem_of_omap. eauto. }
  destruct (Z.ltb_spec (minimum 999 (parsed_compatibilities testcases)) 5) as [L|L].
  - rewrite app_nil, (flag_errors_nil _ _ _ E1), (flag_errors_nil _ _ _ E2).
    apply B in L. split; [auto | intros F; by apply F].
  - split; [| done]. intros _ C. apply B in C. lia.
Qed.

Lemma document_errors_nil tomlDoc :
  plain_document tomlDoc -> document_errors tomlDoc = [] <-> valid_document tomlDoc.
Proof.
  intros [R T]. unfold document_errors, valid_document.
  rewrite !app_nil, !not_empty_errors_nil, issues_errors_nil, (releases_nil _ R),
    (testcases_nil _ T).
  assert (exists field, get tomlDoc "testcases" = Ok field) as [t Et]
    by (destruct T as [E | (items & E & _)]; eauto).
  split.
  - intros (Ht & Hd & Hi & Hr & (testcases & E & F) & Hf).
    split; [done |]. split; [done |]. split; [done |]. split; [done |].
    exists testcases. split; [done |]. split; [done |].
    rewrite E in Hf. simpl in Hf. by apply (flags_nil _ _ _ Et).
  - intros (Ht & Hd & Hi & Hr & (testcases & E & F & Hf)).
    split; [done |]. split; [done |]. split; [done |]. split; [done |].
    split; [eauto |]. rewrite E. simpl. by apply (flags_nil _ _ _ Et).
Qed.

(** What it takes to pass: for a document whose releases and test cases
    are lists of plain entries, the checks record nothing exactly when the
    title and the description are non-empty strings, the issues, if given,
    are a list of numbers, every release has a title of 16 letters and
    digits, a configured region and a date, every test case has a
    compatibility, a date, a version of [HEAD-] and seven characters and an
    author, and both resource flags are booleans if some compatibility
    parses to less than 5.  A list without entries passes. *)
Theorem validateDocument_accepts (tomlDoc : value) (st : state) :
  plain_document tomlDoc ->
  validateDocument tomlDoc st = (Ok tt, st) <-> valid_document tomlDoc.
Proof.
  intros P. rewrite (validateDocument_run _ _ P), <- (document_errors_nil _ P).
  rewrite <- (record_all_unchanged (document_errors tomlDoc) st).
  split; [by intros [= E] | by intros ->].
Qed.

End Acceptance.

(** The complete sample document passes, so it is as described. *)
Lemma validateDocument_accepts_witness :
  @valid_document Sample.good_world Sample.good_doc.
Proof.
  refine (proj1 (@validateDocument_accepts Sample.good_world Sample.good_doc initial _) _).
  - split; right; eexists; (split; [by vm_compute |]);
      (apply Forall_cons_2; [| apply Forall_nil_2]);
      split; eexists; (split; [by vm_compute | right; by eexists]).
  - by vm_compute.
Defined.

(** ** The saves *)

Section SaveChecks.
Context `{World}.

Lemma validateSaveTOML_run path rawContents tomlDoc st :
  files !! path = Some (File rawContents) ->
  toml_parse rawContents = inr tomlDoc ->
  string_or_missing tomlDoc "title_id" ->
  validateSaveTOML path st = (Ok tt, record_all (save_errors tomlDoc) st).
Proof.
  intros F P (id & Ei & Hi). unfold validateSaveTOML, readFileSync, stat, save_errors.
  rewrite bind_run, F. cbn [follow]. rewrite lift_run, P.
  destruct (get_total _ _ _ "title" Ei) as [title Et].
  destruct (get_total _ _ _ "description" Ei) as [description Ed].
  destruct (get_total _ _ _ "author" Ei) as [author Ea].
  rewrite (read_get _ _ _ Et), (read_get _ _ _ Ed), (read_get _ _ _ Ea),
    (read_get _ _ _ Ei).
  rewrite bind_run, (validateNotEmpty_run _ _ _ _ Et).
  rewrite bind_run, (validateNotEmpty_run _ _ _ _ Ed).
  rewrite bind_run, (validateNotEmpty_run _ _ _ _ Ea).
  rewrite (title_run _ _ _ _ _ Ei Hi). by rewrite !record_all_app.
Qed.

(** The metadata of a save that parses, with a [title_id] that is a string
    or missing: the title, the description, the author and the identifier
    are checked independently and in this order, and nothing else is, so
    the file passes exactly when the first three are non-empty strings and
    the identifier is 16 letters and digits. *)
Theorem validateSaveTOML_errors (path : string) (rawContents : list byte)
    (tomlDoc : value) (st : state) :
  files !! path = Some (File rawContents) ->
  toml_parse rawContents = inr tomlDoc ->
  string_or_missing tomlDoc "title_id" ->
  validateSaveTOML path st = (Ok tt, record_all (save_errors tomlDoc) st) /\
  (validateSaveTOML path st = (Ok tt, st) <->
   nonempty_string (read tomlDoc "title") /\
   nonempty_string (read tomlDoc "description") /\
   nonempty_string (read tomlDoc "author") /\
   exists s, read tomlDoc "title_id" = VString s /\
             String.length s = 16%nat /\ Spec.alphanumeric s).
Proof.
  intros F P I. rewrite (validateSaveTOML_run _ _ _ _ F P I). split; [done |].
  assert (save_errors tomlDoc = [] <->
          nonempty_string (read tomlDoc "title") /\
          nonempty_string (read tomlDoc "description") /\
          nonempty_string (read tomlDoc "author") /\
          exists s, read tomlDoc "title_id" = VString s /\
                    String.length s = 16%nat /\ Spec.alphanumeric s) as <-.
  { unfold save_errors, nonempty_string.
    by rewrite !app_nil, !not_empty_errors_nil, title_id_errors_nil. }
  rewrite <- (record_all_unchanged (save_errors tomlDoc) st).
  split; [by intros [= E] | by intros ->].
Qed.

End SaveChecks.

(** The metadata of the sample save passes. *)
Lemma validateSaveTOML_errors_witness :
  @validateSaveTOML Sample.good_world "../g/savefiles/a.dat" initial =
  (Ok tt, record_all (save_errors Sample.save_doc) initial).
Proof.
  refine (proj1 (@validateSaveTOML_errors Sample.good_world "../g/savefiles/a.dat"
                   [x02] Sample.save_doc initial _ _ _)).
  - by vm_compute.
  - by vm_compute.
  - eexists. split; [by vm_compute | right; by eexists].
Defined.

Section NamelessGroup.
Context `{World}.

Lemma strip_extension_extensionless file : extensionless file -> strip_extension file = "".
Proof.
  intros [N | (rest & -> & N)].
  - by apply ExtensionFacts.strip_extension_no_dot.
  - rewrite <- (StrFacts.app_nil_l (String "." rest)).
    by apply ExtensionFacts.strip_extension_name.
Qed.

Lemma first_occurrences_after_seen (x : string) (n : nat) : forall before,
  x ∈ before -> Spec.first_occurrences_after before (replicate n x) = [].
Proof.
  induction n as [|n IH]; intros before I; [done |].
  simpl. rewrite bool_decide_eq_true_2; [| done].
  apply IH. apply elem_of_app. by left.
Qed.

Lemma getFiles_exists dir names : getFiles dir = Ok names -> existsSync dir = true.
Proof.
  unfold getFiles, readdirSync, existsSync.
  by destruct (stat dir) as [[]|].
Qed.

Lemma save_groups_extensionless names :
  names <> [] -> Forall extensionless names -> save_groups names = [""].
Proof.
  intros N F. rewrite GroupFacts.save_groups_first_occurrences.
  assert (map strip_extension names = replicate (List.length names) "") as ->.
  { clear N. induction F as [|file names E F IH]; [done |].
    simpl. by rewrite IH, (strip_extension_extensionless _ E). }
  destruct names as [|file names]; [done |].
  unfold Spec.first_occurrences. simpl.
  rewrite first_occurrences_after_seen; [done | by left].
Qed.

(** Files without an extension in the saves folder (a [README], a
    [.gitkeep]) all fall into one group with the empty name, so the
    validator looks for the files [.dat] and [.zip] of the folder; when
    neither is there, that is two missing-file errors. *)
Theorem extensionless_saves (dir : string) (names : list string) (st : state) :
  getFiles dir = Ok names ->
  names <> [] ->
  Forall extensionless names ->
  save_groups names = [""] /\
  (files !! (dir +:+ "/.dat") = None ->
   files !! (dir +:+ "/.zip") = None ->
   validateSaves dir st =
   (Ok tt,
    record_all [Str.quote +:+ (dir +:+ "/.dat") +:+ Str.quote +:+ " does not exist!";
                Str.quote +:+ (dir +:+ "/.zip") +:+ Str.quote +:+ " does not exist!"] st)).
Proof.
  intros G N F. split; [by apply save_groups_extensionless |].
  intros D Z. unfold validateSaves.
  rewrite (getFiles_exists _ _ G). cbn [negb].
  rewrite bind_run, G, lift_run, (save_groups_extensionless _ N F).
  cbn [for_each]. unfold check_save_group, check_save_dat, check_save_zip.
  change (dir +:+ "/" +:+ "" +:+ ".dat") with (dir +:+ "/.dat").
  change (dir +:+ "/" +:+ "" +:+ ".zip") with (dir +:+ "/.zip").
  rewrite bind_run, bind_run, (bind_ok _ _ _ _ _ (validateFileExists_missing _ _ D)).
  cbn [when]. cbv [mret M_ret]. lazy beta iota.
  by rewrite (bind_ok _ _ _ _ _ (validateFileExists_missing _ _ Z)).
Qed.

End NamelessGroup.

(** A saves folder that holds a [README] and a [.gitkeep]. *)
Lemma extensionless_saves_witness :
  @validateSaves
    (Sample.world (list_to_map [("saves", Directory ["README"; ".gitkeep"]);
                                ("saves/README", File []);
                                ("saves/.gitkeep", File [])]) [])
    "saves" initial =
  (Ok tt,
   record_all [Str.quote +:+ "saves/.dat" +:+ Str.quote +:+ " does not exist!";
               Str.quote +:+ "saves/.zip" +:+ Str.quote +:+ " does not exist!"]
     initial).
Proof.
  refine (proj2 (@extensionless_saves
                   (Sample.world (list_to_map [("saves", Directory ["README"; ".gitkeep"]);
                                               ("saves/README", File []);
                                               ("saves/.gitkeep", File [])]) [])
                   "saves" ["README"; ".gitkeep"] initial _ _ _) _ _).
  - by vm_compute.
  - done.
  - apply Forall_cons_2; [left | apply Forall_cons_2; [right | apply Forall_nil_2]].
    + simpl. repeat (apply not_elem_of_cons; split; [done |]). apply not_elem_of_nil.
    + exists "gitkeep". split; [done |].
      simpl. repeat (apply not_elem_of_cons; split; [done |]). apply not_elem_of_nil.
  - by vm_compute.
  - by vm_compute.
Defined.

(** ** What the validators do to the state

    The validators reach the globals through [validationError] only: they
    do not print and do not change the current game, so every error of a
    game is filed under it. *)

Section RecordsOnly.

Lemma records_only_ret {A} (a : A) : records_only (mret a).
Proof. intros st. by exists []. Qed.

Lemma records_only_lift {A} (r : outcome A) : records_only (lift r).
Proof. intros st. by exists []. Qed.

Lemma records_only_validationError err : records_only (validationError err).
Proof. intros st. by exists [err]. Qed.

Lemma records_only_bind {A B} (m : M A) (f : A -> M B) :
  records_only m -> (forall a, records_only (f a)) -> records_only (m ≫= f).
Proof.
  intros Hm Hf st. rewrite bind_run. destruct (Hm st) as [errs1 E1].
  destruct (m st) as [[a|e] st1]; simpl in E1; subst st1; [| by exists errs1].
  destruct (Hf a (record_all errs1 st)) as [errs2 E2].
  exists (errs1 ++ errs2). by rewrite E2, record_all_app.
Qed.

Lemma records_only_when cond body : records_only body -> records_only (when cond body).
Proof. intros Hb. destruct cond; [done | apply records_only_ret]. Qed.

Lemma records_only_for_each {A} (items : list A) (body : A -> M unit) :
  (forall x, records_only (body x)) -> records_only (for_each items body).
Proof.
  intros Hb. induction items as [|x items IH]; simpl.
  - apply records_only_ret.
  - apply records_only_bind; [apply Hb | by intros _].
Qed.

Lemma records_only_for_entries {L} (section : list value)
    (body : nat -> value -> L -> M L) :
  (forall i entry acc, records_only (body i entry acc)) ->
  forall i acc, records_only (for_entries i section body acc).
Proof.
  intros Hb. induction section as [|entry rest IH]; intros i acc; simpl.
  - apply records_only_ret.
  - apply records_only_bind; [apply Hb | intros acc'; apply IH].
Qed.

End RecordsOnly.

Create HintDb records_only.

#[global] Hint Resolve records_only_ret records_only_lift records_only_validationError
  : records_only.

(** Breaks a computation into its steps, down to the primitives. *)
Ltac records_only :=
  repeat (solve [auto with records_only]
          || first
               [ apply records_only_when
               | apply records_only_bind; [| intros ?]
               | apply records_only_for_each; intros ?
               | apply records_only_for_entries; intros ? ? ?
               | match goal with
                 | |- records_only (if ?c then _ else _) => destruct c
                 | |- records_only (match ?x with _ => _ end) => destruct x
                 end ]).

Section RecordsOnlyValidators.
Context `{World}.

Lemma records_only_validateContents struct name test :
  (forall field, records_only (test field)) ->
  records_only (validateContents struct name test).
Proof. intros Ht. unfold validateContents, validateExists. records_only. Qed.

Lemma records_only_validateNotEmpty struct name :
  records_only (validateNotEmpty struct name).
Proof.
  unfold validateNotEmpty. apply records_only_validateContents. intros field.
  records_only.
Qed.

Lemma records_only_validateIsDate struct name :
  records_only (validateIsDate struct name).
Proof.
  unfold validateIsDate. apply records_only_validateContents. intros field.
  records_only.
Qed.

Lemma records_only_validateIsBoolean struct name :
  records_only (validateIsBoolean struct name).
Proof. unfold validateIsBoolean. records_only. Qed.

Lemma records_only_check_title_id prefix field :
  records_only (check_title_id prefix field).
Proof. unfold check_title_id. records_only. Qed.

Lemma records_only_check_version i test : records_only (check_version i test).
Proof. unfold check_version. records_only. Qed.

Lemma records_only_check_github_issues field :
  records_only (check_github_issues field).
Proof. unfold check_github_issues. records_only. Qed.

Hint Resolve records_only_validateNotEmpty records_only_validateIsDate
  records_only_validateIsBoolean records_only_check_title_id
  records_only_check_version records_only_check_github_issues : records_only.

Lemma records_only_validateImage path config : records_only (validateImage path config).
Proof. unfold validateImage. records_only. Qed.

Hint Resolve records_only_validateImage : records_only.

Lemma records_only_validateDirImages path config :
  records_only (validateDirImages path config).
Proof. unfold validateDirImages. records_only. Qed.

Lemma records_only_check_release i release : records_only (check_release i release).
Proof.
  unfold check_release.
  repeat (apply records_only_bind; [| intros ?]);
    try (apply records_only_validateContents; intros ?); records_only.
Qed.

Lemma records_only_check_testcase i testcase maxCompatibility :
  records_only (check_testcase i testcase maxCompatibility).
Proof.
  unfold check_testcase.
  repeat (apply records_only_bind; [| intros ?]);
    try (apply records_only_validateContents; intros ?); records_only.
Qed.

Hint Resolve records_only_check_release records_only_check_testcase : records_only.

Lemma records_only_validateDocument tomlDoc : records_only (validateDocument tomlDoc).
Proof.
  unfold validateDocument, check_header, validate_github_issues, check_releases,
    check_testcases, check_resources.
  repeat (apply records_only_bind; [| intros ?]);
    try (apply records_only_when; apply records_only_validateContents; intros ?);
    records_only.
Qed.

Hint Resolve records_only_validateDocument : records_only.

Lemma records_only_validateTOML path : records_only (validateTOML path).
Proof. unfold validateTOML. records_only. Qed.

Lemma records_only_validateSaves dir : records_only (validateSaves dir).
Proof.
  unfold validateSaves, check_save_group, check_save_dat, check_save_zip,
    validateFileExists, validateSaveTOML, validateSaveZip.
  repeat (solve [auto with records_only]
          || (apply records_only_validateContents; intros ?)
          || records_only).
Qed.

Hint Resolve records_only_validateDirImages records_only_validateTOML
  records_only_validateSaves : records_only.

(** The state a game is validated from. *)
Lemma game_body_run game st :
  exists errs,
    snd (game_body game st) =
    if reserved game then st
    else record_all errs
           {| currentGame := Some game; errors := errors st; console := console st |}.
Proof.
  unfold game_body, reserved.
  destruct (String.eqb game ".git" || String.eqb game "_validation"); [by exists [] |].
  rewrite bind_run. cbn [set_currentGame].
  match goal with
  | |- context [?checks {| currentGame := Some game; errors := _; console := _ |}] =>
      assert (records_only checks) as R by records_only
  end.
  apply R.
Qed.

End RecordsOnlyValidators.

Section Attribution.
Context `{World}.

Lemma record_all_console errs st : console (record_all errs st) = console st.
Proof.
  revert st. induction errs as [|err errs IH]; intros st; [done |].
  change (record_all (err :: errs) st) with (record_all errs (record err st)).
  by rewrite IH.
Qed.

(** What the callback does to the state: the errors of the game, then the
    two lines of an exception, if one was thrown. *)
Lemma validateGame_run game st :
  exists errs lines,
    validateGame game st =
    (Ok tt,
     print_all lines
       (if reserved game then st
        else record_all errs
               {| currentGame := Some game; errors := errors st;
                  console := console st |})) /\
    (lines = [] \/
     exists ex, reserved game = false /\
                lines = [Warn (game +:+ " has encountered an unexpected error.");
                         Error ex]).
Proof.
  destruct (game_body_run game st) as [errs E]. unfold validateGame, try_catch.
  destruct (game_body game st) as [[[]|ex] st1] eqn:B; simpl in E; subst st1.
  - exists errs, []. rewrite print_all_nil. auto.
  - exists errs, [Warn (game +:+ " has encountered an unexpected error."); Error ex].
    split.
    + unfold game_handler. by rewrite bind_run, !print_run, print_all_app.
    + right. exists ex. split; [| done].
      unfold game_body, reserved in *.
      by destruct (String.eqb game ".git" || String.eqb game "_validation").
Qed.

Lemma loop_errors games : forall st,
  exists added,
    errors (snd (for_each games validateGame st)) = errors st ++ added /\
    Forall (fun r => exists g, game r = Some g /\ g ∈ games /\ reserved g = false) added.
Proof.
  induction games as [|g games IH]; intros st.
  - exists []. by rewrite app_nil_r.
  - destruct (validateGame_run g st) as (errs & lines & E & _).
    cbn [for_each]. rewrite (bind_ok _ _ _ _ _ E).
    match goal with |- context [for_each games validateGame ?s] =>
      destruct (IH s) as (added & Ea & Fa); set (st1 := s) in *
    end.
    assert (exists mine, errors st1 = errors st ++ mine /\
              Forall (fun r => game r = Some g /\ reserved g = false) mine)
      as (mine & Em & Fm).
    { subst st1. simpl. destruct (reserved g) eqn:R.
      - exists []. by rewrite app_nil_r.
      - rewrite record_all_errors. simpl. eexists. split; [done |].
        apply Forall_forall. intros r (err & -> & _)%list_elem_of_fmap. done. }
    exists (mine ++ added). rewrite Ea, Em, <- app_assoc. split; [done |].
    apply Forall_app. split.
    + eapply Forall_impl; [exact Fm |]. intros r [Hg Hr]. exists g.
      split; [done |]. split; [left | done].
    + eapply Forall_impl; [exact Fa |]. intros r (g' & Hg & I & Hr). exists g'.
      split; [done |]. split; [by right | done].
Qed.

(** Every error of a run is filed under a game: a folder of the listing
    that is not a reserved one.  No error is filed under the null game the
    script starts with. *)
Theorem errors_attributed (games : list string) :
  getDirectories (directory config) = Ok games ->
  Forall (fun r => exists g, game r = Some g /\ g ∈ games /\ reserved g = false)
    (errors (snd (main initial))).
Proof.
  intros G. destruct (game_loop_returns games initial) as [st L].
  assert (main initial = report st) as ->.
  { unfold main. rewrite bind_run, G. simpl. by rewrite bind_run, L. }
  rewrite report_errors.
  destruct (loop_errors games initial) as (added & E & F).
  rewrite L in E. simpl in E. by rewrite E.
Qed.

(** The validators print nothing.  What the loop over the games adds to
    the console is, for some of the games that are not reserved, in the
    order of the listing and each at most once, the warning that names the
    game and the exception that ended its validation. *)
Theorem loop_prints_exceptions_only (games : list string) (st : state) :
  exists thrown : list (string * exn),
    console (snd (for_each games validateGame st)) =
    console st ++
    flat_map (fun p => [Warn (fst p +:+ " has encountered an unexpected error.");
                        Error (snd p)]) thrown /\
    fst <$> thrown `sublist_of` List.filter (fun g => negb (reserved g)) games.
Proof.
  revert st.
  induction games as [|g games IH]; intros st.
  - exists []. simpl. rewrite app_nil_r. split; [done | constructor].
  - destruct (validateGame_run g st) as (errs & lines & E & L).
    cbn [for_each]. rewrite (bind_ok _ _ _ _ _ E).
    match goal with |- context [for_each games validateGame ?s] =>
      destruct (IH s) as (thrown & Ec & S); set (st1 := s) in *
    end.
    assert (console st1 = console st ++ lines) as C.
    { subst st1. simpl. destruct (reserved g); [done |]. by rewrite record_all_console. }
    rewrite Ec, C, <- app_assoc.
    destruct L as [-> | (ex & R & ->)].
    + exists thrown. split; [done |]. simpl.
      destruct (negb (reserved g)); [by apply sublist_cons | done].
    + exists ((g, ex) :: thrown). split; [done |]. simpl. rewrite R. simpl.
      by apply sublist_skip.
Qed.

End Attribution.

(** The sample wiki with a box art of 100 x 100: one error, under [g]. *)
Lemma errors_attributed_witness :
  Forall (fun r => exists g, game r = Some g /\ g ∈ [".git"; "g"] /\ reserved g = false)
    (errors (snd (@main (Sample.world
                           (<["../g/boxart.png" := File (Sample.png_file 100 100)]>
                              Sample.good_fs) []) initial))).
Proof.
  refine (@errors_attributed
            (Sample.world (<["../g/boxart.png" := File (Sample.png_file 100 100)]>
                             Sample.good_fs) []) [".git"; "g"] _).
  by vm_compute.
Defined.

(** ** The loop over the game folders *)

Section GameLoop.
Context `{World}.

Lemma validateGame_reserved game st : reserved game = true -> validateGame game st = (Ok tt, st).
Proof.
  unfold reserved, validateGame, try_catch, game_body. by intros ->.
Qed.

(** The reserved folders [.git] and [_validation] are passed over wherever
    the listing has them: the run is the run on the other folders. *)
Theorem reserved_folders_skipped (games : list string) (st : state) :
  for_each games validateGame st =
  for_each (List.filter (fun game => negb (reserved game)) games) validateGame st.
Proof.
  revert st. induction games as [|game games IH]; intros st; [done |].
  cbn [List.filter]. destruct (reserved game) eqn:R; cbn [negb for_each].
  - by rewrite (bind_ok _ _ _ _ _ (validateGame_reserved _ _ R)).
  - rewrite !bind_run. destruct (validateGame game st) as [[[]|ex] st1]; [apply IH | done].
Qed.

Lemma validateImage_missing path config st :
  files !! path = None ->
  validateImage path config st =
  (Ok tt,
   record ("Image " +:+ Str.quote +:+ path +:+ Str.quote +:+ "' was not found at " +:+
           path +:+ ".") st).
Proof. intros F. unfold validateImage. by rewrite (existsSync_false _ F). Qed.

Lemma validateTOML_missing path st :
  files !! path = None ->
  validateTOML path st = (Ok tt, record ("TOML was not found at " +:+ path +:+ ".") st).
Proof. intros F. unfold validateTOML. by rewrite (existsSync_false _ F). Qed.

Lemma validateDirImages_missing path config st :
  files !! path = None -> validateDirImages path config st = (Ok tt, st).
Proof. intros F. unfold validateDirImages. by rewrite (existsSync_false _ F). Qed.

(** What a game folder must hold: the box art, the icon and the metadata
    are required, the screenshots and the saves are not.  A folder with
    none of the five is reported for the first three, in this order, under
    its own name, and nothing is printed. *)
Theorem bare_game_folder (game : string) (st : state) :
  let dir := directory config +:+ "/" +:+ game in
  reserved game = false ->
  files !! (dir +:+ "/" +:+ boxart_filename config) = None ->
  files !! (dir +:+ "/" +:+ icon_filename config) = None ->
  files !! (dir +:+ "/" +:+ data_filename config) = None ->
  files !! (dir +:+ "/" +:+ screenshots_dirname config) = None ->
  files !! (dir +:+ "/" +:+ saves_dirname config) = None ->
  validateGame game st =
  (Ok tt,
   record_all
     ["Image " +:+ Str.quote +:+ (dir +:+ "/" +:+ boxart_filename config) +:+ Str.quote +:+
      "' was not found at " +:+ (dir +:+ "/" +:+ boxart_filename config) +:+ ".";
      "Image " +:+ Str.quote +:+ (dir +:+ "/" +:+ icon_filename config) +:+ Str.quote +:+
      "' was not found at " +:+ (dir +:+ "/" +:+ icon_filename config) +:+ ".";
      "TOML was not found at " +:+ (dir +:+ "/" +:+ data_filename config) +:+ "."]
     {| currentGame := Some game; errors := errors st; console := console st |}).
Proof.
  intros dir R Fb Fi Fd Fs Fv. unfold validateGame, try_catch, game_body.
  unfold reserved in R. rewrite R. fold dir.
  rewrite bind_run. cbn [set_currentGame].
  rewrite bind_run, (validateImage_missing _ _ _ Fb).
  rewrite bind_run, (validateImage_missing _ _ _ Fi).
  rewrite bind_run, (validateTOML_missing _ _ Fd).
  rewrite bind_run, (validateDirImages_missing _ _ _ Fs).
  by rewrite (validateSaves_absent _ _ Fv).
Qed.

(** The three ways a run ends.  If the folders of the wiki cannot be
    listed, the exception of the listing is caught by nothing: no game is
    validated and nothing is printed.  Otherwise every game is validated,
    and the script ends by [process.exit] with status 0 if no error was
    recorded and with status 1 if the errors can be grouped; but if some
    error is filed under a game named like a member of [Object.prototype],
    the grouping throws after the summary line and nothing catches it.  In
    the two uncaught cases there is no report, and the process ends with
    status 1. *)
Theorem run_outcomes :
  match getDirectories (directory config) with
  | Throw ex =>
      main initial = (Throw ex, initial) /\ exit_status (fst (main initial)) = 1
  | Ok games =>
      exists st,
        for_each games validateGame initial = (Ok tt, st) /\
        (errors st = [] ->
           main initial =
           (Ok 0, print_all [Info "Validation completed without errors."] st)) /\
        (errors st <> [] -> Forall plainly_named (errors st) ->
           exists lines,
             main initial =
             (Ok 1, print_all (Warn "Validation completed with errors." :: lines) st)) /\
        (Exists inherits_name (errors st) ->
           main initial =
             (Throw Groups.no_push,
              print_all [Warn "Validation completed with errors."] st) /\
           exit_status (fst (main initial)) = 1)
  end.
Proof.
  destruct (getDirectories (directory config)) as [games|ex] eqn:G.
  - destruct (game_loop_returns games initial) as [st L]. exists st.
    rewrite (main_listed _ _ G L), report_run. split; [done |]. split; [| split].
    + intros E. by rewrite decide_True.
    + intros N F. destruct (GroupingFacts.groupBy_ok _ F) as (groups & -> & _).
      rewrite decide_False; [| done]. by eexists.
    + intros X. rewrite (GroupingFacts.groupBy_throw _ X).
      rewrite decide_False; [done |]. intros Z. rewrite Z in X.
      by apply Exists_nil in X.
  - by rewrite (main_uncaught _ G).
Qed.

End GameLoop.

(** A game folder that is empty. *)
Lemma bare_game_folder_witness :
  @validateGame (Sample.world (list_to_map [("..", Directory ["g"]); ("../g", Directory [])]) [])
    "g" initial =
  (Ok tt,
   record_all
     ["Image " +:+ Str.quote +:+ "../g/boxart.png" +:+ Str.quote +:+
      "' was not found at ../g/boxart.png.";
      "Image " +:+ Str.quote +:+ "../g/icon.png" +:+ Str.quote +:+
      "' was not found at ../g/icon.png.";
      "TOML was not found at ../g/game.dat."]
     {| currentGame := Some "g"; errors := []; console := [] |}).
Proof.
  refine (@bare_game_folder
            (Sample.world (list_to_map [("..", Directory ["g"]); ("../g", Directory [])]) [])
            "g" initial _ _ _ _ _ _); by vm_compute.
Defined.

(** ** The report *)

Section ReportCoverage.
Import Groups.

Lemma filter_split (k : string) (ks : list string) (errs : list error_record) :
  k ∉ ks ->
  filed k errs ++ List.filter (fun r => bool_decide (group_key r ∈ ks)) errs ≡ₚ
  List.filter (fun r => bool_decide (group_key r ∈ k :: ks)) errs.
Proof.
  intros N. unfold filed. induction errs as [|r errs IH]; [done |].
  cbn [List.filter]. destruct (String.eqb_spec (group_key r) k) as [E|D].
  - rewrite (bool_decide_eq_false_2 (group_key r ∈ ks)); [| by rewrite E].
    rewrite (bool_decide_eq_true_2 (group_key r ∈ k :: ks)); [| rewrite E; left].
    simpl. by rewrite IH.
  - destruct (decide (group_key r ∈ ks)) as [I|I].
    + rewrite (bool_decide_eq_true_2 _ I).
      rewrite (bool_decide_eq_true_2 (group_key r ∈ k :: ks)); [| by right].
      by rewrite <- Permutation_middle, IH.
    + rewrite (bool_decide_eq_false_2 _ I).
      rewrite (bool_decide_eq_false_2 (group_key r ∈ k :: ks)); [done |].
      rewrite not_elem_of_cons. done.
Qed.

Lemma flat_map_filed (ks : list string) (errs : list error_record) :
  NoDup ks ->
  flat_map (fun k => filed k errs) ks ≡ₚ
  List.filter (fun r => bool_decide (group_key r ∈ ks)) errs.
Proof.
  induction 1 as [|k ks N D IH]; simpl.
  - by induction errs as [|r errs IHe].
  - by rewrite IH, filter_split.
Qed.

Lemma filter_all {A} (p : A -> bool) (l : list A) :
  Forall (fun x => p x = true) l -> List.filter p l = l.
Proof. induction 1 as [|x l P F IH]; simpl; [done |]. by rewrite P, IH. Qed.

(** The grouped report loses and repeats nothing.  When no error is filed
    under a game named like a member of [Object.prototype], the grouping
    succeeds and the issues of the groups, taken group after group in the
    order of the enumeration, are the recorded errors, each once.  With
    such an error the grouping throws and there is no group to list. *)
Theorem report_covers_errors (errs : list error_record) :
  match groupBy errs with
  | Ok groups =>
      Forall plainly_named errs /\
      flat_map (fun key => default [] (lookup key groups)) (keys groups) ≡ₚ errs
  | Throw ex => Exists inherits_name errs /\ ex = no_push
  end.
Proof.
  destruct (GroupingFacts.inherited_cases errs) as [F | X].
  - destruct (GroupingFacts.groupBy_ok errs F) as (groups & -> & K & L).
    split; [done |].
    assert (NoDup (Spec.first_occurrences (map group_key errs))) as D
      by apply GroupFacts.NoDup_first_occurrences_after.
    rewrite (flat_map_ext _ (fun key => filed key errs)); [| exact L].
    rewrite GroupingFacts.keys_permutation, K.
    rewrite (flat_map_filed _ _ D). rewrite filter_all; [done |].
    apply Forall_forall. intros r I. apply bool_decide_eq_true_2.
    apply GroupFacts.elem_of_first_occurrences_after. split; [| apply not_elem_of_nil].
    by apply list_elem_of_In, in_map, list_elem_of_In.
  - by rewrite (GroupingFacts.groupBy_throw _ X).
Qed.

End ReportCoverage.

(** ** Exceptions and the exit status *)

Section ExceptionStatus.
Context `{World}.

(** An exception is not an error.  When the validation of the only game
    throws before any error is recorded, the exception is printed and the
    script still ends with status 0 and the confirmation line. *)
Theorem exception_exits_zero (game : string) (ex : exn) (st1 : state) :
  getDirectories (directory config) = Ok [game] ->
  game_body game initial = (Throw ex, st1) ->
  errors st1 = [] ->
  main initial =
  (Ok 0,
   print_all [Warn (game +:+ " has encountered an unexpected error."); Error ex;
              Info "Validation completed without errors."] st1).
Proof.
  intros G B E. unfold main. rewrite bind_run, G, lift_run.
  cbn [for_each]. rewrite !bind_run. unfold validateGame, try_catch. rewrite B.
  unfold game_handler. rewrite bind_run, !print_run, print_all_app.
  cbv [mret M_ret]. lazy beta iota. rewrite report_run.
  rewrite decide_True; [| done]. by rewrite print_all_app.
Qed.

Lemma filter_none (n : number) (l : list nat) :
  (forall i, index_lt i n = false) -> filter (fun i => index_lt i n) l = [].
Proof.
  intros N. induction l as [|i l IH]; [done |].
  rewrite filter_cons, IH. destruct (decide _) as [T|]; [| done].
  by rewrite N in T.
Qed.

Lemma entries_lengthless section : lengthless section -> entries section = [].
Proof.
  destruct section as [| | | | | |fields]; try done.
  intros L. unfold lengthless in L. unfold entries. rewrite L.
  by rewrite (filter_none NaN).
Qed.

(** A section is not checked for being a list.  A [releases] or
    [testcases] that is a number, a boolean, a date or a single table
    without a [length] is looped over zero times: nothing is recorded, no
    entry is checked, and the running minimum stays at 999, so the
    resource flags are not asked for. *)
Theorem section_not_a_list (tomlDoc releases testcases : value) (st : state) :
  get tomlDoc "releases" = Ok releases ->
  get tomlDoc "testcases" = Ok testcases ->
  lengthless releases ->
  lengthless testcases ->
  check_releases tomlDoc st = (Ok tt, st) /\
  check_testcases tomlDoc st = (Ok 999, st).
Proof.
  intros Er Et Lr Lt. unfold check_releases, check_testcases.
  rewrite !bind_run, Er, Et, !lift_run.
  rewrite (entries_lengthless _ Lr), (entries_lengthless _ Lt).
  by destruct releases, testcases.
Qed.

End ExceptionStatus.

(** A wiki of one game whose icon is of no known format. *)
Lemma exception_exits_zero_witness :
  @main (Sample.world
           (<[".." := Directory ["g"]]>
              (<["../g/icon.png" := File [x00; x00]]> Sample.good_fs)) [])
    initial =
  (Ok 0,
   {| currentGame := Some "g"; errors := [];
      console := [Warn "g has encountered an unexpected error.";
                  Error (TypeError "cannot read property mime of null");
                  Info "Validation completed without errors."] |}).
Proof.
  refine (@exception_exits_zero
            (Sample.world
               (<[".." := Directory ["g"]]>
                  (<["../g/icon.png" := File [x00; x00]]> Sample.good_fs)) [])
            "g" (TypeError "cannot read property mime of null")
            {| currentGame := Some "g"; errors := []; console := [] |} _ _ _);
    by vm_compute.
Defined.

(** A document that has [[releases]] and [[testcases]] as single tables. *)
Lemma section_not_a_list_witness :
  let tomlDoc :=
    Sample.table [("title", VString "Sample Game");
                  ("releases", Sample.table [("title", VString "none")]);
                  ("testcases", Sample.table [("compatibility", VString "0")])] in
  @check_releases Sample.good_world tomlDoc initial = (Ok tt, initial) /\
  @check_testcases Sample.good_world tomlDoc initial = (Ok 999, initial).
Proof.
  refine (@section_not_a_list Sample.good_world
            (Sample.table [("title", VString "Sample Game");
                           ("releases", Sample.table [("title", VString "none")]);
                           ("testcases", Sample.table [("compatibility", VString "0")])])
            (Sample.table [("title", VString "none")])
            (Sample.table [("compatibility", VString "0")]) initial _ _ _ _);
    by vm_compute.
Defined.
